(** * Atropos: alignment helpers, insert aligner and the parallel trim runner

    A shallow embedding of [atropos/align.py] and of the parallel part of
    [atropos/commands/trim.py].

    Conventions of the embedding.
    - Python [int] is [Z]; a Python [str]/[bytes] sequence is [list ascii].
    - Python [float] values (probabilities, error rates, fractions) are
      represented by exact rationals [Q]; the gates are compared as the code
      compares them, and the concrete inputs below stay away from the
      thresholds.
    - A call that may raise returns [result A]: [Ok a] or [Raise e].
    - The compiled extension [atropos._align] and the helpers of
      [atropos.util] are imported by [align.py]; they are an interface here
      ([AlignExt]) with one instance written from the specification. *)

From Stdlib Require Import ZArith List Ascii String QArith Qround Lia Bool.
From Stdlib Require Import Floats.PrimFloat Floats.SpecFloat Floats.FloatOps.
From Stdlib Require Import Numbers.Cyclic.Int63.Uint63.
From stdpp Require Import gmap.
Import ListNotations.

Local Open Scope Z_scope.

(** ** Exceptions and results *)

Inductive exn : Type :=
| AssertionError
| IndexError
| AttributeError
| NameError (name : string)
| ValueError (msg : string)
| WorkerDied (worker_index : Z)
| MissingBatches (batches : gset Z).

Inductive result (A : Type) : Type :=
| Ok (a : A)
| Raise (e : exn).
Arguments Ok {A} a.
Arguments Raise {A} e.

Definition rbind {A B : Type} (r : result A) (k : A -> result B) : result B :=
  match r with
  | Ok a => k a
  | Raise e => Raise e
  end.

#[global] Instance result_ret : MRet result := fun _ a => Ok a.
#[global] Instance result_bind : MBind result := fun _ _ k r => rbind r k.

(** ** Python sequences *)

Definition pyseq : Type := list ascii.

Definition b (s : string) : pyseq := list_ascii_of_string s.

Definition py_len (s : pyseq) : Z := Z.of_nat (List.length s).

(** [range(n)]: empty when [n <= 0]. *)
Definition py_range (n : Z) : list Z := map Z.of_nat (seq 0 (Z.to_nat n)).

(** [s[i]]: a negative index counts from the end; out of range raises. *)
Definition py_getitem (s : pyseq) (i : Z) : result ascii :=
  let j := if i <? 0 then i + py_len s else i in
  if (j <? 0) || (py_len s <=? j) then Raise IndexError
  else match nth_error s (Z.to_nat j) with
       | Some c => Ok c
       | None => Raise IndexError
       end.

(** Normalisation of a slice bound against a sequence of length [n]. *)
Definition py_clip (n i : Z) : Z :=
  if i <? 0 then Z.max 0 (i + n) else Z.min i n.

(** [s[lo:hi]], [s[:hi]], [s[lo:]] and [s[::-1]]. *)
Definition py_slice (s : pyseq) (lo hi : Z) : pyseq :=
  let n := py_len s in
  let lo' := py_clip n lo in
  let hi' := py_clip n hi in
  firstn (Z.to_nat (hi' - lo')) (skipn (Z.to_nat lo') s).

Definition py_slice_to (s : pyseq) (hi : Z) : pyseq :=
  firstn (Z.to_nat (py_clip (py_len s) hi)) s.

Definition py_slice_from (s : pyseq) (lo : Z) : pyseq :=
  skipn (Z.to_nat (py_clip (py_len s) lo)) s.

Definition py_reversed (s : pyseq) : pyseq := rev s.

(** ** Alignment tuples and the flags of [align.py] *)

(** The 6-tuple [(refstart, refstop, querystart, querystop, matches, errors)]
    returned by [compare_prefixes], [compare_suffixes] and [Aligner.locate];
    [item0] .. [item5] are the tuple's positions. *)
Record tuple6 : Type := T6 {
  item0 : Z; item1 : Z; item2 : Z; item3 : Z; item4 : Z; item5 : Z }.

Definition START_WITHIN_SEQ1 : Z := 1.
Definition START_WITHIN_SEQ2 : Z := 2.
Definition STOP_WITHIN_SEQ1 : Z := 4.
Definition STOP_WITHIN_SEQ2 : Z := 8.

Definition SEMIGLOBAL : Z :=
  Z.lor (Z.lor (Z.lor START_WITHIN_SEQ1 START_WITHIN_SEQ2) STOP_WITHIN_SEQ1)
        STOP_WITHIN_SEQ2.

(** An [Aligner] object after construction and attribute assignment. *)
Record Aligner : Type := {
  reference : pyseq;
  max_error_rate : Q;
  flags : Z;
  wildcard_ref : bool;
  wildcard_query : bool;
  min_overlap : Z;
  indel_cost : Z }.

(** What [align.py] imports from [atropos._align] and [atropos.util]. *)
Class AlignExt : Type := {
  reverse_complement : pyseq -> pyseq;
  compare_prefixes : pyseq -> pyseq -> bool -> bool -> tuple6;
  locate : Aligner -> pyseq -> option tuple6 }.

(** ** [compare_suffixes] *)

Section CompareSuffixes.
Context `{AlignExt}.

Definition compare_suffixes (s1 s2 : pyseq) (wildcard_ref wildcard_query : bool)
  : tuple6 :=
  let s1 := py_reversed s1 in
  let s2 := py_reversed s2 in
  let t := compare_prefixes s1 s2 wildcard_ref wildcard_query in
  let length := item1 t in
  let matches := item4 t in
  let errors := item5 t in
  T6 (py_len s1 - length) (py_len s1) (py_len s2 - length) (py_len s2)
     matches errors.

End CompareSuffixes.

(** The mirror of a prefix comparison: the same counts, with the compared
    span moved to the end of sequences of lengths [n1] and [n2]. *)
Definition mirror (n1 n2 : Z) (t : tuple6) : tuple6 :=
  T6 (n1 - item1 t) n1 (n2 - item1 t) n2 (item4 t) (item5 t).

(** ** The extension module, written from the specification *)

Module SpecExt.

(** Modelled from the spec: the acceptance test of one aligned position
    ([atropos._align] is not part of the sources).  A position is a match when
    the bases are equal, or the reference base is [N] and reference wildcards
    are enabled, or the query base is [N] and query wildcards are enabled. *)
Definition base_match (wildcard_ref wildcard_query : bool) (c1 c2 : ascii) : bool :=
  Ascii.eqb c1 c2
  || (wildcard_ref && Ascii.eqb c1 "N"%char)
  || (wildcard_query && Ascii.eqb c2 "N"%char).

(** Modelled from the spec: the number of matching positions of the
    base-by-base scan of two sequences, up to the end of the shorter one
    ([atropos._align] is not part of the sources). *)
Fixpoint count_matches (wr wq : bool) (s1 s2 : pyseq) : Z :=
  match s1, s2 with
  | c1 :: r1, c2 :: r2 =>
      (if base_match wr wq c1 c2 then 1 else 0) + count_matches wr wq r1 r2
  | _, _ => 0
  end.

(** Modelled from the spec: [compare_prefixes] of [atropos._align], absent
    from the sources.  It returns [(0, L, 0, L, matches, errors)] with
    [L = min(|s1|, |s2|)], scanning base by base without indels; a position
    that is not a match is an error. *)
Definition compare_prefixes (s1 s2 : pyseq) (wr wq : bool) : tuple6 :=
  let L := Z.min (py_len s1) (py_len s2) in
  let matches := count_matches wr wq s1 s2 in
  T6 0 L 0 L matches (L - matches).

(** Modelled from the spec: [reverse_complement] of [atropos.util], absent
    from the sources; the spec only names it.  The Watson-Crick complement
    of each base (other symbols are kept), read backwards. *)
Definition complement (c : ascii) : ascii :=
  if Ascii.eqb c "A" then "T"
  else if Ascii.eqb c "T" then "A"
  else if Ascii.eqb c "C" then "G"
  else if Ascii.eqb c "G" then "C"
  else c.

Definition reverse_complement (s : pyseq) : pyseq := rev (map complement s).

(** Modelled from the spec: one cell of the alignment matrix of
    [Aligner.locate] ([atropos._align] is absent): the cheapest alignment
    that ends after [i] reference and [j] query characters, with its number
    of matches and the position where it starts. *)
Record cell : Type := {
  c_cost : Z; c_matches : Z; c_refstart : Z; c_querystart : Z }.

(** Modelled from the spec: the test of one flag of the bit mask given to
    the absent [Aligner]. *)
Definition flag_set (flags f : Z) : bool := negb (Z.land flags f =? 0).

(** Modelled from the spec: the two boundaries of the matrix of the absent
    [Aligner.locate].  The boundary with no query character consumed is free
    exactly when an initial part of the reference may be skipped, the
    boundary with no reference character consumed exactly when an initial
    part of the query may be skipped; otherwise the cell at distance [k]
    costs [k]. *)
Definition ref_boundary (a : Aligner) (i : Z) : cell :=
  if flag_set (flags a) START_WITHIN_SEQ1
  then {| c_cost := 0; c_matches := 0; c_refstart := i; c_querystart := 0 |}
  else {| c_cost := i; c_matches := 0; c_refstart := 0; c_querystart := 0 |}.

Definition query_boundary (a : Aligner) (j : Z) : cell :=
  if flag_set (flags a) START_WITHIN_SEQ2
  then {| c_cost := 0; c_matches := 0; c_refstart := 0; c_querystart := j |}
  else {| c_cost := j; c_matches := 0; c_refstart := 0; c_querystart := 0 |}.

(** Modelled from the spec: the three moves into a cell of the absent
    [Aligner.locate]: a substitution costs 0 on a match and 1 otherwise, an
    insertion or deletion costs [indel_cost]; the cheapest is kept. *)
Definition via_diag (a : Aligner) (rc qc : ascii) (d : cell) : cell :=
  if base_match (wildcard_ref a) (wildcard_query a) rc qc
  then {| c_cost := c_cost d; c_matches := c_matches d + 1;
          c_refstart := c_refstart d; c_querystart := c_querystart d |}
  else {| c_cost := c_cost d + 1; c_matches := c_matches d;
          c_refstart := c_refstart d; c_querystart := c_querystart d |}.

Definition via_indel (a : Aligner) (d : cell) : cell :=
  {| c_cost := c_cost d + indel_cost a; c_matches := c_matches d;
     c_refstart := c_refstart d; c_querystart := c_querystart d |}.

Definition cheaper (x y : cell) : cell :=
  if c_cost y <? c_cost x then y else x.

Definition dp_step (a : Aligner) (rc qc : ascii) (diag up left : cell) : cell :=
  cheaper (cheaper (via_diag a rc qc diag) (via_indel a up)) (via_indel a left).

(** Modelled from the spec: the matrix of the absent [Aligner.locate],
    line by line.  [dp_line] gives the cells [(i+1, j+1) ..] of the next
    line, from the line [prev] of reference position [i] (starting at query
    position [j]) and the cell [left] at [(i+1, j)]; [dp_lines] gives all
    lines after the one of reference position [i]. *)
Fixpoint dp_line (a : Aligner) (rc : ascii) (prev : list cell) (left : cell)
    (q : pyseq) {struct q} : list cell :=
  match q, prev with
  | qc :: q', diag :: ((up :: _) as prev') =>
      let cur := dp_step a rc qc diag up left in
      cur :: dp_line a rc prev' cur q'
  | _, _ => []
  end.

Fixpoint dp_lines (a : Aligner) (i : Z) (ref : pyseq) (prev : list cell)
    (q : pyseq) : list (list cell) :=
  match ref with
  | [] => []
  | rc :: ref' =>
      let first := ref_boundary a (i + 1) in
      let line := first :: dp_line a rc prev first q in
      line :: dp_lines a (i + 1) ref' line q
  end.

Definition dp_matrix (a : Aligner) (q : pyseq) : list (list cell) :=
  let line0 := map (query_boundary a) (py_range (py_len q + 1)) in
  line0 :: dp_lines a 0 (reference a) line0 q.

(** Modelled from the spec: a candidate end point [(refstop, querystop)]
    of the absent [Aligner.locate] with the cell found there; its length is
    the aligned span in the reference. *)
Definition candidate : Type := (Z * Z * cell)%type.

Definition cand_length (c : candidate) : Z :=
  let '(refstop, _, k) := c in refstop - c_refstart k.

Definition with_index {A : Type} (l : list A) : list (Z * A) :=
  combine (py_range (Z.of_nat (List.length l))) l.

(** Modelled from the spec: the candidate end points of the absent
    [Aligner.locate]: anywhere on the line where the reference is used up when
    the alignment may stop within the query, anywhere on the line where the
    query is used up when it may stop within the reference, and always the
    corner where both are used up. *)
Definition candidates (a : Aligner) (q : pyseq) : list candidate :=
  let m := py_len (reference a) in
  let n := py_len q in
  let mat := dp_matrix a q in
  let last_line := List.last mat [] in
  let on_ref_end := map (fun '(j, k) => (m, j, k)) (with_index last_line) in
  let on_query_end :=
    map (fun '(i, line) => (i, n, List.last line (query_boundary a n)))
        (with_index mat) in
  (if flag_set (flags a) STOP_WITHIN_SEQ2 then on_ref_end
   else List.filter (fun '(_, j, _) => j =? n) on_ref_end)
  ++ (if flag_set (flags a) STOP_WITHIN_SEQ1 then on_query_end else []).

(** Modelled from the spec: the constraints on a candidate of the absent
    [Aligner.locate], [errors / length <= max_error_rate] and
    [length >= min_overlap]. *)
Definition admissible (a : Aligner) (c : candidate) : bool :=
  let '(_, _, k) := c in
  let len := cand_length c in
  (min_overlap a <=? len)
  && Qle_bool (inject_Z (c_cost k)) (inject_Z len * max_error_rate a).

(** Modelled from the spec: the order of the candidates of the absent
    [Aligner.locate]: most matches; then fewest errors; then longest; then
    leftmost in the reference. *)
Definition better (c1 c2 : candidate) : bool :=
  let '(_, _, k1) := c1 in
  let '(_, _, k2) := c2 in
  if c_matches k2 <? c_matches k1 then true
  else if c_matches k1 <? c_matches k2 then false
  else if c_cost k1 <? c_cost k2 then true
  else if c_cost k2 <? c_cost k1 then false
  else if cand_length c2 <? cand_length c1 then true
  else if cand_length c1 <? cand_length c2 then false
  else c_refstart k1 <? c_refstart k2.

Definition pick (best : option candidate) (c : candidate) : option candidate :=
  match best with
  | None => Some c
  | Some b0 => if better c b0 then Some c else Some b0
  end.

(** Modelled from the spec: [Aligner.locate] of [atropos._align], absent
    from the sources.  An edit-distance matrix with substitution cost 0 or 1
    and [indel_cost] per insertion or deletion; the flags have the meaning
    given by the comments of [align.py] (sequence 1 is the reference,
    sequence 2 the query).  Where two moves into a cell cost the same, the
    substitution is kept, a choice the spec leaves open. *)
Definition locate (a : Aligner) (q : pyseq) : option tuple6 :=
  match fold_left pick (List.filter (admissible a) (candidates a q)) None with
  | Some (refstop, querystop, k) =>
      Some (T6 (c_refstart k) refstop (c_querystart k) querystop
               (c_matches k) (c_cost k))
  | None => None
  end.

End SpecExt.

#[global] Instance spec_ext : AlignExt := {
  reverse_complement := SpecExt.reverse_complement;
  compare_prefixes := SpecExt.compare_prefixes;
  locate := SpecExt.locate }.

(** ** [Match] *)

Record Adapter : Type := {
  adapter_name : string;
  adapter_sequence : pyseq;
  adapter_max_error_rate : Q }.

Record Read : Type := {
  read_name : string;
  read_sequence : pyseq;
  read_qualities : option pyseq }.

Record Match : Type := {
  astart : Z;
  astop : Z;
  rstart : Z;
  rstop : Z;
  matches : Z;
  errors : Z;
  front : bool;
  adapter : option Adapter;
  read : option Read;
  length : Z }.

(** [Match.__init__].  [front] defaults to [_guess_is_front()], that is
    [rstart == 0]; the three [assert] statements follow the assignments.  An
    adapter object is truthy. *)
Definition Match_init (astart astop rstart rstop matches errors : Z)
    (front : option bool) (adapter : option Adapter) (read : option Read)
  : result Match :=
  let front := match front with None => rstart =? 0 | Some f => f end in
  let length := astop - astart in
  if negb (length >? 0) then Raise AssertionError
  else if negb (length - errors >? 0) then Raise AssertionError
  else
    let self := {| astart := astart; astop := astop; rstart := rstart;
                   rstop := rstop; matches := matches; errors := errors;
                   front := front; adapter := adapter; read := read;
                   length := length |} in
    match adapter with
    | Some ad =>
        if Qle_bool (inject_Z errors / inject_Z length) (adapter_max_error_rate ad)
        then Ok self
        else Raise AssertionError
    | None => Ok self
    end.

Definition attr {A : Type} (o : option A) : result A :=
  match o with Some a => Ok a | None => Raise AttributeError end.

(** The list comprehension of [Match.wildcards]: for each [i] of
    [range(self.length)] the condition is evaluated left to right ([and]
    short-circuits), and the one-character slice is collected when it holds. *)
Fixpoint wildcards_items (self : Match) (wildcard_char : ascii) (indices : list Z)
  : result (list pyseq) :=
  match indices with
  | [] => Ok []
  | i :: rest =>
      ad ← attr (adapter self);
      c ← py_getitem (adapter_sequence ad) (astart self + i);
      keep ← (if Ascii.eqb c wildcard_char
               then rd ← attr (read self);
                    Ok (rstart self + i <? py_len (read_sequence rd))
               else Ok false);
      item ← (if keep : bool
               then rd ← attr (read self);
                    Ok [py_slice (read_sequence rd) (rstart self + i)
                                 (rstart self + i + 1)]
               else Ok []);
      tail ← wildcards_items self wildcard_char rest;
      Ok (item ++ tail)
  end.

Definition wildcards (self : Match) (wildcard_char : ascii) : result pyseq :=
  items ← wildcards_items self wildcard_char (py_range (length self));
  Ok (concat items).

(** [Match.rest]. *)
Definition rest (self : Match) : result pyseq :=
  rd ← attr (read self);
  if front self then Ok (py_slice_to (read_sequence rd) (rstart self))
  else Ok (py_slice_from (read_sequence rd) (rstop self)).

(** The words of the specification for [wildcards]: the read characters at
    [rstart + i], for the [i] below [length] in increasing order at which
    the adapter has the wildcard character at [astart + i] and
    [rstart + i] lies inside the read.  [wildcard_at] is the contribution of
    one index. *)
Definition wildcard_at (ad rd : pyseq) (astart rstart : Z) (wildcard_char : ascii)
    (i : Z) : pyseq :=
  match nth_error ad (Z.to_nat (astart + i)),
        nth_error rd (Z.to_nat (rstart + i)) with
  | Some c, Some r => if Ascii.eqb c wildcard_char then [r] else []
  | _, _ => []
  end.

Definition wildcards_spec (ad rd : pyseq) (astart rstart length : Z)
    (wildcard_char : ascii) : pyseq :=
  flat_map (wildcard_at ad rd astart rstart wildcard_char) (py_range length).

(** Modelled from the spec: the aligner of an adapter cutter
    ([atropos.adapters] and [atropos.modifiers] are absent from the
    sources).  Its reference is the adapter sequence and its error rate the
    adapter's maximum error rate; it locates the adapter in the read, and
    the tuple found is given to [Match] with the adapter and the read
    attached, as in scenario 1 of the specification. *)
Definition adapter_aligner (ad : Adapter) (flags : Z)
    (wildcard_ref wildcard_query : bool) (min_overlap indel_cost : Z) : Aligner :=
  {| reference := adapter_sequence ad;
     max_error_rate := adapter_max_error_rate ad;
     flags := flags;
     wildcard_ref := wildcard_ref;
     wildcard_query := wildcard_query;
     min_overlap := min_overlap;
     indel_cost := indel_cost |}.

(** Modelled from the spec: the adapter cutter's call of the aligner and of
    the [Match] constructor ([atropos.adapters] is absent). *)
Definition adapter_match `{AlignExt} (a : Aligner) (ad : Adapter) (rd : Read)
  : result (option Match) :=
  match locate a (read_sequence rd) with
  | Some t =>
      m ← Match_init (item0 t) (item1 t) (item2 t) (item3 t) (item4 t) (item5 t)
                     None (Some ad) (Some rd);
      Ok (Some m)
  | None => Ok None
  end.

(** ** Floating-point numbers *)

(** A Python [float] is an IEEE 754 double.  A float is represented here
    by the rational number it denotes, and an operation on floats by the
    exact operation followed by the rounding to the nearest double, ties to
    the even significand.  The exponent range is not bounded; no length of
    a sequence reaches the bounds of the doubles. *)

(** [a / b] rounded to the nearest integer, ties to the even one, for
    [b > 0]. *)
Definition round_half_even (a b : Z) : Z :=
  let q := a / b in
  let r := a mod b in
  if 2 * r <? b then q
  else if b <? 2 * r then q + 1
  else if Z.even q then q else q + 1.

(** The fraction [(a, b)] with [a / b = (n / d) * 2 ^ k]. *)
Definition scaled (n d k : Z) : Z * Z :=
  if 0 <=? k then (n * 2 ^ k, d) else (n, d * 2 ^ (- k)).

(** The integer [e] with [2 ^ e <= n / d < 2 ^ (e + 1)], for positive [n]
    and [d]. *)
Definition floor_log2 (n d : Z) : Z :=
  let e0 := Z.log2 n - Z.log2 d in
  let '(a, b) := scaled n d (- e0) in
  if b <=? a then e0 else e0 - 1.

(** The double nearest to [n / d], for positive [n] and [d]: the
    significand [n / d / 2 ^ (e - 52)] lies between [2 ^ 52] and [2 ^ 53]
    and is rounded to an integer. *)
Definition binary64_of_fraction (n d : Z) : Q :=
  let e := floor_log2 n d in
  let '(a, b) := scaled n d (52 - e) in
  let m := round_half_even a b in
  if 0 <=? 52 - e then Qmake m (Z.to_pos (2 ^ (52 - e)))
  else inject_Z (m * 2 ^ (e - 52)).

Definition binary64 (x : Q) : Q :=
  match Qnum x with
  | Z0 => 0
  | Zpos n => binary64_of_fraction (Zpos n) (Zpos (Qden x))
  | Zneg n => - binary64_of_fraction (Zpos n) (Zpos (Qden x))
  end.

(** [float(x)] for a decimal literal or an [int] [x], the product [x * y]
    of two floats, and [math.ceil]. *)
Definition py_float (x : Q) : Q := binary64 x.

Definition py_float_mul (x y : Q) : Q := binary64 (x * y).

Definition math_ceil (x : Q) : Z := Qceiling x.

(** The same product with the primitive floats of Rocq, which are IEEE
    doubles: the rational number a primitive float denotes, the primitive
    float of a natural number below [2 ^ 53], and the product of two
    numbers converted in this way ([q] is given by numerator and
    denominator, divided as floats). *)
Definition Q_of_spec_float (f : spec_float) : Q :=
  match f with
  | S754_finite s m e =>
      let v := if 0 <=? e then inject_Z (Zpos m * 2 ^ e)
               else Qmake (Zpos m) (Z.to_pos (2 ^ (- e))) in
      if s then - v else v
  | _ => 0
  end.

Definition prim_of_Z (n : Z) : float := PrimFloat.of_uint63 (Uint63.of_Z n).

Definition prim_product (n : Z) (q : Q) : Q :=
  Q_of_spec_float
    (Prim2SF (PrimFloat.mul (prim_of_Z n)
                (PrimFloat.div (prim_of_Z (Qnum q))
                               (prim_of_Z (Zpos (Qden q)))))).

(** The lengths 1 to 30 and the fractions 0.01 to 0.99. *)
Definition float_grid : list (Z * Q) :=
  flat_map (fun n => map (fun k => (Z.of_nat n, Qmake (Z.of_nat k) 100))
                         (seq 1 99))
           (seq 1 30).

(** ** [InsertAligner] *)

Definition Qlt_bool (x y : Q) : bool := negb (Qle_bool y x).
Definition Qgt_bool (x y : Q) : bool := Qlt_bool y x.

Record InsertAligner : Type := {
  adapter1 : pyseq;
  adapter1_len : Z;
  adapter2 : pyseq;
  adapter2_len : Z;
  match_probability : Z -> Z -> Q;
  insert_max_rmp : Q;
  adapter_max_rmp : Q;
  min_insert_overlap : Z;
  max_insert_mismatch_frac : Q;
  min_adapter_overlap : Z;
  min_adapter_match_frac : Q;
  max_adapter_mismatch_frac : Q;
  adapter_check_cutoff : Z }.

(** [InsertAligner.__init__]. *)
Definition InsertAligner_init (adapter1 adapter2 : pyseq)
    (match_probability : Z -> Z -> Q) (insert_max_rmp adapter_max_rmp : Q)
    (min_insert_overlap : Z) (max_insert_mismatch_frac : Q)
    (min_adapter_overlap : Z) (min_adapter_match_frac : Q)
    (adapter_check_cutoff : Z) : InsertAligner :=
  {| adapter1 := adapter1;
     adapter1_len := py_len adapter1;
     adapter2 := adapter2;
     adapter2_len := py_len adapter2;
     match_probability := match_probability;
     insert_max_rmp := insert_max_rmp;
     adapter_max_rmp := adapter_max_rmp;
     min_insert_overlap := min_insert_overlap;
     max_insert_mismatch_frac := max_insert_mismatch_frac;
     min_adapter_overlap := min_adapter_overlap;
     min_adapter_match_frac := min_adapter_match_frac;
     max_adapter_mismatch_frac := 1 - min_adapter_match_frac;
     adapter_check_cutoff := adapter_check_cutoff |}.

(** The constructor called with its default keyword arguments. *)
Definition InsertAligner_default (adapter1 adapter2 : pyseq)
    (match_probability : Z -> Z -> Q) : InsertAligner :=
  InsertAligner_init adapter1 adapter2 match_probability
    (1 # 1000000) (1 # 1000) 1 (2 # 10) 1 (8 # 10) 9.

(** The list [result] of [match_insert]:
    [[insert_match, insert_size, adapter1_match, adapter2_match]]. *)
Record InsertResult : Type := R4 {
  insert_match : option tuple6;
  insert_size : Z;
  adapter1_match : option Match;
  adapter2_match : option Match }.

Definition insert_is_random_match (self : InsertAligner) (matches size : Z) : bool :=
  Qgt_bool (match_probability self matches size) (insert_max_rmp self).

Definition adapter_match_probabilities (self : InsertAligner)
    (a1_matches a2_matches size : Z) : Q * Q * bool :=
  let a1_prob := match_probability self a1_matches size in
  let a2_prob := match_probability self a2_matches size in
  let is_random_match := Qgt_bool (a1_prob * a2_prob) (adapter_max_rmp self) in
  (a1_prob, a2_prob, is_random_match).

(** Lines 197-203 of [match_insert]: the lengths and the truncation. *)
Definition truncate_inputs (seq1 seq2 : pyseq) : pyseq * pyseq :=
  let l1 := py_len seq1 in
  let l2 := py_len seq2 in
  if l1 >? l2 then (py_slice_to seq1 l2, seq2)
  else if l2 >? l1 then (seq1, py_slice_to seq1 l1)
  else (seq1, seq2).

(** Lines 208-214: the aligner built for the insert overlap. *)
Definition insert_overlap_aligner (self : InsertAligner) (seq2_rc : pyseq)
  : Aligner :=
  {| reference := seq2_rc;
     max_error_rate := max_insert_mismatch_frac self;
     flags := Z.lor START_WITHIN_SEQ1 STOP_WITHIN_SEQ2;
     wildcard_ref := false;
     wildcard_query := false;
     min_overlap := min_insert_overlap self;
     indel_cost := 100000 |}.

Section MatchInsert.
Context `{AlignExt}.

(** Lines 256-260: the two [Match] objects and the returned list. *)
Definition emit_adapter_matches (self : InsertAligner) (l1 l2 : Z)
    (im : tuple6) (insert_match_size : Z) (a1_match a2_match : tuple6)
    (a1_prob a2_prob : Q) : result InsertResult :=
  let adapter_len1 := Z.min (adapter1_len self) (l1 - insert_match_size) in
  let adapter_len2 := Z.min (adapter2_len self) (l2 - insert_match_size) in
  let best := if Qlt_bool a1_prob a2_prob then a1_match else a2_match in
  let best_adapter_matches := item4 best in
  let best_adapter_mismatches := item5 best in
  m1 ← Match_init 0 adapter_len1 insert_match_size l1
         best_adapter_matches best_adapter_mismatches None None None;
  m2 ← Match_init 0 adapter_len2 insert_match_size l2
         best_adapter_matches best_adapter_mismatches None None None;
  Ok (R4 (Some im) insert_match_size (Some m1) (Some m2)).

(** Lines 227-260: the body of [if insert_match:]; [seq1] and [seq2] are the
    sequences after the truncation, [l1] and [l2] the original lengths.
    [min_adapter_matches] is [math.ceil] of a product of floats: of
    [adapter_len] converted to a float, and of the float that [__init__]
    made of [min_adapter_match_frac] (line 182), taken here from the number
    the field holds. *)
Definition after_insert_match (self : InsertAligner) (l1 l2 seq_len : Z)
    (seq1 seq2 : pyseq) (im : tuple6) : result InsertResult :=
  let offset := Z.min (item0 im) (seq_len - item3 im) in
  let insert_match_size := seq_len - offset in
  if insert_is_random_match self (item4 im) insert_match_size
  then Ok (R4 None 0 None None)
  else
    let result := R4 (Some im) insert_match_size None None in
    if offset <? min_adapter_overlap self then Ok result
    else
      let a1_match :=
        compare_prefixes (py_slice_from seq1 insert_match_size)
                         (adapter1 self) false false in
      let a2_match :=
        compare_prefixes (py_slice_from seq2 insert_match_size)
                         (adapter2 self) false false in
      let adapter_len :=
        Z.min offset (Z.min (adapter1_len self) (adapter2_len self)) in
      let min_adapter_matches :=
        math_ceil (py_float_mul (py_float (inject_Z adapter_len))
                                (py_float (min_adapter_match_frac self))) in
      if (item4 a1_match <? min_adapter_matches)
         && (item4 a2_match <? min_adapter_matches)
      then Ok result
      else
        let '(a1_prob, a2_prob, adapter_is_random_match) :=
          adapter_match_probabilities self (item4 a1_match) (item4 a2_match)
                                      adapter_len in
        if (adapter_len >? adapter_check_cutoff self) && adapter_is_random_match
        then Ok result
        else emit_adapter_matches self l1 l2 im insert_match_size
                                  a1_match a2_match a1_prob a2_prob.

(** Lines 205-262: everything after the truncation. *)
Definition align_truncated (self : InsertAligner) (l1 l2 seq_len : Z)
    (seq1 seq2 : pyseq) : result InsertResult :=
  let seq2_rc := reverse_complement seq2 in
  let aligner := insert_overlap_aligner self seq2_rc in
  match locate aligner seq1 with
  | Some im => after_insert_match self l1 l2 seq_len seq1 seq2 im
  | None => Ok (R4 None 0 None None)
  end.

(** [InsertAligner.match_insert]. *)
Definition match_insert (self : InsertAligner) (seq1 seq2 : pyseq)
  : result InsertResult :=
  let l1 := py_len seq1 in
  let l2 := py_len seq2 in
  let seq_len := Z.min l1 l2 in
  let '(seq1, seq2) := truncate_inputs seq1 seq2 in
  align_truncated self l1 l2 seq_len seq1 seq2.

(** The truncation in the words of the specification: the longer of the
    two sequences is cut to the length of the shorter one. *)
Definition truncate_inputs_spec (seq1 seq2 : pyseq) : pyseq * pyseq :=
  let l1 := py_len seq1 in
  let l2 := py_len seq2 in
  if l1 >? l2 then (py_slice_to seq1 l2, seq2)
  else if l2 >? l1 then (seq1, py_slice_to seq2 l1)
  else (seq1, seq2).

(** [match_insert] with the truncation of the specification. *)
Definition match_insert_spec (self : InsertAligner) (seq1 seq2 : pyseq)
  : result InsertResult :=
  let l1 := py_len seq1 in
  let l2 := py_len seq2 in
  let seq_len := Z.min l1 l2 in
  let '(seq1, seq2) := truncate_inputs_spec seq1 seq2 in
  align_truncated self l1 l2 seq_len seq1 seq2.

End MatchInsert.

(** Binomial coefficients. *)
Fixpoint factorial (n : nat) : Z :=
  match n with
  | O => 1
  | S k => Z.of_nat n * factorial k
  end.

Definition choose (n k : nat) : Z :=
  factorial n / (factorial k * factorial (n - k)).

(** Modelled from the spec: [RandomMatchProbability] of [atropos.util],
    absent from the sources.  The probability that a uniformly random
    sequence of length [n] agrees with a fixed one in at least [m]
    positions: the upper tail of a binomial distribution with
    success probability 1/4. *)
Definition RandomMatchProbability (m n : Z) : Q :=
  let n' := Z.to_nat n in
  let ks := List.filter (fun k => m <=? Z.of_nat k) (seq 0 (S n')) in
  let num := fold_right (fun k acc => choose n' k * 3 ^ Z.of_nat (n' - k) + acc) 0 ks in
  Qmake num (Z.to_pos (4 ^ Z.of_nat n')).

(** ** The order-preserving writer of [commands/trim.py] *)

Module Pending.

(** Modelled from the spec: [PendingQueue] of [atropos.multicore], absent
    from the sources: a min-priority queue keyed by batch number.  The
    entries are kept in increasing order of priority. *)
Definition PendingQueue (R : Type) : Type := list (Z * R).

(** Modelled from the spec: the operations of the absent [PendingQueue]
    that the handler uses: the constructor, [push(priority, value)], the
    properties [empty] and [min_priority], and [pop()], which removes and
    returns the value of least priority. *)
Definition new {R : Type} : PendingQueue R := [].

Fixpoint push {R : Type} (q : PendingQueue R) (priority : Z) (value : R)
  : PendingQueue R :=
  match q with
  | [] => [(priority, value)]
  | (p, v) :: q' =>
      if priority <? p then (priority, value) :: q
      else (p, v) :: push q' priority value
  end.

Definition empty {R : Type} (q : PendingQueue R) : bool :=
  match q with [] => true | _ => false end.

Definition min_priority {R : Type} (q : PendingQueue R) : option Z :=
  match q with [] => None | (p, _) :: _ => Some p end.

Definition pop {R : Type} (q : PendingQueue R) : option (R * PendingQueue R) :=
  match q with [] => None | (_, v) :: q' => Some (v, q') end.

End Pending.

Section WriterHandlers.
Variable R : Type.

(** The object that [self.writers] refers to. *)
Inductive sink : Type :=
| WritersObject
| WorkerObject (index : Z).

(** One call [target.write_result(result, compressed)]. *)
Record write_call : Type := {
  wc_target : sink;
  wc_result : R;
  wc_compressed : bool }.

(** An [OrderPreservingWriterResultHandler] and the calls made so far. *)
Record Handler : Type := {
  writers : sink;
  compressed : bool;
  use_suffix : bool;
  pending : Pending.PendingQueue R;
  cur_batch : Z;
  written : list write_call }.

(** [WriterResultHandler.__init__]. *)
Definition WriterResultHandler_init (self : Handler) (writers : sink)
    (compressed use_suffix : bool) : Handler :=
  {| writers := writers; compressed := compressed; use_suffix := use_suffix;
     pending := pending self; cur_batch := cur_batch self;
     written := written self |}.

(** [self.writers.write_result(result, self.compressed)]. *)
Definition call_write_result (self : Handler) (result_map : R) : Handler :=
  {| writers := writers self; compressed := compressed self;
     use_suffix := use_suffix self; pending := pending self;
     cur_batch := cur_batch self;
     written := written self
                ++ [{| wc_target := writers self; wc_result := result_map;
                       wc_compressed := compressed self |}] |}.

Definition set_cur_batch (self : Handler) (n : Z) : Handler :=
  {| writers := writers self; compressed := compressed self;
     use_suffix := use_suffix self; pending := pending self;
     cur_batch := n; written := written self |}.

Definition set_pending (self : Handler) (q : Pending.PendingQueue R) : Handler :=
  {| writers := writers self; compressed := compressed self;
     use_suffix := use_suffix self; pending := q;
     cur_batch := cur_batch self; written := written self |}.

(** [OrderPreservingWriterResultHandler.start]: it calls
    [super().__init__(worker)], which rebinds [self.writers] to the worker
    and resets [compressed] and [use_suffix] to their defaults. *)
Definition start (self : Handler) (worker_index : Z) : Handler :=
  let self := WriterResultHandler_init self (WorkerObject worker_index) false false in
  let self := set_pending self Pending.new in
  set_cur_batch self 1.

(** [consume_pending] as written.  The loop condition reads
    [self.pending.empty] and then the bare name [pending], which no
    assignment of the module binds: as soon as the instance's queue is not
    empty the lookup raises [NameError], before any write. *)
Definition consume_pending (self : Handler) : result unit * Handler :=
  if negb (Pending.empty (pending self))
  then (Raise (NameError "pending"), self)
  else (Ok tt, self).

(** [write_result]. *)
Definition write_result (self : Handler) (batch_num : Z) (result_map : R)
  : result unit * Handler :=
  if batch_num =? cur_batch self then
    let self := call_write_result self result_map in
    let self := set_cur_batch self (cur_batch self + 1) in
    consume_pending self
  else
    (Ok tt, set_pending self (Pending.push (pending self) batch_num result_map)).

(** The loop the specification asks for, on the instance's own queue:
    while the queue is not empty and its least batch number is the expected
    one, write that entry and expect the next.  [fuel] bounds the number of
    iterations; the length of the queue is enough. *)
Fixpoint consume_pending_spec (fuel : nat) (self : Handler) : Handler :=
  match fuel with
  | O => self
  | S fuel' =>
      match pending self with
      | (p, v) :: q' =>
          if cur_batch self =? p then
            let self := set_pending self q' in
            let self := call_write_result self v in
            let self := set_cur_batch self (cur_batch self + 1) in
            consume_pending_spec fuel' self
          else self
      | [] => self
      end
  end.

Definition write_result_spec (self : Handler) (batch_num : Z) (result_map : R)
  : Handler :=
  if batch_num =? cur_batch self then
    let self := call_write_result self result_map in
    let self := set_cur_batch self (cur_batch self + 1) in
    consume_pending_spec (List.length (pending self)) self
  else set_pending self (Pending.push (pending self) batch_num result_map).

End WriterHandlers.

(** ** [run_parallel] *)

(** The resources [run_parallel] creates, in the order it creates them. *)
Inductive event : Type :=
| LogDebug (threads timeout : Z)
| NewQueue (maxsize : Z)
| NewSummary
| NewControl
| StartWriterProcess (order_preserving compressed : bool)
| LaunchWorkers (count offset : Z).

Definition creates_resource (e : event) : bool :=
  match e with
  | LogDebug _ _ | NewSummary => false
  | _ => true
  end.

(** What the set-up leaves for [_run]. *)
Record Setup : Type := {
  su_threads : Z;
  su_timeout : Z;
  su_compression : string;
  su_use_writer_process : bool }.

Section RunParallel.
(** [RETRY_INTERVAL] of [atropos.multicore] and the answer of
    [can_use_system_compression()], both outside the sources. *)
Variable RETRY_INTERVAL : Z.
Variable can_use_system_compression : bool.

(** [run_parallel] down to the launch of the first workers (lines 591-639). *)
Definition run_parallel_setup (threads timeout : Z) (preserve_order : bool)
    (input_queue_size result_queue_size : Z) (use_writer_process : bool)
    (compression : option string) : result Setup * list event :=
  let ev := [LogDebug threads timeout] in
  if threads <? 2 then (Raise (ValueError "'threads' must be >= 2"), ev)
  else
    let compression :=
      match compression with
      | None => if use_writer_process && can_use_system_compression
                then "writer"%string else "worker"%string
      | Some c => c
      end in
    let threads :=
      if String.eqb compression "writer" && (threads >? 2)
      then threads - 1 else threads in
    let timeout := Z.max timeout RETRY_INTERVAL in
    let ev := ev ++ [NewQueue input_queue_size; NewQueue result_queue_size;
                     NewQueue threads; NewSummary] in
    let ev :=
      if use_writer_process
      then ev ++ [NewControl;
                  StartWriterProcess preserve_order
                                     (String.eqb compression "worker")]
      else ev in
    let ev := ev ++ [LaunchWorkers (threads - 1) 0] in
    (Ok {| su_threads := threads; su_timeout := timeout;
           su_compression := compression;
           su_use_writer_process := use_writer_process |}, ev).

End RunParallel.

Section RunTail.
(** The statistics carried by a worker summary are opaque here. *)
Variables PS AS : Type.

(** A summary as sent by [TrimWorkerProcess._get_summary]:
    [(index, seen_batches, process_stats, adapter_stats)]. *)
Record worker_summary : Type := {
  ws_index : Z;
  ws_batches : gset Z;
  ws_process_stats : option PS;
  ws_adapter_stats : option AS }.

(** The loop over the dequeued summaries (lines 694-706); the state is
    [(seen_summaries, seen_batches)]. *)
Fixpoint collect_summaries (batches : list worker_summary)
    (seen_summaries seen_batches : gset Z) : result (gset Z * gset Z) :=
  match batches with
  | [] => Ok (seen_summaries, seen_batches)
  | batch :: more =>
      match ws_process_stats batch, ws_adapter_stats batch with
      | Some _, Some _ =>
          collect_summaries more ({[ws_index batch]} ∪ seen_summaries)
                            (seen_batches ∪ ws_batches batch)
      | _, _ => Raise (WorkerDied (ws_index batch))
      end
  end.

(** [set(range(lo, hi))]. *)
Definition range_set (lo hi : Z) : gset Z :=
  list_to_set (map (fun k => lo + k) (py_range (hi - lo))).

(** The check for missed batches (lines 708-713). *)
Definition check_batches (num_batches : Z) (seen_batches : gset Z) : result unit :=
  if num_batches >? 0 then
    let missing_batches := range_set 1 (num_batches + 1) ∖ seen_batches in
    if Z.of_nat (size missing_batches) >? 0
    then Raise (MissingBatches missing_batches)
    else Ok tt
  else Ok tt.

(** The end of [_run]: collect every summary, then check the batches. *)
Definition finish_run (num_batches : Z) (batches : list worker_summary)
  : result unit :=
  '(_, seen_batches) ← collect_summaries batches ∅ ∅;
  check_batches num_batches seen_batches.

End RunTail.

(** ** Predicates of the statements *)

(** The fields [__init__] derives from its arguments. *)
Definition constructed (self : InsertAligner) : Prop :=
  adapter1_len self = py_len (adapter1 self)
  /\ adapter2_len self = py_len (adapter2 self).

(** The positions returned by an aligner lie inside its sequences. *)
Definition locate_in_bounds (ext : AlignExt) : Prop :=
  forall (a : Aligner) (q : pyseq) (t : tuple6),
    @locate ext a q = Some t ->
    0 <= item0 t <= item1 t /\ item1 t <= py_len (reference a)
    /\ 0 <= item2 t <= item3 t /\ item3 t <= py_len q.

(** [Q s x0], [Q (s + 1) x1], ... for the elements of a list. *)
Fixpoint ForallFrom {A : Type} (Q : Z -> A -> Prop) (s : Z) (l : list A) : Prop :=
  match l with
  | [] => True
  | x :: r => Q s x /\ ForallFrom Q (s + 1) r
  end.

(** A cell after [i] reference and [j] query characters starts at or before
    that point. *)
Definition cell_in_bounds (i j : Z) (k : SpecExt.cell) : Prop :=
  0 <= SpecExt.c_refstart k <= i /\ 0 <= SpecExt.c_querystart k <= j.

(** Match validity as the specification states it, for a match of an
    adapter with sequence [adapter_seq] and error rate [rate] in a read
    [read_seq]. *)
Definition match_valid (m : Match) (adapter_seq : pyseq) (rate : Q)
    (read_seq : pyseq) : Prop :=
  0 < length m
  /\ (inject_Z (errors m) <= inject_Z (length m) * rate)%Q
  /\ 0 <= astart m /\ astart m < astop m <= py_len adapter_seq
  /\ 0 <= rstart m /\ rstart m <= rstop m <= py_len read_seq.

(** What holds of a match returned by [match_insert]: no adapter object is
    attached, the adapter is matched from its first base, the match ends at
    the end of the read, and there are fewer errors than aligned bases. *)
Definition insert_match_valid (m : Match) (adapter_seq read_seq : pyseq) : Prop :=
  adapter m = None
  /\ astart m = 0 /\ 0 < astop m <= py_len adapter_seq
  /\ length m = astop m - astart m
  /\ errors m < length m
  /\ 0 <= rstart m <= rstop m /\ rstop m = py_len read_seq.

(** The results [vs] queued under the consecutive batch numbers [c],
    [c + 1], ... *)
Fixpoint numbered {R : Type} (c : Z) (vs : list R) : Pending.PendingQueue R :=
  match vs with
  | [] => []
  | v :: r => (c, v) :: numbered (c + 1) r
  end.

(** The state after [self.writers.write_result] was called on each of
    [vs] in turn. *)
Definition write_all {R : Type} (self : Handler R) (vs : list R) : Handler R :=
  fold_left (call_write_result R) vs self.

(** A summary of a worker that finished normally. *)
Definition alive {PS AS : Type} (w : worker_summary PS AS) : Prop :=
  is_Some (ws_process_stats PS AS w) /\ is_Some (ws_adapter_stats PS AS w).

(** Batch [b] is in the [seen_batches] of one of the workers. *)
Definition covered {PS AS : Type} (batches : list (worker_summary PS AS)) (b : Z)
  : Prop :=
  exists w, In w batches /\ b ∈ ws_batches PS AS w.

(** ** Concrete inputs *)

(** Scenarios 1 and 2 of the specification: the adapter [AGATCGGAAGA] at
    the end of a read, exactly and with one mismatch. *)
Definition scenario1_adapter : Adapter :=
  {| adapter_name := "a"; adapter_sequence := b "AGATCGGAAGA";
     adapter_max_error_rate := 1 # 10 |}.

Definition scenario1_read : Read :=
  {| read_name := "r"; read_sequence := b "ACGTACGTAAAAGATCGGAAGA";
     read_qualities := None |}.

Definition scenario1_match : Match :=
  {| astart := 0; astop := 11; rstart := 11; rstop := 22; matches := 11;
     errors := 0; front := false; adapter := Some scenario1_adapter;
     read := Some scenario1_read; length := 11 |}.

Definition scenario2_read : Read :=
  {| read_name := "r"; read_sequence := b "ACGTAAAGATCGXAAGA";
     read_qualities := None |}.

(** Scenario 3 of the specification: adapter [ATNGNA] on the read segment
    [ATCGTA]. *)
Definition scenario3_adapter : Adapter :=
  {| adapter_name := "a"; adapter_sequence := b "ATNGNA";
     adapter_max_error_rate := 1 # 10 |}.

Definition scenario3_read : Read :=
  {| read_name := "r"; read_sequence := b "ATCGTA"; read_qualities := None |}.

Definition scenario3_match : Match :=
  {| astart := 0; astop := 6; rstart := 0; rstop := 6; matches := 6;
     errors := 0; front := true; adapter := Some scenario3_adapter;
     read := Some scenario3_read; length := 6 |}.

(** Scenario 4 of the specification: an insert of 16 bases and nine bases
    of the adapter on either read. *)
Definition scenario4_aligner : InsertAligner :=
  InsertAligner_default (b "AGATCGGAAGA") (b "AGATCGGAAGA")
                        RandomMatchProbability.

Definition scenario4_seq1 : pyseq := b "AAAATTTTCCCCGGGG" ++ b "AGATCGGAA".
Definition scenario4_seq2 : pyseq :=
  SpecExt.reverse_complement (b "AAAATTTTCCCCGGGG") ++ b "AGATCGGAA".

(** Paired-end reads with an insert of 20 bases, read through into the
    adapter [AGATCGGAAGAGC] on both sides, and an aligner with the default
    settings. *)
Definition insert20 : pyseq := b "ACGGTCATTGCAAGTCCATG".

Definition paired_aligner : InsertAligner :=
  InsertAligner_default (b "AGATCGGAAGAGC") (b "AGATCGGAAGAGC")
                        RandomMatchProbability.

(** An adapter object with the sequence given to [paired_aligner] and a
    maximum error rate of 0.1. *)
Definition truseq_adapter : Adapter :=
  {| adapter_name := "truseq"; adapter_sequence := b "AGATCGGAAGAGC";
     adapter_max_error_rate := 1 # 10 |}.

(** Read 2 one base longer than read 1 (30 and 29 bases). *)
Definition longer2_seq1 : pyseq := insert20 ++ b "AGATCGGAA".
Definition longer2_seq2 : pyseq :=
  SpecExt.reverse_complement insert20 ++ b "AGATCGGAAG".

(** Reads of 33 bases whose adapter parts each differ from the adapter in
    two of thirteen positions, and the match [match_insert] returns for
    either of them. *)
Definition noisy_seq1 : pyseq := insert20 ++ b "AGATCGGTTGAGC".
Definition noisy_seq2 : pyseq :=
  SpecExt.reverse_complement insert20 ++ b "AGATCGGTTGAGC".

Definition noisy_match : Match :=
  {| astart := 0; astop := 13; rstart := 20; rstop := 33; matches := 11;
     errors := 2; front := false; adapter := None; read := None;
     length := 13 |}.



(** Adapters of different lengths (13 and 3) with the default settings, and
    reads whose adapter parts agree with them in 3 of 10 and in 2 of 3
    positions. *)
Definition uneven_aligner : InsertAligner :=
  InsertAligner_default (b "AGATCGGAAGAGC") (b "AGA") RandomMatchProbability.

Definition uneven_seq1 : pyseq := insert20 ++ b "AGACTTTTTT".
Definition uneven_seq2 : pyseq :=
  SpecExt.reverse_complement insert20 ++ b "AGCTTTTTTT".

(** A handler as [run_parallel] constructs it, before [start]; the
    attributes [pending] and [cur_batch] only exist after [start]. *)
Definition new_handler : Handler string :=
  {| writers := WritersObject; compressed := false; use_suffix := false;
     pending := []; cur_batch := 0; written := [] |}.

(** Two workers that share the batches 1 to 3, and two that miss batch 2. *)
Definition complete_summaries : list (worker_summary unit unit) :=
  [ {| ws_index := 0; ws_batches := {[1; 3]};
       ws_process_stats := Some tt; ws_adapter_stats := Some tt |};
    {| ws_index := 1; ws_batches := {[2]};
       ws_process_stats := Some tt; ws_adapter_stats := Some tt |} ].

Definition incomplete_summaries : list (worker_summary unit unit) :=
  [ {| ws_index := 0; ws_batches := {[1]};
       ws_process_stats := Some tt; ws_adapter_stats := Some tt |};
    {| ws_index := 1; ws_batches := {[3]};
       ws_process_stats := Some tt; ws_adapter_stats := Some tt |} ].

(** ** The other methods of [Match] *)

(** [Match.copy]: the constructor again, on the fields of the object. *)
Definition Match_copy (self : Match) : result Match :=
  Match_init (astart self) (astop self) (rstart self) (rstop self)
             (matches self) (errors self) (Some (front self))
             (adapter self) (read self).

(** The named tuple [MatchInfo]. *)
Record MatchInfo : Type := {
  mi_read_name : string;
  mi_errors : Z;
  mi_rstart : Z;
  mi_rstop : Z;
  mi_seq_before : pyseq;
  mi_seq_adapter : pyseq;
  mi_seq_after : pyseq;
  mi_adapter_name : string;
  mi_qual_before : pyseq;
  mi_qual_adapter : pyseq;
  mi_qual_after : pyseq;
  mi_is_front : bool;
  mi_asize : Z;
  mi_rsize_adapter : Z;
  mi_rsize_total : Z }.

(** [Match.get_info_record]. *)
Definition get_info_record (self : Match) : result MatchInfo :=
  rd ← attr (read self);
  let seq := read_sequence rd in
  let qualities :=
    match read_qualities rd with None => [] | Some q => q end in
  let rsize := rstop self - rstart self in
  let rsize_total :=
    if front self && (rstart self >? 0) then rstop self
    else if negb (front self) && (rstop self <? py_len seq)
         then py_len seq - rstart self
         else rsize in
  ad ← attr (adapter self);
  Ok {| mi_read_name := read_name rd;
        mi_errors := errors self;
        mi_rstart := rstart self;
        mi_rstop := rstop self;
        mi_seq_before := py_slice seq 0 (rstart self);
        mi_seq_adapter := py_slice seq (rstart self) (rstop self);
        mi_seq_after := py_slice_from seq (rstop self);
        mi_adapter_name := adapter_name ad;
        mi_qual_before := py_slice qualities 0 (rstart self);
        mi_qual_adapter := py_slice qualities (rstart self) (rstop self);
        mi_qual_after := py_slice_from qualities (rstop self);
        mi_is_front := front self;
        mi_asize := astop self - astart self;
        mi_rsize_adapter := rsize;
        mi_rsize_total := rsize_total |}.

(** A read of six bases with qualities, an adapter, and a back match on the
    last three bases. *)
Definition info_read : Read :=
  {| read_name := "r1"; read_sequence := b "ACGTAG";
     read_qualities := Some (b "IIHHGG") |}.

Definition info_adapter : Adapter :=
  {| adapter_name := "a1"; adapter_sequence := b "TAGC";
     adapter_max_error_rate := 1 # 10 |}.

Definition info_match : Match :=
  {| astart := 0; astop := 3; rstart := 3; rstop := 6; matches := 3;
     errors := 0; front := false; adapter := Some info_adapter;
     read := Some info_read; length := 3 |}.

(** The default settings with a minimum adapter overlap of 5, and a pair of
    reads of four bases. *)
Definition cautious_aligner : InsertAligner :=
  InsertAligner_init (b "AGATCGGAAGAGC") (b "AGATCGGAAGAGC")
    RandomMatchProbability (1 # 1000000) (1 # 1000) 1 (2 # 10) 5 (8 # 10) 9.

Definition short_seq1 : pyseq := b "ACGT".
Definition short_seq2 : pyseq := b "ACGT".

(** ** Deliveries to the order-preserving writer, and its [finish] *)

(** The calls [write_result(batch_num, result)] for a sequence of
    arrivals, made in turn on one handler up to the first call that
    raises. *)
Fixpoint write_results {R : Type} (self : Handler R) (arrivals : list (Z * R))
  : result unit * Handler R :=
  match arrivals with
  | [] => (Ok tt, self)
  | (batch_num, result_map) :: more =>
      match write_result R self batch_num result_map with
      | (Ok _, self) => write_results self more
      | (Raise e, self) => (Raise e, self)
      end
  end.

(** How a call of [OrderPreservingWriterResultHandler.finish] ends:
    [self.writers.close()] was reached, the [Exception] of the batch count
    was raised, or [consume_pending] raised. *)
Inductive finish_outcome : Type :=
| WritersClosed
| NotSeenAll (total_batches : Z)
| FinishRaised (e : exn).

(** [OrderPreservingWriterResultHandler.finish]. *)
Definition finish {R : Type} (self : Handler R) (total_batches : option Z)
  : finish_outcome * Handler R :=
  match total_batches with
  | Some t =>
      match consume_pending R self with
      | (Raise e, self) => (FinishRaised e, self)
      | (Ok _, self) =>
          if negb (cur_batch R self =? t) then (NotSeenAll t, self)
          else (WritersClosed, self)
      end
  | None => (WritersClosed, self)
  end.

(** One call [self.writers.write_result(result, self.compressed)] made
    after [start(worker)]. *)
Definition worker_write {R : Type} (worker_index : Z) (v : R) : write_call R :=
  {| wc_target := WorkerObject worker_index; wc_result := v;
     wc_compressed := false |}.

(** [TrimWorkerProcess._get_summary]; [process_stats] and [adapter_stats]
    stand for the values of [collect_process_statistics(...)] and of
    [self.pipeline.summarize_adapters()]. *)
Definition get_summary {PS AS : Type} (index : Z) (seen_batches : gset Z)
    (process_stats : PS) (adapter_stats : AS) (error : bool)
  : worker_summary PS AS :=
  if error
  then {| ws_index := index; ws_batches := seen_batches;
          ws_process_stats := None; ws_adapter_stats := None |}
  else {| ws_index := index; ws_batches := seen_batches;
          ws_process_stats := Some process_stats;
          ws_adapter_stats := Some adapter_stats |}.

(** A worker that failed between two workers that finished. *)
Definition failed_summaries : list (worker_summary unit unit) :=
  [ get_summary 0 {[1]} tt tt false;
    get_summary 1 {[2]} tt tt true;
    get_summary 2 {[3]} tt tt false ].

(** * [paper/scripts/summarize_simulated_trimming_accuracy.py] *)

Module Accuracy.

(** What the script raises: built-in exceptions, the [Exception] of line
    103, and the [RuntimeError] that ends a generator in whose body a
    [next(i)] on the exhausted iterator raised [StopIteration]. *)
Inductive failure : Type :=
| Builtin (e : exn)
| NoAlignment (read_id : pyseq)
| RuntimeError.

(** [x == y] on strings. *)
Fixpoint pyseq_eqb (x y : pyseq) : bool :=
  match x, y with
  | [], [] => true
  | c :: x', d :: y' => Ascii.eqb c d && pyseq_eqb x' y'
  | _, _ => false
  end.

(** [str.isspace] on the characters below 256, and [s.rstrip()]. *)
Definition is_space (c : ascii) : bool :=
  let n := nat_of_ascii c in
  ((9 <=? n) && (n <=? 13) || (28 <=? n) && (n <=? 32)
   || (n =? 133) || (n =? 160))%nat.

Fixpoint rstrip (s : pyseq) : pyseq :=
  match s with
  | [] => []
  | c :: s' =>
      match rstrip s' with
      | [] => if is_space c then [] else [c]
      | t => c :: t
      end
  end.

(** [s.split(sep)] for a separator of one character. *)
Fixpoint split (sep : ascii) (s : pyseq) : list pyseq :=
  match s with
  | [] => [[]]
  | c :: s' =>
      if Ascii.eqb c sep then [] :: split sep s'
      else match split sep s' with
           | f :: fs => (c :: f) :: fs
           | [] => [[c]]
           end
  end.

(** [s.endswith(suffix)]. *)
Definition endswith (s suffix : pyseq) : bool :=
  (py_len suffix <=? py_len s)
  && pyseq_eqb (py_slice_from s (py_len s - py_len suffix)) suffix.

(** The tuples the two iterators yield. *)
Record Aln : Type := {
  aln_name : pyseq;
  aln_mate : ascii;
  aln_chrm : pyseq;
  aln_pos : pyseq;
  aln_strand : pyseq;
  aln_ref : pyseq;
  aln_actual : pyseq }.

Record Fq : Type := {
  fq_name : pyseq;
  fq_mate : ascii;
  fq_seq : pyseq }.

(** A generator run to its end: the values it yields, and the exception
    that ends it if one does. *)
Definition generated (A : Type) : Type := (list A * option failure)%type.

Definition yield {A : Type} (a : A) (g : generated A) : generated A :=
  (a :: fst g, snd g).

(** [fq_iterator]: the [zip] of four references to the one iterator takes
    the lines four at a time and stops at the first group that is not
    complete.  The parameter [mate]
    is overwritten before it is read. *)
Fixpoint fq_iterator (i : list pyseq) (mate : Z) : generated Fq :=
  match i with
  | l0 :: l1 :: _ :: _ :: more =>
      let name := py_slice_from (rstrip l0) 1 in
      match py_getitem name (-1) with
      | Raise e => ([], Some (Builtin e))
      | Ok mate' =>
          let name := py_slice_to name (-2) in
          yield {| fq_name := name; fq_mate := mate'; fq_seq := rstrip l1 |}
                (fq_iterator more mate)
      end
  | _ => ([], None)
  end.

(** The body of the loop of [aln_iterator] for a header line [line],
    with [rest] the lines after it: the record and the lines left, or the
    exception.  With fewer than two lines left, [next(i)] raises
    [StopIteration] inside the generator, which leaves it as a
    [RuntimeError]. *)
Definition aln_record (line : pyseq) (rest : list pyseq)
  : failure + (Aln * list pyseq) :=
  match py_getitem line 0 with
  | Raise e => inl (Builtin e)
  | Ok c0 =>
      if negb (Ascii.eqb c0 ">") then inl (Builtin AssertionError)
      else
        match split "009" (rstrip (py_slice_from line 1)) with
        | [chrm; name; pos; strand] =>
            let name := if endswith name (b "-1")
                        then py_slice_to name (-2) else name in
            match py_getitem name (-1) with
            | Raise e => inl (Builtin e)
            | Ok mate =>
                let name := py_slice_to name (-2) in
                match rest with
                | ref :: actual :: rest' =>
                    inr ({| aln_name := name; aln_mate := mate;
                            aln_chrm := chrm; aln_pos := pos;
                            aln_strand := strand; aln_ref := rstrip ref;
                            aln_actual := rstrip actual |}, rest')
                | _ => inl RuntimeError
                end
            end
        | _ => inl (Builtin (ValueError "unpack"))
        end
  end.

(** [aln_iterator]; [fuel] bounds the number of lines read, the number of
    lines is enough. *)
Fixpoint aln_iterator (fuel : nat) (i : list pyseq) : generated Aln :=
  match fuel, i with
  | S fuel', line :: rest =>
      match py_getitem line 0 with
      | Raise e => ([], Some (Builtin e))
      | Ok c0 =>
          if Ascii.eqb c0 "@" || Ascii.eqb c0 "#"
          then aln_iterator fuel' rest
          else match aln_record line rest with
               | inl e => ([], Some e)
               | inr (a, rest') => yield a (aln_iterator fuel' rest')
               end
      end
  | _, _ => ([], None)
  end.

(** The value of [i] in the scope of [summarize_accuracy]. *)
Inductive index01 : Type := I0 | I1.

Definition index_value (i : index01) : Z :=
  match i with I0 => 0 | I1 => 1 end.

Definition pair_at {A : Type} (p : A * A) (i : index01) : A :=
  match i with I0 => fst p | I1 => snd p end.

(** The tuple [adapter_info]. *)
Record AdapterInfo : Type := {
  has_adapter : Z;
  adapter_len : Z;
  edit_dist : Z;
  adapter_ins : Z;
  adapter_del : Z;
  polyA : Z }.

(** One round of the loop over [read_seq[ref_len:]] (lines 59-67); the
    state is [(adapter_seq, adapter_len, adapter_del, polyA)]. *)
Definition adapter_step (adapter_length : Z) (st : pyseq * Z * Z * Z)
    (base : ascii) : pyseq * Z * Z * Z :=
  let '(adapter_seq, adapter_len, adapter_del, polyA) := st in
  if (adapter_len >=? adapter_length) && Ascii.eqb base "A"
  then (adapter_seq, adapter_len, adapter_del, polyA + 1)
  else if Ascii.eqb base "-"
       then (adapter_seq, adapter_len, adapter_del + 1, polyA)
       else (adapter_seq ++ [base], adapter_len + 1, adapter_del, polyA).

Definition not_gap (base : ascii) : bool := negb (Ascii.eqb base "-").

Inductive status : Type :=
| OK | OVERTRIMMED | UNDERTRIMMED | MISMATCH | DISCARDED.

Record Counters : Type := {
  overtrimmed : Z;
  undertrimmed : Z;
  raw_trimmed_mismatch : Z }.

(** Lines 116-126: the status of a retained read with sequence [trimmed],
    and the counters after it. *)
Definition classify (cnt : Counters) (trimmed expected_read : pyseq)
  : status * Counters :=
  let expected_read_len := py_len expected_read in
  let trimmed_len := py_len trimmed in
  let common_len := Z.min trimmed_len expected_read_len in
  let '(st, over, under) :=
    if expected_read_len >? trimmed_len
    then (OVERTRIMMED,
          overtrimmed cnt + (expected_read_len - trimmed_len),
          undertrimmed cnt)
    else if expected_read_len <? trimmed_len
         then (UNDERTRIMMED, overtrimmed cnt,
               undertrimmed cnt + (trimmed_len - expected_read_len))
         else (OK, overtrimmed cnt, undertrimmed cnt) in
  if negb (pyseq_eqb (py_slice_to trimmed common_len)
                     (py_slice_to expected_read common_len))
  then (MISMATCH, {| overtrimmed := over; undertrimmed := under;
                     raw_trimmed_mismatch := raw_trimmed_mismatch cnt + 1 |})
  else (st, {| overtrimmed := over; undertrimmed := under;
               raw_trimmed_mismatch := raw_trimmed_mismatch cnt |}).

(** A row given to [w.writerow]; [row_actual_len] is [None] for the empty
    string of a discarded read. *)
Record Row : Type := {
  row_read_id : pyseq;
  row_mate : Z;
  row_expected_len : Z;
  row_actual_len : option Z;
  row_status : status;
  row_info : AdapterInfo }.

(** The dictionary [cache], in insertion order. *)
Definition Cache : Type := list (pyseq * (Aln * Aln)).

Fixpoint cache_mem (key : pyseq) (cache : Cache) : bool :=
  match cache with
  | [] => false
  | (k, _) :: more => pyseq_eqb key k || cache_mem key more
  end.

(** [cache[key] = value]: a key already present keeps its place. *)
Fixpoint cache_set (key : pyseq) (value : Aln * Aln) (cache : Cache) : Cache :=
  match cache with
  | [] => [(key, value)]
  | (k, v) :: more =>
      if pyseq_eqb key k then (k, value) :: more
      else (k, v) :: cache_set key value more
  end.

(** [cache.pop(key)]. *)
Fixpoint cache_pop (key : pyseq) (cache : Cache) : option ((Aln * Aln) * Cache) :=
  match cache with
  | [] => None
  | (k, v) :: more =>
      if pyseq_eqb key k then Some (v, more)
      else match cache_pop key more with
           | Some (x, more') => Some (x, (k, v) :: more')
           | None => None
           end
  end.

(** The loop of lines 91-95 over what is left of [aln_iter]: [aln] is the
    value of the loop variable so far.  The result is the value of [aln]
    after the loop, the alignments left in the iterator and the cache. *)
Fixpoint scan_alignments (read_id : pyseq) (aln_iter : list (Aln * Aln))
    (aln : option (Aln * Aln)) (cache : Cache)
  : option (Aln * Aln) * list (Aln * Aln) * Cache :=
  match aln_iter with
  | [] => (aln, [], cache)
  | a :: more =>
      if pyseq_eqb read_id (aln_name (fst a)) then (Some a, more, cache)
      else scan_alignments read_id more (Some a)
                           (cache_set (aln_name (fst a)) a cache)
  end.

(** Lines 86-103: the alignment used for the read pair [read_id], with
    the iterator and the cache after the search. *)
Definition find_alignment (read_id : pyseq) (aln_iter : list (Aln * Aln))
    (cache : Cache)
  : (failure + (Aln * Aln)) * list (Aln * Aln) * Cache :=
  let '(aln, aln_iter, cache) :=
    if negb (cache_mem read_id cache)
    then scan_alignments read_id aln_iter None cache
    else match cache_pop read_id cache with
         | Some (a, cache') => (Some a, aln_iter, cache')
         | None => (None, aln_iter, cache)
         end in
  match aln with
  | None => (inl (NoAlignment read_id), aln_iter, cache)
  | Some a => (inr a, aln_iter, cache)
  end.

(** [int(c)] for a string of one character. *)
Definition int_of_char (c : ascii) : failure + Z :=
  let n := nat_of_ascii c in
  if ((48 <=? n) && (n <=? 57))%nat then inr (Z.of_nat n - 48)
  else inl (Builtin (ValueError "int")).

(** The state of [summarize_accuracy]: the iterator of alignments, the
    cache, the counters, the rows written so far, and the variables
    [num_reads] and [i], unbound until their loops assign them. *)
Record State : Type := {
  st_aln_iter : list (Aln * Aln);
  st_cache : Cache;
  st_counters : Counters;
  st_rows : list Row;
  st_num_reads : option Z;
  st_i : option index01 }.

(** The six numbers printed at the end. *)
Record Report : Type := {
  retained_reads : Z;
  mismatch_reads : Z;
  discarded_reads : Z;
  total_reads : Z;
  overtrimmed_bases : Z;
  undertrimmed_bases : Z }.

Section Summaries.
(** [pylev.levenshtein], a library outside the repository. *)
Variable levenshtein : pyseq -> pyseq -> Z.
Variable adapters : pyseq * pyseq.

(** [summarize_alignment] with [i] bound in the enclosing scope.  The
    list [ref_ins] and the number [ref_del] are computed and not used. *)
Definition summarize_alignment (i : index01) (a : Aln) : pyseq * AdapterInfo :=
  let ref_seq := aln_ref a in
  let ref_len := py_len ref_seq in
  let read_seq := aln_actual a in
  let read_len := py_len read_seq in
  let expected_read := List.filter not_gap (py_slice read_seq 0 ref_len) in
  let has_adapter := ref_len <? read_len in
  let adapter_length := py_len (pair_at adapters i) in
  let '(adapter_seq, adapter_len, adapter_del, polyA) :=
    if has_adapter
    then fold_left (adapter_step adapter_length)
                   (py_slice_from read_seq ref_len) ([], 0, 0, 0)
    else ([], 0, 0, 0) in
  let adapter_ins :=
    if has_adapter
    then let adapter_ref_len := adapter_len + adapter_del in
         if adapter_ref_len >? adapter_length
         then adapter_ref_len - adapter_length else 0
    else 0 in
  let edit_dist :=
    levenshtein (py_slice_to (pair_at adapters i) adapter_len) adapter_seq in
  (expected_read,
   {| has_adapter := if has_adapter then 1 else 0;
      adapter_len := adapter_len; edit_dist := edit_dist;
      adapter_ins := adapter_ins; adapter_del := adapter_del;
      polyA := polyA |}).

(** [summarize_alignment] called while [i] may be unbound in the enclosing
    scope: every path reads [i] before it returns. *)
Definition call_summarize_alignment (i : option index01) (a : Aln)
  : failure + (pyseq * AdapterInfo) :=
  match i with
  | Some i => inr (summarize_alignment i a)
  | None => inl (Builtin (NameError "i"))
  end.

(** Lines 105-128 for one value of [i]. *)
Definition retained_row (st : State) (read_id : pyseq) (aln : Aln * Aln)
    (reads : Fq * Fq) (i : index01) : State :=
  let '(expected_read, adapter_info) := summarize_alignment i (pair_at aln i) in
  let r := pair_at reads i in
  let '(status, cnt) := classify (st_counters st) (fq_seq r) expected_read in
  {| st_aln_iter := st_aln_iter st; st_cache := st_cache st;
     st_counters := cnt;
     st_rows := st_rows st
                ++ [{| row_read_id := read_id; row_mate := index_value i + 1;
                       row_expected_len := py_len expected_read;
                       row_actual_len := Some (py_len (fq_seq r));
                       row_status := status; row_info := adapter_info |}];
     st_num_reads := st_num_reads st; st_i := Some i |}.

(** The two assertions of lines 88-89. *)
Definition check_reads (reads : Fq * Fq) : option failure :=
  if negb (pyseq_eqb (fq_name (fst reads)) (fq_name (snd reads)))
  then Some (Builtin AssertionError)
  else
    match int_of_char (fq_mate (fst reads)) with
    | inl e => Some e
    | inr m1 =>
        if m1 =? 1
        then match int_of_char (fq_mate (snd reads)) with
             | inl e => Some e
             | inr m2 => if m2 =? 2 then None
                         else Some (Builtin AssertionError)
             end
        else Some (Builtin AssertionError)
    end.

(** The body of the loop over [read_iter] (lines 84-128). *)
Definition handle_reads (st : State) (num_reads : Z) (reads : Fq * Fq)
  : option failure * State :=
  let st := {| st_aln_iter := st_aln_iter st; st_cache := st_cache st;
               st_counters := st_counters st; st_rows := st_rows st;
               st_num_reads := Some num_reads; st_i := st_i st |} in
  let read_id := fq_name (fst reads) in
  match check_reads reads with
  | Some e => (Some e, st)
  | None =>
      let '(found, aln_iter, cache) :=
        find_alignment read_id (st_aln_iter st) (st_cache st) in
      let st := {| st_aln_iter := aln_iter; st_cache := cache;
                   st_counters := st_counters st; st_rows := st_rows st;
                   st_num_reads := st_num_reads st; st_i := st_i st |} in
      match found with
      | inl e => (Some e, st)
      | inr aln =>
          let st := retained_row st read_id aln reads I0 in
          let st := retained_row st read_id aln reads I1 in
          (None, st)
      end
  end.

(** The loop [for num_reads, reads in enumerate(read_iter, 1)]. *)
Fixpoint read_loop (st : State) (num_reads : Z) (read_iter : list (Fq * Fq))
  : option failure * State :=
  match read_iter with
  | [] => (None, st)
  | reads :: more =>
      match handle_reads st num_reads reads with
      | (Some e, st) => (Some e, st)
      | (None, st) => read_loop st (num_reads + 1) more
      end
  end.

(** [handle_discarded]: its loop variable [i] is a local of its own; the
    [i] that [summarize_alignment] reads is the one of the enclosing
    [summarize_accuracy], [enclosing_i]. *)
Definition discarded_row (enclosing_i : option index01) (aln : Aln * Aln)
    (i : index01) : failure + Row :=
  match call_summarize_alignment enclosing_i (pair_at aln i) with
  | inl e => inl e
  | inr (expected_read, adapter_info) =>
      inr {| row_read_id := aln_name (fst aln); row_mate := index_value i + 1;
             row_expected_len := py_len expected_read;
             row_actual_len := None; row_status := DISCARDED;
             row_info := adapter_info |}
  end.

Definition handle_discarded (enclosing_i : option index01) (rows : list Row)
    (aln : Aln * Aln) : option failure * list Row :=
  match discarded_row enclosing_i aln I0 with
  | inl e => (Some e, rows)
  | inr r0 =>
      match discarded_row enclosing_i aln I1 with
      | inl e => (Some e, rows ++ [r0])
      | inr r1 => (None, rows ++ [r0; r1])
      end
  end.

Fixpoint discard_all (enclosing_i : option index01) (rows : list Row)
    (alns : list (Aln * Aln)) : option failure * list Row :=
  match alns with
  | [] => (None, rows)
  | aln :: more =>
      match handle_discarded enclosing_i rows aln with
      | (Some e, rows) => (Some e, rows)
      | (None, rows) => discard_all enclosing_i rows more
      end
  end.

(** [summarize_accuracy] with [progress=False]: the report printed or the
    exception raised, and the rows written. *)
Definition summarize_accuracy (aln_iter : list (Aln * Aln))
    (read_iter : list (Fq * Fq)) : (failure + Report) * list Row :=
  let st0 := {| st_aln_iter := aln_iter; st_cache := [];
                st_counters := {| overtrimmed := 0; undertrimmed := 0;
                                  raw_trimmed_mismatch := 0 |};
                st_rows := []; st_num_reads := None; st_i := None |} in
  match read_loop st0 1 read_iter with
  | (Some e, st) => (inl e, st_rows st)
  | (None, st) =>
      let num_discarded := Z.of_nat (List.length (st_cache st)) in
      match discard_all (st_i st) (st_rows st) (map snd (st_cache st)) with
      | (Some e, rows) => (inl e, rows)
      | (None, rows) =>
          match discard_all (st_i st) rows (st_aln_iter st) with
          | (Some e, rows) => (inl e, rows)
          | (None, rows) =>
              let num_discarded :=
                num_discarded + Z.of_nat (List.length (st_aln_iter st)) in
              match st_num_reads st with
              | None => (inl (Builtin (NameError "num_reads")), rows)
              | Some num_reads =>
                  (inr {| retained_reads := num_reads;
                          mismatch_reads :=
                            raw_trimmed_mismatch (st_counters st);
                          discarded_reads := num_discarded;
                          total_reads := num_reads + num_discarded;
                          overtrimmed_bases := overtrimmed (st_counters st);
                          undertrimmed_bases := undertrimmed (st_counters st) |},
                   rows)
              end
          end
      end
  end.

End Summaries.

End Accuracy.

(** The alignment pair [a] has another name than the read pair. *)
Definition names_differ (read_id : pyseq) (a : Accuracy.Aln * Accuracy.Aln)
  : Prop :=
  Accuracy.aln_name (fst a) <> read_id.

(** The cache after [cache[aln[0][0]] = aln] for each of [alns] in turn. *)
Definition cache_all (cache : Accuracy.Cache)
    (alns : list (Accuracy.Aln * Accuracy.Aln)) : Accuracy.Cache :=
  fold_left (fun c a => Accuracy.cache_set (Accuracy.aln_name (fst a)) a c)
            alns cache.

(** Two alignments named [r1] and [r2], and their reads. *)
Definition example_aln (name : string) (ref actual : string) : Accuracy.Aln :=
  {| Accuracy.aln_name := b name; Accuracy.aln_mate := "1"%char;
     Accuracy.aln_chrm := b "chr1"; Accuracy.aln_pos := b "100";
     Accuracy.aln_strand := b "+"; Accuracy.aln_ref := b ref;
     Accuracy.aln_actual := b actual |}.

Definition example_alns : list (Accuracy.Aln * Accuracy.Aln) :=
  [ (example_aln "r1" "ACGT" "ACGTAGAT", example_aln "r1" "TTGA" "TTGAAGAT");
    (example_aln "r2" "GGCA" "GGCA", example_aln "r2" "CCAT" "CCAT") ].

(** The cache entry of an alignment pair, and its name. *)
Definition pair_name (a : Accuracy.Aln * Accuracy.Aln) : pyseq :=
  Accuracy.aln_name (fst a).

Definition cache_entry (a : Accuracy.Aln * Accuracy.Aln)
  : pyseq * (Accuracy.Aln * Accuracy.Aln) :=
  (pair_name a, a).

(** The row written for mate [i] of a discarded pair once the loop over
    the retained reads has left [i = 1] in the enclosing scope. *)
Definition discarded_row_written (levenshtein : pyseq -> pyseq -> Z)
    (adapters : pyseq * pyseq) (aln : Accuracy.Aln * Accuracy.Aln)
    (i : Accuracy.index01) : Accuracy.Row :=
  let s := Accuracy.summarize_alignment levenshtein adapters Accuracy.I1
             (Accuracy.pair_at aln i) in
  {| Accuracy.row_read_id := pair_name aln;
     Accuracy.row_mate := Accuracy.index_value i + 1;
     Accuracy.row_expected_len := py_len (fst s);
     Accuracy.row_actual_len := None;
     Accuracy.row_status := Accuracy.DISCARDED;
     Accuracy.row_info := snd s |}.

(** One retained pair of reads, the reads of [r1] trimmed to the
    reference. *)
Definition example_reads : list (Accuracy.Fq * Accuracy.Fq) :=
  [ ({| Accuracy.fq_name := b "r1"; Accuracy.fq_mate := "1"%char;
        Accuracy.fq_seq := b "ACGT" |},
     {| Accuracy.fq_name := b "r1"; Accuracy.fq_mate := "2"%char;
        Accuracy.fq_seq := b "TTGA" |}) ].

Definition example_adapters : pyseq * pyseq := (b "AGAT", b "AGAT").

(** A stand-in for the edit distance in the examples. *)
Definition length_difference (x y : pyseq) : Z := Z.abs (py_len x - py_len y).

(** Every character of [ws] is white space. *)
Definition all_space (ws : pyseq) : Prop :=
  List.Forall (fun c => Accuracy.is_space c = true) ws.

(** The lines of a FASTQ record and of an alignment record. *)
Definition example_fastq : list pyseq :=
  [ "@"%char :: b "read7/1" ++ ["010"%char];
    b "ACGT" ++ ["010"%char];
    b "+" ++ ["010"%char];
    b "IIII" ++ ["010"%char] ].

Definition example_aln_lines : list pyseq :=
  [ ">"%char :: b "chr1" ++ "009"%char :: b "read7/1-1" ++ "009"%char
      :: b "100" ++ "009"%char :: b "+" ++ ["010"%char];
    b "ACGT" ++ ["010"%char];
    b "ACGTAG" ++ ["010"%char] ].

(** A field of a header line holds no tab. *)
Definition tab_free (f : pyseq) : Prop :=
  List.Forall (fun c => c <> "009"%char) f.

(** The exceptions that end [aln_iterator]. *)
Definition aln_failure (e : Accuracy.failure) : Prop :=
  e = Accuracy.Builtin IndexError \/ e = Accuracy.Builtin AssertionError
  \/ e = Accuracy.Builtin (ValueError "unpack") \/ e = Accuracy.RuntimeError.

(** Adapters of 25 bases with [min_adapter_match_frac = 0.56], and reads of
    45 bases whose 25 bases after the insert agree with the adapter in the
    first 14 positions only. *)
Definition long_adapter : pyseq := b "AGATCGGAAGAGCACACGTCTGAAC".

Definition fraction_aligner : InsertAligner :=
  InsertAligner_init long_adapter long_adapter RandomMatchProbability
    (1 # 1000000) (1 # 1000) 1 (2 # 10) 1 (56 # 100) 9.

Definition half_seq1 : pyseq :=
  insert20 ++ b "AGATCGGAAGAGCA" ++ b "ACATGAGTCCA".

Definition half_seq2 : pyseq :=
  SpecExt.reverse_complement insert20 ++ b "AGATCGGAAGAGCA" ++ b "ACATGAGTCCA".

(** * Properties *)

(** ** The result monad *)

Lemma bind_Ok {A B : Type} (a : A) (k : A -> result B) : Ok a ≫= k = k a.
Proof. reflexivity. Qed.

Lemma bind_Raise {A B : Type} (e : exn) (k : A -> result B) :
  Raise e ≫= k = Raise e.
Proof. reflexivity. Qed.

Lemma attr_Some {A : Type} (a : A) : attr (Some a) = Ok a.
Proof. reflexivity. Qed.

Ltac rsimpl_in H :=
  repeat (first [rewrite bind_Ok in H | rewrite bind_Raise in H
                | rewrite attr_Some in H]; cbn beta in H).

Ltac rsimpl :=
  repeat (first [rewrite bind_Ok | rewrite bind_Raise | rewrite attr_Some];
          cbn beta).

(** ** Sequences *)

Lemma py_len_nonneg (s : pyseq) : 0 <= py_len s.
Proof. unfold py_len. lia. Qed.

Lemma py_len_rev (s : pyseq) : py_len (py_reversed s) = py_len s.
Proof. unfold py_len, py_reversed. now rewrite length_rev. Qed.

Lemma py_len_app (s t : pyseq) : py_len (s ++ t) = py_len s + py_len t.
Proof. unfold py_len. rewrite length_app. lia. Qed.

Lemma py_clip_inside (n i : Z) : 0 <= i <= n -> py_clip n i = i.
Proof.
  intros Hi. unfold py_clip.
  destruct (Z.ltb_spec i 0); lia.
Qed.

Lemma py_slice_to_firstn (s : pyseq) (k : nat) :
  (k <= List.length s)%nat -> py_slice_to s (Z.of_nat k) = firstn k s.
Proof.
  intros Hk. unfold py_slice_to.
  rewrite py_clip_inside by (unfold py_len; lia).
  now rewrite Nat2Z.id.
Qed.

Lemma py_slice_to_len (s : pyseq) : py_slice_to s (py_len s) = s.
Proof.
  unfold py_len. rewrite py_slice_to_firstn by lia. apply firstn_all.
Qed.

(** ** Prefix and suffix comparison *)

Lemma count_matches_bounds (wr wq : bool) (s1 s2 : pyseq) :
  0 <= SpecExt.count_matches wr wq s1 s2 <= Z.min (py_len s1) (py_len s2).
Proof.
  revert s2. induction s1 as [|c1 r1 IH]; intros [|c2 r2]; cbn [SpecExt.count_matches].
  1-3: unfold py_len; cbn [List.length]; lia.
  specialize (IH r2). unfold py_len in *. cbn [List.length].
  destruct (SpecExt.base_match wr wq c1 c2); lia.
Qed.

Lemma compare_prefixes_shape (s1 s2 : pyseq) (wr wq : bool) :
  let L := Z.min (py_len s1) (py_len s2) in
  exists m e, compare_prefixes s1 s2 wr wq = T6 0 L 0 L m e
              /\ 0 <= m /\ 0 <= e /\ m + e = L.
Proof.
  intros L. pose proof (count_matches_bounds wr wq s1 s2) as Hb.
  exists (SpecExt.count_matches wr wq s1 s2),
         (L - SpecExt.count_matches wr wq s1 s2).
  split; [reflexivity | subst L; lia].
Qed.

Lemma count_matches_app (wr wq : bool) (x1 x2 y1 y2 : pyseq) :
  List.length x1 = List.length x2 ->
  SpecExt.count_matches wr wq (x1 ++ y1) (x2 ++ y2)
  = SpecExt.count_matches wr wq x1 x2 + SpecExt.count_matches wr wq y1 y2.
Proof.
  revert x2. induction x1 as [|c1 r1 IH]; intros [|c2 r2] Hlen;
    cbn in Hlen; try discriminate; [reflexivity|].
  cbn [app SpecExt.count_matches]. rewrite IH by lia. lia.
Qed.

Lemma count_matches_nil_r (wr wq : bool) (s : pyseq) :
  SpecExt.count_matches wr wq s [] = 0.
Proof. now destruct s. Qed.

Lemma count_matches_rev (wr wq : bool) (x1 x2 : pyseq) :
  List.length x1 = List.length x2 ->
  SpecExt.count_matches wr wq (rev x1) (rev x2)
  = SpecExt.count_matches wr wq x1 x2.
Proof.
  revert x2. induction x1 as [|c1 r1 IH]; intros [|c2 r2] Hlen;
    cbn in Hlen; try discriminate; [reflexivity|].
  cbn [rev]. rewrite count_matches_app by (rewrite !length_rev; lia).
  rewrite IH by lia. cbn [SpecExt.count_matches]. lia.
Qed.

(** The counts of [compare_suffixes] are those of the last
    [L = min(|s1|, |s2|)] characters of the two strings, compared position
    by position. *)
Lemma compare_suffixes_counts_suffix (s1 s2 : pyseq) (wr wq : bool) :
  let L := Z.min (py_len s1) (py_len s2) in
  let m := SpecExt.count_matches wr wq
             (py_slice_from s1 (py_len s1 - L)) (py_slice_from s2 (py_len s2 - L)) in
  @compare_suffixes spec_ext s1 s2 wr wq
  = T6 (py_len s1 - L) (py_len s1) (py_len s2 - L) (py_len s2) m (L - m).
Proof.
  intros L m. unfold compare_suffixes. cbn [compare_prefixes spec_ext].
  unfold SpecExt.compare_prefixes. cbn [item1 item4 item5].
  rewrite !py_len_rev. fold L.
  assert (Hm : SpecExt.count_matches wr wq (py_reversed s1) (py_reversed s2) = m).
  { subst m. unfold py_slice_from, py_reversed.
    pose proof (py_len_nonneg s1). pose proof (py_len_nonneg s2).
    rewrite !py_clip_inside by lia.
    set (k1 := Z.to_nat (py_len s1 - L)). set (k2 := Z.to_nat (py_len s2 - L)).
    rewrite <- (firstn_skipn k1 s1) at 1. rewrite <- (firstn_skipn k2 s2) at 1.
    rewrite !rev_app_distr.
    assert (Hl : List.length (skipn k1 s1) = List.length (skipn k2 s2)).
    { rewrite !length_skipn. subst k1 k2. unfold py_len in *. lia. }
    rewrite count_matches_app by (rewrite !length_rev; exact Hl).
    rewrite count_matches_rev by exact Hl.
    assert (Hz : firstn k1 s1 = [] \/ firstn k2 s2 = []).
    { destruct (Z.le_ge_cases (py_len s1) (py_len s2)).
      - left. replace k1 with 0%nat by (subst k1 L; lia). reflexivity.
      - right. replace k2 with 0%nat by (subst k2 L; lia). reflexivity. }
    destruct Hz as [-> | ->]; cbn [rev]; [|rewrite count_matches_nil_r]; 
      cbn [SpecExt.count_matches]; lia. }
  rewrite Hm. reflexivity.
Qed.

Lemma compare_suffixes_is_mirror `{AlignExt} (s1 s2 : pyseq) (wr wq : bool) :
  compare_suffixes s1 s2 wr wq
  = mirror (py_len s1) (py_len s2)
           (compare_prefixes (py_reversed s1) (py_reversed s2) wr wq).
Proof.
  unfold compare_suffixes, mirror. now rewrite !py_len_rev.
Qed.

(** C4. Prefix/suffix duality.  Whatever implementation of
    [compare_prefixes] is linked in, [compare_suffixes s1 s2] is the mirror
    of [compare_prefixes] on the reversed strings; and when that call
    returns [(0, L, 0, L, matches, errors)], [compare_suffixes] returns
    [(|s1| - L, |s1|, |s2| - L, |s2|, matches, errors)].  With the
    comparison of the specification, the call on the reversed strings does
    return such a tuple for [L = min(|s1|, |s2|)], for all strings and all
    wildcard flags, and the counts are those of the last [L] characters of
    the original strings. *)
Theorem compare_suffixes_duality (s1 s2 : pyseq) (wr wq : bool) :
  let L := Z.min (py_len s1) (py_len s2) in
  (forall ext : AlignExt,
      @compare_suffixes ext s1 s2 wr wq
      = mirror (py_len s1) (py_len s2)
               (@compare_prefixes ext (py_reversed s1) (py_reversed s2) wr wq)
      /\ forall m e,
          @compare_prefixes ext (py_reversed s1) (py_reversed s2) wr wq
          = T6 0 L 0 L m e ->
          @compare_suffixes ext s1 s2 wr wq
          = T6 (py_len s1 - L) (py_len s1) (py_len s2 - L) (py_len s2) m e)
  /\ (exists m e,
         @compare_prefixes spec_ext (py_reversed s1) (py_reversed s2) wr wq
         = T6 0 L 0 L m e
         /\ @compare_suffixes spec_ext s1 s2 wr wq
            = T6 (py_len s1 - L) (py_len s1) (py_len s2 - L) (py_len s2) m e)
  /\ item4 (@compare_suffixes spec_ext s1 s2 wr wq)
     = SpecExt.count_matches wr wq (py_slice_from s1 (py_len s1 - L))
                             (py_slice_from s2 (py_len s2 - L)).
Proof.
  intros L. split; [|split].
  - intros ext. split; [apply compare_suffixes_is_mirror|].
    intros m e Hp. rewrite compare_suffixes_is_mirror, Hp. reflexivity.
  - destruct (compare_prefixes_shape (py_reversed s1) (py_reversed s2) wr wq)
      as (m & e & Hp & _).
    rewrite !py_len_rev in Hp. fold L in Hp.
    exists m, e. split; [exact Hp|].
    rewrite compare_suffixes_is_mirror, Hp. reflexivity.
  - rewrite compare_suffixes_counts_suffix. reflexivity.
Qed.

Lemma compare_suffixes_duality_witness :
  @compare_suffixes spec_ext (b "AACGT") (b "CCT") false false = T6 2 5 0 3 2 1.
Proof.
  apply (proj2 (proj1 (compare_suffixes_duality (b "AACGT") (b "CCT") false false)
                      spec_ext)).
  reflexivity.
Defined.

(** ** [Match.wildcards] *)

Lemma in_py_range (n i : Z) : In i (py_range n) <-> 0 <= i < n.
Proof.
  unfold py_range. rewrite in_map_iff. split.
  - intros (k & <- & Hk). apply in_seq in Hk. lia.
  - intros Hi. exists (Z.to_nat i). split; [lia|]. apply in_seq. lia.
Qed.

Lemma py_getitem_inside (s : pyseq) (j : Z) :
  0 <= j < py_len s ->
  exists c, nth_error s (Z.to_nat j) = Some c /\ py_getitem s j = Ok c.
Proof.
  intros Hj. unfold py_getitem.
  destruct (Z.ltb_spec j 0); [lia|].
  destruct (Z.ltb_spec j 0); [lia|].
  destruct (Z.leb_spec (py_len s) j); [lia|]. cbn [orb].
  destruct (nth_error s (Z.to_nat j)) as [c|] eqn:E.
  - now exists c.
  - apply nth_error_None in E. unfold py_len in Hj. lia.
Qed.

Lemma firstn_1_skipn {A : Type} (l : list A) (k : nat) (x : A) :
  nth_error l k = Some x -> firstn 1 (skipn k l) = [x].
Proof.
  revert k. induction l as [|a l IH]; intros [|k] E; cbn in *; try discriminate.
  - now inversion E.
  - now apply IH.
Qed.

Lemma py_slice_one (s : pyseq) (j : Z) (c : ascii) :
  0 <= j < py_len s -> nth_error s (Z.to_nat j) = Some c ->
  py_slice s j (j + 1) = [c].
Proof.
  intros Hj E. unfold py_slice.
  rewrite !py_clip_inside by lia.
  replace (Z.to_nat (j + 1 - j)) with 1%nat by lia.
  now apply firstn_1_skipn.
Qed.

Lemma wildcards_items_spec (self : Match) (ad : Adapter) (rd : Read)
    (wildcard_char : ascii) (indices : list Z) :
  adapter self = Some ad -> read self = Some rd ->
  0 <= rstart self ->
  Forall (fun i => 0 <= i /\ 0 <= astart self + i < py_len (adapter_sequence ad))
         indices ->
  exists items,
    wildcards_items self wildcard_char indices = Ok items
    /\ concat items
       = flat_map (wildcard_at (adapter_sequence ad) (read_sequence rd)
                               (astart self) (rstart self) wildcard_char)
                  indices.
Proof.
  intros Had Hrd Hr Hall.
  induction Hall as [|i rest [Hi Hb] _ (items & IH & Hcat)].
  { exists []. split; reflexivity. }
  cbn [wildcards_items flat_map]. rewrite Had, Hrd, IH.
  destruct (py_getitem_inside _ _ Hb) as (c & Ec & Eg). rsimpl.
  rewrite Eg. rsimpl.
  unfold wildcard_at at 1. rewrite Ec, <- Hcat.
  destruct (Ascii.eqb c wildcard_char); rsimpl.
  - destruct (Z.ltb_spec (rstart self + i) (py_len (read_sequence rd))) as [Hlt|Hge];
      rsimpl.
    + destruct (py_getitem_inside (read_sequence rd) (rstart self + i))
        as (r & Er & _); [lia|].
      rewrite Er, (py_slice_one _ _ r) by (lia || assumption).
      eexists. split; reflexivity.
    + assert (nth_error (read_sequence rd) (Z.to_nat (rstart self + i)) = None) as ->.
      { apply nth_error_None. unfold py_len in Hge. lia. }
      eexists. split; reflexivity.
  - exists items. split; [reflexivity|].
    now destruct (nth_error (read_sequence rd) (Z.to_nat (rstart self + i))).
Qed.

(** C8. For a [Match] with adapter and read set and positions inside the
    bounds the data model gives them ([0 <= astart], [astop <= |adapter|],
    [0 <= rstart], [length = astop - astart]), [wildcards] returns, in
    increasing order of [i] in [[0, length)], the read characters at
    [rstart + i] for which the adapter has the wildcard character at
    [astart + i] and [rstart + i < |read|].  The match of adapter [ATNGNA]
    on the read segment [ATCGTA] (six matches under reference wildcards) is
    constructed without error and its [wildcards('N')] is [CT]. *)
Theorem wildcards_collects :
  (forall (self : Match) (ad : Adapter) (rd : Read) (wildcard_char : ascii),
      adapter self = Some ad -> read self = Some rd ->
      length self = astop self - astart self ->
      0 <= astart self -> astop self <= py_len (adapter_sequence ad) ->
      0 <= rstart self ->
      wildcards self wildcard_char
      = Ok (wildcards_spec (adapter_sequence ad) (read_sequence rd)
                           (astart self) (rstart self) (length self)
                           wildcard_char))
  /\ @compare_prefixes spec_ext (b "ATNGNA") (b "ATCGTA") true false
     = T6 0 6 0 6 6 0
  /\ exists m,
      Match_init 0 6 0 6 6 0 None (Some scenario3_adapter) (Some scenario3_read)
      = Ok m
      /\ wildcards m "N" = Ok (b "CT").
Proof.
  split; [|split; [reflexivity|]].
  - intros self ad rd wc Had Hrd Hlen Ha Hstop Hr.
    unfold wildcards.
    destruct (wildcards_items_spec self ad rd wc (py_range (length self)))
      as (items & -> & Hcat); try assumption.
    { apply List.Forall_forall. intros i Hi. apply in_py_range in Hi. lia. }
    rsimpl. now rewrite Hcat.
  - eexists. split; reflexivity.
Qed.

(** Outside those bounds the comprehension can fail: with [astop] beyond
    the end of the adapter, the indexing of the adapter raises. *)
Example wildcards_index_error :
  wildcards {| astart := 0; astop := 3; rstart := 0; rstop := 3; matches := 3;
               errors := 0; front := true;
               adapter := Some {| adapter_name := "a"; adapter_sequence := b "AN";
                                  adapter_max_error_rate := 1 # 10 |};
               read := Some scenario3_read; length := 3 |} "N"
  = Raise IndexError.
Proof. reflexivity. Qed.

Lemma wildcards_collects_witness :
  wildcards scenario3_match "N"
  = Ok (wildcards_spec (b "ATNGNA") (b "ATCGTA") 0 0 6 "N").
Proof.
  apply (proj1 wildcards_collects scenario3_match scenario3_adapter scenario3_read);
    cbn; first [reflexivity | lia].
Defined.

(** ** [InsertAligner.match_insert] *)

Lemma Qgt_bool_true (x y : Q) : Qgt_bool x y = true <-> (y < x)%Q.
Proof.
  unfold Qgt_bool, Qlt_bool. rewrite negb_true_iff.
  destruct (Qle_bool x y) eqn:E.
  - apply Qle_bool_iff in E. split; [discriminate|].
    intros Hlt. exfalso. exact (Qlt_not_le _ _ Hlt E).
  - split; [intros _|reflexivity].
    apply Qnot_le_lt. intros Hle. apply Qle_bool_iff in Hle. congruence.
Qed.

Lemma Qgt_bool_false (x y : Q) : Qgt_bool x y = false <-> (x <= y)%Q.
Proof.
  destruct (Qgt_bool x y) eqn:E.
  - apply Qgt_bool_true in E. split; [discriminate|].
    intros Hle. exfalso. exact (Qlt_not_le _ _ E Hle).
  - split; [intros _|reflexivity].
    apply Qnot_lt_le. intros Hlt. apply Qgt_bool_true in Hlt. congruence.
Qed.

Lemma InsertAligner_init_constructed a1 a2 P imr amr mio mimf mao mamf acc :
  constructed (InsertAligner_init a1 a2 P imr amr mio mimf mao mamf acc).
Proof. split; reflexivity. Qed.

Lemma Match_init_cases astart astop rstart rstop matches errors front ad rd :
  Match_init astart astop rstart rstop matches errors front ad rd
  = Raise AssertionError
  \/ exists m,
      Match_init astart astop rstart rstop matches errors front ad rd = Ok m.
Proof.
  unfold Match_init.
  destruct (negb _); [now left|].
  destruct (negb _); [now left|].
  destruct ad as [ad|]; [|right; eauto].
  destruct (Qle_bool _ _); [right; eauto | now left].
Qed.

Lemma emit_adapter_matches_cases `{AlignExt} self l1 l2 im ims a1 a2 p1 p2 :
  emit_adapter_matches self l1 l2 im ims a1 a2 p1 p2 = Raise AssertionError
  \/ exists m1 m2,
      emit_adapter_matches self l1 l2 im ims a1 a2 p1 p2
      = Ok (R4 (Some im) ims (Some m1) (Some m2)).
Proof.
  unfold emit_adapter_matches.
  match goal with |- context [Match_init ?a ?b ?c ?d ?e ?f ?g ?h ?i ≫= _] =>
    destruct (Match_init_cases a b c d e f g h i) as [-> | [m1 ->]] end;
    rsimpl; [now left|].
  match goal with |- context [Match_init ?a ?b ?c ?d ?e ?f ?g ?h ?i ≫= _] =>
    destruct (Match_init_cases a b c d e f g h i) as [-> | [m2 ->]] end;
    rsimpl; [now left|].
  right. eauto.
Qed.

Lemma truncate_inputs_longer_seq1 (seq1 seq2 : pyseq) :
  py_len seq2 < py_len seq1 ->
  truncate_inputs seq1 seq2 = (py_slice_to seq1 (py_len seq2), seq2).
Proof.
  intros Hl. unfold truncate_inputs.
  rewrite Z.gtb_ltb. destruct (Z.ltb_spec (py_len seq2) (py_len seq1)); [reflexivity|lia].
Qed.

Lemma truncate_inputs_equal (seq1 seq2 : pyseq) :
  py_len seq1 = py_len seq2 -> truncate_inputs seq1 seq2 = (seq1, seq2).
Proof.
  intros Hl. unfold truncate_inputs. rewrite !Z.gtb_ltb, Hl, Z.ltb_irrefl.
  reflexivity.
Qed.

(** When read 2 is the longer one, [seq2] is replaced by [seq1] itself. *)
Lemma truncate_inputs_longer_seq2 (seq1 seq2 : pyseq) :
  py_len seq1 < py_len seq2 -> truncate_inputs seq1 seq2 = (seq1, seq1).
Proof.
  intros Hl. unfold truncate_inputs. rewrite !Z.gtb_ltb.
  destruct (Z.ltb_spec (py_len seq2) (py_len seq1)); [lia|].
  destruct (Z.ltb_spec (py_len seq1) (py_len seq2)); [|lia].
  now rewrite py_slice_to_len.
Qed.

(** C1. The truncation of [match_insert] on reads of 29 and 30 bases.  The
    code leaves [seq1] and replaces [seq2] by [seq1[:29]], that is by [seq1],
    where the claim asks for [seq2[:29]]; the reverse complement that is
    aligned is then that of read 1, no overlap is found and the result is
    empty, while with the truncation of the claim the insert of 20 bases and
    both adapter matches are found. *)
Theorem match_insert_truncates_seq2_from_seq1 :
  py_len longer2_seq1 = 29 /\ py_len longer2_seq2 = 30
  /\ truncate_inputs longer2_seq1 longer2_seq2 = (longer2_seq1, longer2_seq1)
  /\ truncate_inputs_spec longer2_seq1 longer2_seq2
     = (longer2_seq1, py_slice_to longer2_seq2 29)
  /\ py_slice_to longer2_seq2 29 <> longer2_seq1
  /\ match_insert paired_aligner longer2_seq1 longer2_seq2
     = Ok (R4 None 0 None None)
  /\ exists m1 m2,
      match_insert_spec paired_aligner longer2_seq1 longer2_seq2
      = Ok (R4 (Some (T6 9 29 0 20 20 0)) 20 (Some m1) (Some m2)).
Proof.
  repeat split; try (vm_compute; reflexivity).
  - vm_compute. discriminate.
  - eexists _, _. vm_compute. reflexivity.
Qed.

Lemma match_insert_unfold `{AlignExt} (self : InsertAligner) (seq1 seq2 : pyseq) :
  match_insert self seq1 seq2
  = align_truncated self (py_len seq1) (py_len seq2)
      (Z.min (py_len seq1) (py_len seq2))
      (fst (truncate_inputs seq1 seq2)) (snd (truncate_inputs seq1 seq2)).
Proof.
  unfold match_insert. now destruct (truncate_inputs seq1 seq2).
Qed.

(** Scenario 4 of the specification: the insert of 16 bases is found and
    both adapter matches start at position 16 of their read. *)
Example scenario4_insert_aligner :
  exists im m1 m2,
    match_insert scenario4_aligner scenario4_seq1 scenario4_seq2
    = Ok (R4 (Some im) 16 (Some m1) (Some m2))
    /\ rstart m1 = 16 /\ rstart m2 = 16.
Proof. eexists _, _, _. split; [vm_compute; reflexivity|]. split; reflexivity. Qed.

(** C5. When the overlap alignment of the (truncated) [seq1] against the
    reverse complement of the (truncated) [seq2] returns the tuple [im],
    with [offset = min(refstart, seq_len - querystop)] and
    [insert_size = seq_len - offset]: if
    [P(matches, insert_size) > insert_max_rmp] the result is
    [[None, 0, None, None]]; otherwise every result carries [im] and
    [insert_match_size], unless the construction of an adapter match fails. *)
Theorem insert_offset_and_random_gate `{AlignExt} (self : InsertAligner)
    (seq1 seq2 : pyseq) (im : tuple6) :
  let seq_len := Z.min (py_len seq1) (py_len seq2) in
  let seq1' := fst (truncate_inputs seq1 seq2) in
  let seq2' := snd (truncate_inputs seq1 seq2) in
  let offset := Z.min (item0 im) (seq_len - item3 im) in
  let insert_match_size := seq_len - offset in
  locate (insert_overlap_aligner self (reverse_complement seq2')) seq1' = Some im ->
  ((insert_max_rmp self < match_probability self (item4 im) insert_match_size)%Q ->
   match_insert self seq1 seq2 = Ok (R4 None 0 None None))
  /\ ((match_probability self (item4 im) insert_match_size <= insert_max_rmp self)%Q ->
      match_insert self seq1 seq2 = Raise AssertionError
      \/ exists m1 m2,
          match_insert self seq1 seq2 = Ok (R4 (Some im) insert_match_size m1 m2)).
Proof.
  intros seq_len seq1' seq2' offset insert_match_size Hloc.
  rewrite match_insert_unfold. fold seq_len seq1' seq2'.
  unfold align_truncated. rewrite Hloc.
  unfold after_insert_match. fold offset. fold insert_match_size.
  unfold insert_is_random_match. split.
  - intros Hgt. apply Qgt_bool_true in Hgt. now rewrite Hgt.
  - intros Hle. apply Qgt_bool_false in Hle. rewrite Hle.
    destruct (offset <? min_adapter_overlap self); [right; eauto|].
    destruct (_ && _); [right; eauto|].
    unfold adapter_match_probabilities.
    destruct (_ && _); [right; eauto|].
    match goal with |- context [emit_adapter_matches ?s ?a ?b ?c ?d ?e ?f ?g ?h] =>
      destruct (emit_adapter_matches_cases s a b c d e f g h)
        as [-> | (m1 & m2 & ->)] end; [now left | right; eauto].
Qed.

Lemma insert_offset_and_random_gate_witness :
  match_insert paired_aligner (b "ACGTAG") (b "ACGTAG")
  = Ok (R4 None 0 None None).
Proof.
  refine (proj1 (insert_offset_and_random_gate
                   paired_aligner (b "ACGTAG") (b "ACGTAG")
                   (T6 2 6 0 4 4 0) _) _).
  - vm_compute. reflexivity.
  - vm_compute. reflexivity.
Defined.



(** C9. With the default settings and adapters of 13 and 3 bases, reads
    of 30 bases whose insert of 20 bases overlaps exactly: the gates are
    passed (read 1 agrees with its adapter in 3 of 10 positions, read 2 in 2
    of 3, and [3 >= ceil(3 * 0.8)]), read 1 is the better side
    ([P(3, 3) = 1/64 < P(2, 3) = 10/64]), and its 7 mismatches are given to
    the record of read 2, whose aligned adapter length is 3: the
    constructor's assertion [length - errors > 0] fails and [match_insert]
    raises. *)
Theorem match_insert_assertion_reachable :
  @locate spec_ext
     (insert_overlap_aligner uneven_aligner
        (reverse_complement (snd (truncate_inputs uneven_seq1 uneven_seq2))))
     (fst (truncate_inputs uneven_seq1 uneven_seq2))
  = Some (T6 10 30 0 20 20 0)
  /\ @compare_prefixes spec_ext (py_slice_from uneven_seq1 20)
       (adapter1 uneven_aligner) false false = T6 0 10 0 10 3 7
  /\ @compare_prefixes spec_ext (py_slice_from uneven_seq2 20)
       (adapter2 uneven_aligner) false false = T6 0 3 0 3 2 1
  /\ RandomMatchProbability 3 3 = 1 # 64
  /\ RandomMatchProbability 2 3 = 10 # 64
  /\ (exists m1, Match_init 0 10 20 30 3 7 None None None = Ok m1)
  /\ Match_init 0 3 20 30 3 7 None None None = Raise AssertionError
  /\ match_insert uneven_aligner uneven_seq1 uneven_seq2 = Raise AssertionError.
Proof.
  repeat split; try (vm_compute; reflexivity).
  eexists. vm_compute. reflexivity.
Qed.

(** ** The alignment matrix of the specification *)

Lemma ForallFrom_range {A : Type} (Q : Z -> A -> Prop) (f : Z -> A) (n s : nat) :
  (forall j, Z.of_nat s <= j -> Q j (f j)) ->
  ForallFrom Q (Z.of_nat s) (map f (map Z.of_nat (seq s n))).
Proof.
  revert s. induction n as [|n IH]; intros s Hf; cbn; [exact I|].
  split; [apply Hf; lia|].
  replace (Z.of_nat s + 1) with (Z.of_nat (S s)) by lia.
  apply IH. intros j Hj. apply Hf. lia.
Qed.

Lemma ForallFrom_combine {A : Type} (Q : Z -> A -> Prop) (l : list A) :
  forall (n s : nat) (j : Z) (x : A),
    In (j, x) (combine (map Z.of_nat (seq s n)) l) ->
    ForallFrom Q (Z.of_nat s) l ->
    Q j x /\ Z.of_nat s <= j < Z.of_nat s + Z.of_nat (List.length l).
Proof.
  induction l as [|y l IH]; intros [|n] s j x Hin Hall; cbn in Hin;
    try contradiction.
  destruct Hall as [Hy Hrest]. destruct Hin as [E | Hin].
  - inversion E; subst. split; [exact Hy | cbn [List.length]; lia].
  - replace (Z.of_nat s + 1) with (Z.of_nat (S s)) in Hrest by lia.
    destruct (IH n (S s) j x Hin Hrest) as [HQ Hj].
    split; [exact HQ | cbn [List.length]; lia].
Qed.

Lemma ForallFrom_with_index {A : Type} (Q : Z -> A -> Prop) (l : list A)
    (j : Z) (x : A) :
  In (j, x) (SpecExt.with_index l) -> ForallFrom Q 0 l ->
  Q j x /\ 0 <= j < Z.of_nat (List.length l).
Proof.
  intros Hin Hall. unfold SpecExt.with_index, py_range in Hin.
  destruct (ForallFrom_combine Q l _ 0%nat j x Hin Hall) as [HQ Hj].
  split; [exact HQ | lia].
Qed.

Lemma ForallFrom_last {A : Type} (Q : Z -> A -> Prop) (l : list A) (d : A) :
  forall s, l <> [] -> ForallFrom Q s l ->
            Q (s + Z.of_nat (List.length l) - 1) (List.last l d).
Proof.
  induction l as [|x l IH]; intros s Hne Hall; [contradiction|].
  destruct Hall as [Hx Hrest]. destruct l as [|y l].
  - cbn [List.last List.length].
    replace (s + Z.of_nat 1 - 1) with s by lia. exact Hx.
  - change (List.last (x :: y :: l) d) with (List.last (y :: l) d).
    replace (s + Z.of_nat (List.length (x :: y :: l)) - 1)
      with (s + 1 + Z.of_nat (List.length (y :: l)) - 1)
      by (cbn [List.length]; lia).
    apply IH; [discriminate | exact Hrest].
Qed.

Section MatrixInvariant.
Variable a : Aligner.
Variable P : Z -> Z -> SpecExt.cell -> Prop.
Hypothesis P_diag :
  forall i j rc qc d, P i j d -> P (i + 1) (j + 1) (SpecExt.via_diag a rc qc d).
Hypothesis P_ref_step :
  forall i j d, P i j d -> P (i + 1) j (SpecExt.via_indel a d).
Hypothesis P_query_step :
  forall i j d, P i j d -> P i (j + 1) (SpecExt.via_indel a d).
Hypothesis P_ref_boundary :
  forall i, 0 <= i -> P i 0 (SpecExt.ref_boundary a i).
Hypothesis P_query_boundary :
  forall j, 0 <= j -> P 0 j (SpecExt.query_boundary a j).

Lemma dp_step_inv i j rc qc (diag up left : SpecExt.cell) :
  P i j diag -> P i (j + 1) up -> P (i + 1) j left ->
  P (i + 1) (j + 1) (SpecExt.dp_step a rc qc diag up left).
Proof.
  intros Hd Hu Hl. unfold SpecExt.dp_step, SpecExt.cheaper.
  repeat match goal with |- context [if ?c then _ else _] => destruct c end;
    auto.
Qed.

Lemma dp_line_inv i rc (q : pyseq) :
  forall j prev left,
    ForallFrom (P i) j prev -> P (i + 1) j left ->
    ForallFrom (P (i + 1)) (j + 1) (SpecExt.dp_line a rc prev left q).
Proof.
  induction q as [|qc q' IH]; intros j prev left Hprev Hleft; [exact I|].
  destruct prev as [|diag [|up prev']]; cbn [SpecExt.dp_line]; try exact I.
  destruct Hprev as [Hd Hrest]. pose proof Hrest as [Hu _].
  assert (Hcur : P (i + 1) (j + 1) (SpecExt.dp_step a rc qc diag up left))
    by now apply dp_step_inv.
  split; [exact Hcur|]. now apply IH.
Qed.

Lemma dp_line_length rc (q : pyseq) :
  forall prev left,
    List.length prev = S (List.length q) ->
    List.length (SpecExt.dp_line a rc prev left q) = List.length q.
Proof.
  induction q as [|qc q' IH]; intros prev left Hlen; [reflexivity|].
  destruct prev as [|diag [|up prev']]; cbn in Hlen; try discriminate.
  cbn [SpecExt.dp_line List.length]. f_equal. apply IH. cbn. lia.
Qed.

(** What is known of the line of reference position [i]. *)
Let line_ok (q : pyseq) (i : Z) (line : list SpecExt.cell) : Prop :=
  ForallFrom (P i) 0 line /\ List.length line = S (List.length q).

Lemma dp_lines_inv (q : pyseq) (ref : pyseq) :
  forall i prev,
    0 <= i -> line_ok q i prev ->
    ForallFrom (line_ok q) (i + 1) (SpecExt.dp_lines a i ref prev q)
    /\ List.length (SpecExt.dp_lines a i ref prev q) = List.length ref.
Proof.
  induction ref as [|rc ref' IH]; intros i prev Hi [Hprev Hlen];
    [split; [exact I | reflexivity]|].
  cbn [SpecExt.dp_lines].
  set (first := SpecExt.ref_boundary a (i + 1)).
  assert (Hfirst : P (i + 1) 0 first) by (apply P_ref_boundary; lia).
  assert (Hline : line_ok q (i + 1) (first :: SpecExt.dp_line a rc prev first q)).
  { split.
    - split; [exact Hfirst|]. now apply dp_line_inv.
    - cbn [List.length]. f_equal. now apply dp_line_length. }
  destruct (IH (i + 1) _ ltac:(lia) Hline) as [Hrest Hl].
  split; [split; assumption | cbn [List.length]; now f_equal].
Qed.

Lemma dp_matrix_inv (q : pyseq) :
  ForallFrom (line_ok q) 0 (SpecExt.dp_matrix a q)
  /\ List.length (SpecExt.dp_matrix a q) = S (List.length (reference a)).
Proof.
  unfold SpecExt.dp_matrix.
  set (line0 := map (SpecExt.query_boundary a) (py_range (py_len q + 1))).
  assert (H0 : line_ok q 0 line0).
  { subst line0. unfold py_range. split.
    - apply (ForallFrom_range (P 0) (SpecExt.query_boundary a) _ 0).
      intros j Hj. apply P_query_boundary. lia.
    - unfold py_len. rewrite !length_map, length_seq. lia. }
  destruct (dp_lines_inv q (reference a) 0 line0 ltac:(lia) H0) as [Hrest Hl].
  split; [split; assumption | cbn [List.length]; now f_equal].
Qed.

Lemma candidates_inv (q : pyseq) (refstop querystop : Z) (k : SpecExt.cell) :
  In (refstop, querystop, k) (SpecExt.candidates a q) ->
  P refstop querystop k
  /\ 0 <= refstop <= py_len (reference a) /\ 0 <= querystop <= py_len q.
Proof.
  destruct (dp_matrix_inv q) as [Hmat Hlen].
  assert (Hne : SpecExt.dp_matrix a q <> []).
  { intros E. rewrite E in Hlen. discriminate. }
  unfold SpecExt.candidates. intros Hin. apply in_app_or in Hin.
  destruct Hin as [Hin | Hin].
  - assert (Hin' : In (refstop, querystop, k)
                      (map (fun '(j, k) => (py_len (reference a), j, k))
                           (SpecExt.with_index
                              (List.last (SpecExt.dp_matrix a q) [])))).
    { destruct (SpecExt.flag_set (flags a) STOP_WITHIN_SEQ2); [exact Hin|].
      apply filter_In in Hin. apply Hin. }
    apply in_map_iff in Hin'. destruct Hin' as ([j k'] & E & Hjk).
    inversion E; subst.
    pose proof (ForallFrom_last (line_ok q) _ [] 0 Hne Hmat) as [Hlast Hll].
    rewrite Hlen in Hlast.
    replace (0 + Z.of_nat (S (List.length (reference a))) - 1)
      with (py_len (reference a)) in Hlast by (unfold py_len; lia).
    destruct (ForallFrom_with_index _ _ _ _ Hjk Hlast) as [HP Hj].
    rewrite Hll in Hj. unfold py_len in *. repeat split; try lia. exact HP.
  - destruct (SpecExt.flag_set (flags a) STOP_WITHIN_SEQ1); [|destruct Hin].
    apply in_map_iff in Hin. destruct Hin as ([i line] & E & Hil).
    inversion E; subst.
    destruct (ForallFrom_with_index _ _ _ _ Hil Hmat) as [[Hline Hll] Hi].
    assert (Hnl : line <> []) by (intros El; rewrite El in Hll; discriminate).
    pose proof (ForallFrom_last (P refstop) line
                  (SpecExt.query_boundary a (py_len q)) 0 Hnl Hline) as HP.
    rewrite Hll in HP.
    replace (0 + Z.of_nat (S (List.length q)) - 1) with (py_len q) in HP
      by (unfold py_len; lia).
    rewrite Hlen in Hi. pose proof (py_len_nonneg q).
    unfold py_len in *. repeat split; try lia. exact HP.
Qed.

End MatrixInvariant.

Lemma fold_pick_in (l : list SpecExt.candidate) :
  forall acc c,
    fold_left SpecExt.pick l acc = Some c -> In c l \/ acc = Some c.
Proof.
  induction l as [|x l IH]; intros acc c Hf; [now right|].
  cbn [fold_left] in Hf. apply IH in Hf. destruct Hf as [Hin | Hacc].
  - left. now right.
  - unfold SpecExt.pick in Hacc. destruct acc as [b0|].
    + destruct (SpecExt.better x b0); inversion Hacc; subst.
      * left. now left.
      * now right.
    + inversion Hacc; subst. left. now left.
Qed.

Lemma spec_locate_in_bounds : locate_in_bounds spec_ext.
Proof.
  intros a q t Hloc. cbn in Hloc. unfold SpecExt.locate in Hloc.
  destruct (fold_left SpecExt.pick _ None) as [[[refstop querystop] k]|] eqn:E;
    [|discriminate].
  inversion Hloc; subst t; cbn [item0 item1 item2 item3].
  apply fold_pick_in in E. destruct E as [Hin | Hnone]; [|discriminate].
  apply filter_In in Hin. destruct Hin as [Hin _].
  apply (candidates_inv a cell_in_bounds) in Hin.
  - unfold cell_in_bounds in Hin. lia.
  - intros i j rc qc d Hd. unfold cell_in_bounds, SpecExt.via_diag in *.
    destruct (SpecExt.base_match _ _ _ _); cbn; lia.
  - intros i j d Hd. unfold cell_in_bounds in *. cbn. lia.
  - intros i j d Hd. unfold cell_in_bounds in *. cbn. lia.
  - intros i Hi. unfold cell_in_bounds, SpecExt.ref_boundary.
    destruct (SpecExt.flag_set _ _); cbn; lia.
  - intros j Hj. unfold cell_in_bounds, SpecExt.query_boundary.
    destruct (SpecExt.flag_set _ _); cbn; lia.
Qed.

(** Scenarios 1 and 2 of the specification, on the aligner written from
    it: the exact 3' adapter is found at [11, 22) of the read; the match is
    not a front match, so [rest] is the part of the read after it, which is
    empty, and the part before it is [ACGTACGTAAA].  One mismatch inside the
    adapter is accepted at an error rate of 0.1; at 0.05 that alignment is
    refused, and what remains is the exact overlap of the first three
    adapter bases with the end of the read, or nothing when the minimum
    overlap is 4. *)
Example scenario1_exact_adapter :
  adapter_match (adapter_aligner scenario1_adapter SEMIGLOBAL false false 1 1)
                scenario1_adapter scenario1_read
  = Ok (Some scenario1_match)
  /\ rest scenario1_match = Ok []
  /\ py_slice_to (read_sequence scenario1_read) (rstart scenario1_match)
     = b "ACGTACGTAAA".
Proof. repeat split; vm_compute; reflexivity. Qed.

Example scenario2_single_mismatch :
  (exists t, locate (adapter_aligner scenario1_adapter SEMIGLOBAL false false 1 1)
                    (read_sequence scenario2_read) = Some t
             /\ item4 t = 10 /\ item5 t = 1)
  /\ locate {| reference := b "AGATCGGAAGA"; max_error_rate := 5 # 100;
               flags := SEMIGLOBAL; wildcard_ref := false;
               wildcard_query := false; min_overlap := 1; indel_cost := 1 |}
            (read_sequence scenario2_read) = Some (T6 0 3 14 17 3 0)
  /\ locate {| reference := b "AGATCGGAAGA"; max_error_rate := 5 # 100;
               flags := SEMIGLOBAL; wildcard_ref := false;
               wildcard_query := false; min_overlap := 4; indel_cost := 1 |}
            (read_sequence scenario2_read) = None.
Proof.
  split; [eexists; split; [vm_compute; reflexivity | split; reflexivity]|].
  split; vm_compute; reflexivity.
Qed.

(** ** Match validity *)

Lemma Match_init_ok a0 a1 r0 r1 m e f ad rd self :
  Match_init a0 a1 r0 r1 m e f ad rd = Ok self ->
  astart self = a0 /\ astop self = a1 /\ rstart self = r0 /\ rstop self = r1
  /\ matches self = m /\ errors self = e /\ adapter self = ad /\ read self = rd
  /\ length self = a1 - a0 /\ 0 < a1 - a0 /\ e < a1 - a0
  /\ forall a, ad = Some a ->
               Qle_bool (inject_Z e / inject_Z (a1 - a0)) (adapter_max_error_rate a)
               = true.
Proof.
  unfold Match_init. rewrite !Z.gtb_ltb.
  destruct (Z.ltb_spec 0 (a1 - a0)); [|discriminate].
  destruct (Z.ltb_spec 0 (a1 - a0 - e)); [|discriminate].
  cbn [negb].
  destruct ad as [a|].
  - destruct (Qle_bool _ _) eqn:E; [|discriminate].
    intros Hok. inversion Hok; subst self; cbn.
    repeat split; try lia. intros a' Ha'. now inversion Ha'; subst.
  - intros Hok. inversion Hok; subst self; cbn.
    repeat split; try lia. discriminate.
Qed.

Lemma Qdiv_le_mult (e l : Z) (r : Q) :
  0 < l -> (inject_Z e / inject_Z l <= r)%Q -> (inject_Z e <= inject_Z l * r)%Q.
Proof.
  intros Hl Hle.
  assert (Hpos : (0 < inject_Z l)%Q).
  { unfold Qlt, inject_Z. cbn. lia. }
  assert (Hnz : ~ (inject_Z l == 0)%Q).
  { intros E. rewrite E in Hpos. exact (Qlt_irrefl 0 Hpos). }
  rewrite <- (Qmult_div_r (inject_Z e) (inject_Z l) Hnz) at 1.
  apply Qmult_le_l; assumption.
Qed.

Lemma py_len_slice_to (s : pyseq) (k : Z) :
  0 <= k <= py_len s -> py_len (py_slice_to s k) = k.
Proof.
  intros Hk. unfold py_slice_to. rewrite py_clip_inside by assumption.
  unfold py_len in *. rewrite length_firstn. lia.
Qed.

Lemma truncate_inputs_len1 (seq1 seq2 : pyseq) :
  py_len (fst (truncate_inputs seq1 seq2)) = Z.min (py_len seq1) (py_len seq2).
Proof.
  unfold truncate_inputs. rewrite !Z.gtb_ltb.
  pose proof (py_len_nonneg seq2).
  destruct (Z.ltb_spec (py_len seq2) (py_len seq1)); cbn [fst].
  - rewrite py_len_slice_to; lia.
  - destruct (Z.ltb_spec (py_len seq1) (py_len seq2)); cbn [fst]; lia.
Qed.

Lemma emit_adapter_matches_valid `{AlignExt} (self : InsertAligner)
    (seq1 seq2 : pyseq) (im : tuple6) (ims : Z) (a1 a2 : tuple6) (p1 p2 : Q)
    (r : InsertResult) :
  constructed self ->
  0 <= ims <= Z.min (py_len seq1) (py_len seq2) ->
  emit_adapter_matches self (py_len seq1) (py_len seq2) im ims a1 a2 p1 p2 = Ok r ->
  (forall m, adapter1_match r = Some m -> insert_match_valid m (adapter1 self) seq1)
  /\ (forall m, adapter2_match r = Some m -> insert_match_valid m (adapter2 self) seq2).
Proof.
  intros [Hc1 Hc2] Hims. unfold emit_adapter_matches.
  match goal with |- context [Match_init ?a ?b ?c ?d ?e ?f ?g ?h ?i ≫= _] =>
    destruct (Match_init a b c d e f g h i) as [m1|] eqn:E1 end;
    rsimpl; [|discriminate].
  match goal with |- context [Match_init ?a ?b ?c ?d ?e ?f ?g ?h ?i ≫= _] =>
    destruct (Match_init a b c d e f g h i) as [m2|] eqn:E2 end;
    rsimpl; [|discriminate].
  intros Hr. inversion Hr; subst r; cbn [adapter1_match adapter2_match].
  apply Match_init_ok in E1. apply Match_init_ok in E2.
  split; intros m Hm; inversion Hm; subst m; unfold insert_match_valid.
  - destruct E1 as (-> & -> & -> & -> & _ & -> & -> & _ & -> & Hpos & Herr & _).
    repeat split; lia.
  - destruct E2 as (-> & -> & -> & -> & _ & -> & -> & _ & -> & Hpos & Herr & _).
    repeat split; lia.
Qed.

Lemma Match_init_invariants a0 a1 r0 r1 m e f ad rd self :
  Match_init a0 a1 r0 r1 m e f ad rd = Ok self ->
  length self = astop self - astart self
  /\ 0 < length self /\ errors self < length self
  /\ forall a, adapter self = Some a ->
       (inject_Z (errors self)
        <= inject_Z (length self) * adapter_max_error_rate a)%Q.
Proof.
  intros Hok. apply Match_init_ok in Hok.
  destruct Hok as (-> & -> & _ & _ & _ & -> & -> & _ & -> & Hpos & Herr & Hrate).
  repeat split; try lia.
  intros a Ha. apply Qdiv_le_mult; [assumption|].
  apply Qle_bool_iff. now apply Hrate.
Qed.

Lemma adapter_match_valid (ext : AlignExt) (ad : Adapter) (rd : Read) (flags : Z)
    (wr wq : bool) (min_overlap indel_cost : Z) (m : Match) :
  locate_in_bounds ext ->
  @adapter_match ext (adapter_aligner ad flags wr wq min_overlap indel_cost) ad rd
  = Ok (Some m) ->
  match_valid m (adapter_sequence ad) (adapter_max_error_rate ad)
              (read_sequence rd).
Proof.
  intros Hb. unfold adapter_match.
  destruct (locate _ _) as [t|] eqn:Hloc; [|discriminate].
  apply Hb in Hloc. cbn [reference adapter_aligner] in Hloc.
  destruct (Match_init _ _ _ _ _ _ _ _ _) as [m'|] eqn:E; rsimpl;
    [|discriminate].
  intros Hm. inversion Hm; subst m'.
  pose proof (Match_init_invariants _ _ _ _ _ _ _ _ _ _ E)
    as (Hlen & Hpos & _ & Hrate).
  apply Match_init_ok in E.
  destruct E as (Ea0 & Ea1 & Er0 & Er1 & _ & _ & Ead & _).
  unfold match_valid. rewrite Ea0, Ea1, Er0, Er1.
  rewrite Hlen, Ea0, Ea1 in Hpos.
  repeat split; try lia. now apply Hrate.
Qed.

Lemma match_insert_matches_valid (ext : AlignExt) (self : InsertAligner)
    (seq1 seq2 : pyseq) (r : InsertResult) :
  locate_in_bounds ext -> constructed self ->
  @match_insert ext self seq1 seq2 = Ok r ->
  (forall m, adapter1_match r = Some m -> insert_match_valid m (adapter1 self) seq1)
  /\ (forall m, adapter2_match r = Some m -> insert_match_valid m (adapter2 self) seq2).
Proof.
  intros Hb Hc. rewrite match_insert_unfold. unfold align_truncated.
  destruct (locate _ _) as [im|] eqn:Hloc.
  2:{ intros Hr; inversion Hr; subst r; cbn; split; discriminate. }
  apply Hb in Hloc. rewrite truncate_inputs_len1 in Hloc.
  unfold after_insert_match.
  set (seq_len := Z.min (py_len seq1) (py_len seq2)) in *.
  set (offset := Z.min (item0 im) (seq_len - item3 im)).
  destruct (insert_is_random_match _ _ _).
  { intros Hr; inversion Hr; subst r; cbn; split; discriminate. }
  destruct (offset <? min_adapter_overlap self).
  { intros Hr; inversion Hr; subst r; cbn; split; discriminate. }
  destruct (_ && _).
  { intros Hr; inversion Hr; subst r; cbn; split; discriminate. }
  unfold adapter_match_probabilities.
  destruct (_ && _).
  { intros Hr; inversion Hr; subst r; cbn; split; discriminate. }
  apply emit_adapter_matches_valid; [assumption|]. subst offset seq_len. lia.
Qed.

(** C3, the claim as stated fails.  Reads of 33 bases with an insert of
    20 bases, each followed by thirteen bases of which eleven agree with the
    adapter [AGATCGGAAGAGC]: [match_insert] returns a match for read 1 with
    2 errors over a length of 13 and no adapter attached, above the maximum
    error rate 0.1 of the adapter object with that sequence. *)
Lemma match_validity_counterexample :
  exists r m,
    match_insert paired_aligner noisy_seq1 noisy_seq2 = Ok r
    /\ adapter1_match r = Some m
    /\ adapter1 paired_aligner = adapter_sequence truseq_adapter
    /\ adapter m = None /\ errors m = 2 /\ length m = 13
    /\ ~ match_valid m (adapter_sequence truseq_adapter)
                      (adapter_max_error_rate truseq_adapter) noisy_seq1.
Proof.
  eexists _, _. split; [vm_compute; reflexivity|].
  split; [reflexivity|]. repeat split.
  intros (_ & Hrate & _). vm_compute in Hrate. apply Hrate. reflexivity.
Qed.

(** C3, amended.  Every [Match] the constructor returns has
    [length = astop - astart > 0] and [errors < length], and, when it was
    given an adapter, [errors <= length * max_error_rate] of that adapter.
    For an aligner whose positions lie inside its sequences (as those of the
    specification's aligner do): every match returned by [match_insert] is
    built without an adapter and has [astart = 0 < astop <= |adapter|],
    [0 <= rstart <= rstop = |read|] and [errors < length] for the adapter
    and the read of its side, with no bound by an error rate enforced on it;
    and every match an adapter cutter builds from the located tuple, with the
    adapter attached, satisfies the whole of match validity. *)
Theorem match_validity_amended :
  (forall a0 a1 r0 r1 m e f ad rd self,
      Match_init a0 a1 r0 r1 m e f ad rd = Ok self ->
      length self = astop self - astart self
      /\ 0 < length self /\ errors self < length self
      /\ forall a, adapter self = Some a ->
           (inject_Z (errors self)
            <= inject_Z (length self) * adapter_max_error_rate a)%Q)
  /\ (forall (ext : AlignExt) (self : InsertAligner) (seq1 seq2 : pyseq)
             (r : InsertResult),
        locate_in_bounds ext -> constructed self ->
        @match_insert ext self seq1 seq2 = Ok r ->
        (forall m, adapter1_match r = Some m ->
                   insert_match_valid m (adapter1 self) seq1)
        /\ (forall m, adapter2_match r = Some m ->
                      insert_match_valid m (adapter2 self) seq2))
  /\ (forall (ext : AlignExt) (ad : Adapter) (rd : Read) (flags : Z)
             (wr wq : bool) (min_overlap indel_cost : Z) (m : Match),
        locate_in_bounds ext ->
        @adapter_match ext
          (adapter_aligner ad flags wr wq min_overlap indel_cost) ad rd
        = Ok (Some m) ->
        match_valid m (adapter_sequence ad) (adapter_max_error_rate ad)
                    (read_sequence rd))
  /\ locate_in_bounds spec_ext.
Proof.
  split; [|split; [apply match_insert_matches_valid |
                   split; [apply adapter_match_valid |
                           apply spec_locate_in_bounds]]].
  apply Match_init_invariants.
Qed.

Lemma match_validity_amended_witness :
  match_insert paired_aligner noisy_seq1 noisy_seq2
  = Ok (R4 (Some (T6 13 33 0 20 20 0)) 20 (Some noisy_match) (Some noisy_match))
  /\ insert_match_valid noisy_match (adapter1 paired_aligner) noisy_seq1.
Proof.
  assert (E : match_insert paired_aligner noisy_seq1 noisy_seq2
              = Ok (R4 (Some (T6 13 33 0 20 20 0)) 20
                       (Some noisy_match) (Some noisy_match)))
    by (vm_compute; reflexivity).
  split; [exact E|].
  exact (proj1 (proj1 (proj2 match_validity_amended)
                  spec_ext paired_aligner noisy_seq1 noisy_seq2 _
                  (proj2 (proj2 (proj2 match_validity_amended)))
                  (InsertAligner_init_constructed _ _ _ _ _ _ _ _ _ _) E)
               noisy_match eq_refl).
Defined.

(** *** Where the assertions cannot fail *)

Lemma py_len_slice_from (s : pyseq) (k : Z) :
  0 <= k <= py_len s -> py_len (py_slice_from s k) = py_len s - k.
Proof.
  intros Hk. unfold py_slice_from. rewrite py_clip_inside by assumption.
  unfold py_len in *. rewrite length_skipn. lia.
Qed.

Lemma truncate_inputs_len2 (seq1 seq2 : pyseq) :
  py_len (snd (truncate_inputs seq1 seq2)) = Z.min (py_len seq1) (py_len seq2).
Proof.
  unfold truncate_inputs. rewrite !Z.gtb_ltb.
  pose proof (py_len_nonneg seq1).
  destruct (Z.ltb_spec (py_len seq2) (py_len seq1)); cbn [snd]; [lia|].
  destruct (Z.ltb_spec (py_len seq1) (py_len seq2)); cbn [snd].
  - rewrite py_len_slice_to; lia.
  - lia.
Qed.

Lemma Qceiling_pos (q : Q) : (0 < q)%Q -> 1 <= Qceiling q.
Proof.
  intros Hq. pose proof (Qle_ceiling q) as Hc.
  assert (Hlt : (inject_Z 0 < inject_Z (Qceiling q))%Q)
    by (eapply Qlt_le_trans; eassumption).
  rewrite <- Zlt_Qlt in Hlt. lia.
Qed.

(** ** The rounding to a double keeps a positive number positive *)

Lemma round_half_even_ge (a b : Z) : a / b <= round_half_even a b.
Proof.
  unfold round_half_even.
  destruct (2 * (a mod b) <? b); [lia|].
  destruct (b <? 2 * (a mod b)); [lia|].
  destruct (Z.even (a / b)); lia.
Qed.

Lemma scaled_ge (n d k : Z) :
  0 < n -> 0 < d -> Z.log2 d + 1 - Z.log2 n <= k ->
  0 < snd (scaled n d k) <= fst (scaled n d k).
Proof.
  intros Hn Hd Hk. unfold scaled.
  pose proof (Z.log2_spec n Hn) as [Hn1 Hn2].
  pose proof (Z.log2_spec d Hd) as [Hd1 Hd2].
  pose proof (Z.log2_nonneg n) as Hln. pose proof (Z.log2_nonneg d) as Hld.
  destruct (Z.leb_spec 0 k); cbn [fst snd].
  - split; [lia|].
    assert (Hp : 2 ^ Z.succ (Z.log2 d) <= 2 ^ (Z.log2 n + k))
      by (apply Z.pow_le_mono_r; lia).
    rewrite Z.pow_add_r in Hp by lia.
    assert (Hk2 : 0 < 2 ^ k) by (apply Z.pow_pos_nonneg; lia). nia.
  - assert (Hk2 : 0 < 2 ^ (- k)) by (apply Z.pow_pos_nonneg; lia).
    split; [nia|].
    assert (Hp : 2 ^ (Z.succ (Z.log2 d) + - k) <= 2 ^ Z.log2 n)
      by (apply Z.pow_le_mono_r; lia).
    rewrite Z.pow_add_r in Hp by lia. nia.
Qed.

Lemma floor_log2_le (n d : Z) : floor_log2 n d <= Z.log2 n - Z.log2 d.
Proof.
  unfold floor_log2. destruct (scaled n d _) as [a b0].
  destruct (b0 <=? a); lia.
Qed.

Lemma binary64_of_fraction_pos (n d : Z) :
  0 < n -> 0 < d -> (0 < binary64_of_fraction n d)%Q.
Proof.
  intros Hn Hd. unfold binary64_of_fraction.
  pose proof (floor_log2_le n d) as He.
  set (e := floor_log2 n d) in *.
  pose proof (Z.log2_nonneg n) as Hln. pose proof (Z.log2_nonneg d) as Hld.
  pose proof (scaled_ge n d (52 - e) Hn Hd ltac:(lia)) as Hs.
  destruct (scaled n d (52 - e)) as [a b0]. cbn [fst snd] in Hs.
  assert (Hm : 0 < round_half_even a b0).
  { pose proof (round_half_even_ge a b0).
    assert (0 < a / b0) by (apply Z.div_str_pos; lia). lia. }
  destruct (Z.leb_spec 0 (52 - e)).
  - unfold Qlt. cbn. lia.
  - assert (0 < 2 ^ (e - 52)) by (apply Z.pow_pos_nonneg; lia).
    unfold Qlt, inject_Z. cbn. nia.
Qed.

Lemma binary64_pos (x : Q) : (0 < x)%Q -> (0 < binary64 x)%Q.
Proof.
  intros Hx. unfold binary64. unfold Qlt in Hx. cbn in Hx.
  destruct (Qnum x) as [|p|p] eqn:E; try lia.
  apply binary64_of_fraction_pos; lia.
Qed.

(** The rounding agrees with the primitive floats on every product of a
    length up to 30 and a fraction of hundredths. *)
Example binary64_agrees_with_primitive_floats :
  forallb (fun p => Qeq_bool (py_float_mul (py_float (inject_Z (fst p)))
                                           (py_float (snd p)))
                             (prim_product (fst p) (snd p)))
          float_grid = true.
Proof. vm_compute. reflexivity. Qed.

(** The float product and the exact one give different thresholds:
    [25 * 0.56] is the double [14.000000000000002], with ceiling 15, where
    the exact product is 14; at the default fraction [0.8] and the adapter
    lengths of the examples the two agree. *)
Example float_ceiling_examples :
  math_ceil (py_float_mul (py_float 25) (py_float (56 # 100))) = 15
  /\ Qceiling (25 * (56 # 100)) = 14
  /\ Qred (py_float (8 # 10)) = 3602879701896397 # 4503599627370496
  /\ math_ceil (py_float_mul (py_float 3) (py_float (8 # 10))) = 3
  /\ math_ceil (py_float_mul (py_float 13) (py_float (8 # 10))) = 11.
Proof. repeat split; vm_compute; reflexivity. Qed.

(** With 14 of 25 adapter bases matching on either side and a fraction
    of 0.56, the threshold is [math.ceil(25 * 0.56) = 15] and the
    match-count gate returns the insert match without adapter matches. *)
Example count_gate_uses_float_ceiling :
  match_insert fraction_aligner half_seq1 half_seq2
  = Ok (R4 (Some (T6 25 45 0 20 20 0)) 20 None None)
  /\ item4 (compare_prefixes (py_slice_from half_seq1 20) long_adapter
                             false false) = 14.
Proof. split; vm_compute; reflexivity. Qed.

(** The threshold of the match-count gate is at least 1 for an adapter
    length of at least 1 and a positive fraction. *)
Lemma min_adapter_matches_pos (L : Z) (frac : Q) :
  1 <= L -> (0 < frac)%Q ->
  1 <= math_ceil (py_float_mul (py_float (inject_Z L)) (py_float frac)).
Proof.
  intros HL Hfrac. unfold math_ceil, py_float_mul, py_float.
  apply Qceiling_pos. apply binary64_pos.
  apply Qmult_lt_0_compat; apply binary64_pos; [|exact Hfrac].
  unfold Qlt, inject_Z. cbn. lia.
Qed.

Lemma Match_init_succeeds a1 r0 r1 m e :
  0 < a1 -> e < a1 ->
  exists self, Match_init 0 a1 r0 r1 m e None None None = Ok self.
Proof.
  intros Hpos Herr. unfold Match_init. rewrite !Z.gtb_ltb.
  destruct (Z.ltb_spec 0 (a1 - 0)); [|lia].
  destruct (Z.ltb_spec 0 (a1 - 0 - e)); [|lia].
  cbn [negb]. eauto.
Qed.

(** With the comparison and the aligner of the specification, two
    non-empty adapters of the same length, a minimum adapter overlap of at
    least 1, a positive minimum match fraction and a match probability that
    strictly decreases in the number of matches, [match_insert] raises
    nothing: the better side has at least one match, and its mismatches
    stay below the aligned length of either record. *)
Lemma match_insert_safe_equal_adapters (self : InsertAligner)
    (seq1 seq2 : pyseq) :
  constructed self ->
  0 < py_len (adapter1 self) ->
  py_len (adapter1 self) = py_len (adapter2 self) ->
  1 <= min_adapter_overlap self ->
  (0 < min_adapter_match_frac self)%Q ->
  (forall n m1 m2, 0 <= m1 < m2 -> m2 <= n ->
                   (match_probability self m2 n < match_probability self m1 n)%Q) ->
  exists r, @match_insert spec_ext self seq1 seq2 = Ok r.
Proof.
  intros [Hc1 Hc2] Hpos Heq Hov Hfrac Hmono.
  rewrite match_insert_unfold. unfold align_truncated.
  pose proof (truncate_inputs_len1 seq1 seq2) as Hl1.
  pose proof (truncate_inputs_len2 seq1 seq2) as Hl2.
  set (s1 := fst (truncate_inputs seq1 seq2)) in *.
  set (s2 := snd (truncate_inputs seq1 seq2)) in *.
  set (n := Z.min (py_len seq1) (py_len seq2)) in *.
  destruct (locate _ s1) as [im|] eqn:Hloc; [|eauto].
  apply spec_locate_in_bounds in Hloc. rewrite Hl1 in Hloc.
  unfold after_insert_match.
  set (offset := Z.min (item0 im) (n - item3 im)).
  destruct (insert_is_random_match _ _ _); [eauto|].
  destruct (Z.ltb_spec offset (min_adapter_overlap self)); [eauto|].
  rewrite Hc1, Hc2, <- Heq.
  set (A := py_len (adapter1 self)) in *.
  set (L := Z.min offset (Z.min A A)).
  assert (HL : 1 <= L /\ L = Z.min offset A) by (subst L offset; lia).
  destruct (compare_prefixes_shape (py_slice_from s1 (n - offset))
              (adapter1 self) false false) as (m1 & e1 & E1 & Hm1 & He1 & Hs1).
  destruct (compare_prefixes_shape (py_slice_from s2 (n - offset))
              (adapter2 self) false false) as (m2 & e2 & E2 & Hm2 & He2 & Hs2).
  rewrite py_len_slice_from in Hs1, Hs2 by (subst offset; lia).
  fold A in Hs1. rewrite <- Heq in Hs2. fold A in Hs2.
  rewrite E1, E2. cbn [item4 item5].
  assert (Hmin : 1 <= math_ceil
                        (py_float_mul (py_float (inject_Z L))
                                      (py_float (min_adapter_match_frac self))))
    by (apply min_adapter_matches_pos; [lia | exact Hfrac]).
  destruct ((m1 <? _) && (m2 <? _)) eqn:Hgate; [eauto|].
  assert (Hsome : 1 <= m1 \/ 1 <= m2).
  { apply andb_false_iff in Hgate. destruct Hgate as [Hg | Hg];
      apply Z.ltb_ge in Hg; lia. }
  unfold adapter_match_probabilities.
  destruct ((L >? adapter_check_cutoff self) && _); [eauto|].
  unfold emit_adapter_matches. cbn [item4 item5].
  rewrite Hc1, Hc2, <- Heq. fold A.
  set (p1 := match_probability self m1 L).
  set (p2 := match_probability self m2 L).
  destruct (Qlt_bool p1 p2) eqn:Hlt; cbn [item4 item5].
  - assert (1 <= m1).
    { destruct (Z.le_gt_cases 1 m1) as [|Hz]; [assumption|]. exfalso.
      assert (Hp : (p2 < p1)%Q) by (apply Hmono; lia).
      unfold Qlt_bool in Hlt. apply negb_true_iff in Hlt.
      assert (Hle : (p2 <= p1)%Q) by now apply Qlt_le_weak.
      apply Qle_bool_iff in Hle. congruence. }
    destruct (Match_init_succeeds (Z.min A (py_len seq1 - (n - offset)))
                (n - offset) (py_len seq1) m1 e1) as [x1 ->];
      [subst offset n; lia | subst offset n; lia |].
    destruct (Match_init_succeeds (Z.min A (py_len seq2 - (n - offset)))
                (n - offset) (py_len seq2) m1 e1) as [x2 ->];
      [subst offset n; lia | subst offset n; lia |].
    rsimpl. eauto.
  - assert (1 <= m2).
    { destruct (Z.le_gt_cases 1 m2) as [|Hz]; [assumption|]. exfalso.
      assert (Hp : (p1 < p2)%Q) by (apply Hmono; lia).
      unfold Qlt_bool in Hlt. apply negb_false_iff in Hlt.
      apply Qle_bool_iff in Hlt. exact (Qlt_not_le _ _ Hp Hlt). }
    destruct (Match_init_succeeds (Z.min A (py_len seq1 - (n - offset)))
                (n - offset) (py_len seq1) m2 e2) as [x1 ->];
      [subst offset n; lia | subst offset n; lia |].
    destruct (Match_init_succeeds (Z.min A (py_len seq2 - (n - offset)))
                (n - offset) (py_len seq2) m2 e2) as [x2 ->];
      [subst offset n; lia | subst offset n; lia |].
    rsimpl. eauto.
Qed.

(** *** The match probability of the specification *)

Lemma factorial_pos (n : nat) : 0 < factorial n.
Proof. induction n as [|n IH]; cbn [factorial]; nia. Qed.

Lemma factorial_mul_le (k j : nat) :
  factorial k * factorial j <= factorial (k + j).
Proof.
  induction j as [|j IH].
  - rewrite Nat.add_0_r. cbn [factorial]. lia.
  - replace (k + S j)%nat with (S (k + j)) by lia.
    change (factorial (S j)) with (Z.of_nat (S j) * factorial j).
    change (factorial (S (k + j))) with (Z.of_nat (S (k + j)) * factorial (k + j)).
    pose proof (factorial_pos k). pose proof (factorial_pos j).
    pose proof (factorial_pos (k + j)). nia.
Qed.

Lemma choose_pos (n k : nat) : (k <= n)%nat -> 0 < choose n k.
Proof.
  intros Hk. unfold choose. apply Z.div_str_pos.
  pose proof (factorial_pos k). pose proof (factorial_pos (n - k)).
  pose proof (factorial_mul_le k (n - k)) as Hle.
  replace (k + (n - k))%nat with n in Hle by lia. nia.
Qed.

Lemma tail_sum_mono (f : nat -> Z) (ks : list nat) (m1 m2 : Z) :
  (forall k, In k ks -> 0 <= f k) -> m1 <= m2 ->
  fold_right (fun k acc => f k + acc) 0
             (List.filter (fun k => m2 <=? Z.of_nat k) ks)
  <= fold_right (fun k acc => f k + acc) 0
                (List.filter (fun k => m1 <=? Z.of_nat k) ks).
Proof.
  intros Hf Hm. induction ks as [|k ks IH]; [cbn; lia|].
  assert (IH' := IH (fun k' Hk' => Hf k' (or_intror Hk'))).
  pose proof (Hf k (or_introl eq_refl)).
  cbn [List.filter].
  destruct (Z.leb_spec m2 (Z.of_nat k)), (Z.leb_spec m1 (Z.of_nat k));
    cbn [fold_right]; lia.
Qed.

Lemma tail_sum_strict (f : nat -> Z) (ks : list nat) (m1 m2 : Z) (k0 : nat) :
  (forall k, In k ks -> 0 <= f k) -> m1 <= m2 ->
  In k0 ks -> m1 <= Z.of_nat k0 < m2 -> 0 < f k0 ->
  fold_right (fun k acc => f k + acc) 0
             (List.filter (fun k => m2 <=? Z.of_nat k) ks)
  < fold_right (fun k acc => f k + acc) 0
               (List.filter (fun k => m1 <=? Z.of_nat k) ks).
Proof.
  intros Hf Hm Hin Hk0 Hpos. induction ks as [|k ks IH]; [destruct Hin|].
  pose proof (tail_sum_mono f ks m1 m2 (fun k' Hk' => Hf k' (or_intror Hk')) Hm)
    as Hmono.
  pose proof (Hf k (or_introl eq_refl)).
  cbn [List.filter]. destruct Hin as [-> | Hin].
  - destruct (Z.leb_spec m2 (Z.of_nat k0)); [lia|].
    destruct (Z.leb_spec m1 (Z.of_nat k0)); [|lia].
    cbn [fold_right]. lia.
  - specialize (IH (fun k' Hk' => Hf k' (or_intror Hk')) Hin).
    destruct (Z.leb_spec m2 (Z.of_nat k)), (Z.leb_spec m1 (Z.of_nat k));
      cbn [fold_right]; lia.
Qed.

(** More matches are strictly less probable. *)
Lemma RandomMatchProbability_decreasing (n m1 m2 : Z) :
  0 <= m1 < m2 -> m2 <= n ->
  (RandomMatchProbability m2 n < RandomMatchProbability m1 n)%Q.
Proof.
  intros Hm Hn. unfold RandomMatchProbability, Qlt. cbn [Qnum Qden].
  set (n' := Z.to_nat n).
  set (f := fun k : nat => choose n' k * 3 ^ Z.of_nat (n' - k)).
  assert (Hf : forall k, In k (seq 0 (S n')) -> 0 < f k).
  { intros k Hk. apply in_seq in Hk. subst f. cbn beta.
    pose proof (choose_pos n' k ltac:(lia)).
    assert (0 < 3 ^ Z.of_nat (n' - k)) by (apply Z.pow_pos_nonneg; lia).
    nia. }
  apply Zmult_lt_compat_r; [lia|].
  apply (tail_sum_strict f _ m1 m2 (Z.to_nat m1)).
  - intros k Hk. apply Hf in Hk. lia.
  - lia.
  - apply in_seq. subst n'. lia.
  - lia.
  - apply Hf. apply in_seq. subst n'. lia.
Qed.

(** X3. With the default settings, the match probability of the
    specification and two non-empty adapters of the same length,
    [match_insert] raises nothing, whatever the two reads are. *)
Lemma match_insert_default_safe (a1 a2 seq1 seq2 : pyseq) :
  0 < py_len a1 -> py_len a1 = py_len a2 ->
  exists r,
    @match_insert spec_ext (InsertAligner_default a1 a2 RandomMatchProbability)
                  seq1 seq2 = Ok r.
Proof.
  intros Hpos Heq. apply match_insert_safe_equal_adapters.
  - apply InsertAligner_init_constructed.
  - exact Hpos.
  - exact Heq.
  - cbn. lia.
  - reflexivity.
  - intros n m1 m2 Hm Hn. now apply RandomMatchProbability_decreasing.
Qed.

(** ** The order-preserving writer *)

Lemma write_all_fields {R : Type} (vs : list R) :
  forall self : Handler R,
    write_all self vs
    = {| writers := writers R self; compressed := compressed R self;
         use_suffix := use_suffix R self; pending := pending R self;
         cur_batch := cur_batch R self;
         written :=
           written R self
           ++ map (fun v => {| wc_target := writers R self; wc_result := v;
                               wc_compressed := compressed R self |}) vs |}.
Proof.
  induction vs as [|v vs IH]; intros self; unfold write_all in *.
  - cbn. rewrite app_nil_r. now destruct self.
  - cbn [fold_left map]. rewrite IH. cbn. now rewrite <- app_assoc.
Qed.

(** The loop of the specification flushes the contiguous run at the head
    of the queue: with the results [vs] queued under the batch numbers
    [cur_batch], [cur_batch + 1], ... and the rest of the queue starting at
    another number, it writes [vs] in order, leaves the rest and expects the
    batch after the run. *)
Lemma consume_pending_spec_flushes {R : Type} (vs : list R) :
  forall (fuel : nat) (self : Handler R) (others : Pending.PendingQueue R),
    pending R self = numbered (cur_batch R self) vs ++ others ->
    Pending.min_priority others
    <> Some (cur_batch R self + Z.of_nat (List.length vs)) ->
    (List.length vs + List.length others <= fuel)%nat ->
    consume_pending_spec R fuel self
    = set_cur_batch R (set_pending R (write_all self vs) others)
                    (cur_batch R self + Z.of_nat (List.length vs)).
Proof.
  induction vs as [|v vs IH]; intros fuel self others Hp Hmin Hfuel.
  - cbn [numbered app List.length] in *. rewrite Z.add_0_r in *.
    destruct self as [w c u p cb wr]. cbn in *. subst p.
    destruct fuel as [|fuel]; [reflexivity|]. cbn.
    destruct others as [|[p0 v0] others']; [reflexivity|].
    destruct (Z.eqb_spec cb p0); [|reflexivity].
    exfalso. apply Hmin. cbn. now subst.
  - destruct fuel as [|fuel]; [cbn in Hfuel; lia|].
    cbn [consume_pending_spec]. rewrite Hp. cbn [numbered app].
    rewrite Z.eqb_refl.
    rewrite IH with (others := others).
    + rewrite !write_all_fields. destruct self as [w c u p cb wr]. cbn.
      rewrite <- app_assoc. cbn [app]. f_equal. lia.
    + destruct self as [w c u p cb wr]. reflexivity.
    + destruct self as [w c u p cb wr]. cbn in *.
      replace (cb + 1 + Z.of_nat (List.length vs))
        with (cb + Z.of_nat (S (List.length vs))) by lia. exact Hmin.
    + cbn [List.length] in Hfuel. lia.
Qed.

Lemma write_result_spec_flushes {R : Type} (self : Handler R) (r : R)
    (vs : list R) (others : Pending.PendingQueue R) :
  pending R self = numbered (cur_batch R self + 1) vs ++ others ->
  Pending.min_priority others
  <> Some (cur_batch R self + 1 + Z.of_nat (List.length vs)) ->
  write_result_spec R self (cur_batch R self) r
  = set_cur_batch R (set_pending R (write_all self (r :: vs)) others)
                  (cur_batch R self + 1 + Z.of_nat (List.length vs)).
Proof.
  intros Hp Hmin. unfold write_result_spec. rewrite Z.eqb_refl.
  rewrite (consume_pending_spec_flushes vs _ _ others).
  - rewrite !write_all_fields. destruct self as [w c u p cb wr]. cbn.
    rewrite <- app_assoc. reflexivity.
  - destruct self as [w c u p cb wr]. exact Hp.
  - destruct self as [w c u p cb wr]. exact Hmin.
  - destruct self as [w c u p cb wr]. cbn in *. subst p.
    rewrite length_app. 
    assert (Hn : forall (l : list R) c0, List.length (numbered c0 l) = List.length l).
    { induction l as [|x l IHl]; intros c0; cbn; [reflexivity | now rewrite IHl]. }
    rewrite Hn. lia.
Qed.

(** C2. [write_result] on a batch that is not the expected one buffers it
    in the queue; on the expected batch with an empty queue it writes and
    expects the next one; on the expected batch with a non-empty queue it
    writes, expects the next one and then raises [NameError] from
    [consume_pending], whatever the queue holds.  After [start], the
    results of batch 2 and then batch 1: the second call raises, only the
    result of batch 1 has been written and batch 2 stays in the queue, where
    the loop on the instance's queue writes both in order and expects
    batch 3. *)
Theorem order_preserving_writer_name_error :
  (forall (R : Type) (self : Handler R) (n : Z) (r : R),
      n <> cur_batch R self ->
      write_result R self n r
      = (Ok tt, set_pending R self (Pending.push (pending R self) n r)))
  /\ (forall (R : Type) (self : Handler R) (r : R),
        pending R self = [] ->
        write_result R self (cur_batch R self) r
        = (Ok tt, set_cur_batch R (call_write_result R self r)
                                (cur_batch R self + 1)))
  /\ (forall (R : Type) (self : Handler R) (r : R),
        pending R self <> [] ->
        write_result R self (cur_batch R self) r
        = (Raise (NameError "pending"),
           set_cur_batch R (call_write_result R self r) (cur_batch R self + 1)))
  /\ (let h0 := start string new_handler 0 in
      let h1 := snd (write_result string h0 2 "second"%string) in
      let h2 := snd (write_result string h1 1 "first"%string) in
      fst (write_result string h0 2 "second"%string) = Ok tt
      /\ fst (write_result string h1 1 "first"%string)
         = Raise (NameError "pending")
      /\ map (wc_result string) (written string h2) = ["first"%string]
      /\ pending string h2 = [(2, "second"%string)]
      /\ cur_batch string h2 = 2
      /\ let s2 := write_result_spec string
                     (write_result_spec string h0 2 "second"%string)
                     1 "first"%string in
         map (wc_result string) (written string s2)
         = ["first"%string; "second"%string]
         /\ pending string s2 = [] /\ cur_batch string s2 = 3).
Proof.
  split; [|split; [|split]].
  - intros R self n r Hn. unfold write_result.
    destruct (Z.eqb_spec n (cur_batch R self)); [contradiction|reflexivity].
  - intros R self r Hp. unfold write_result, consume_pending.
    rewrite Z.eqb_refl. cbn. now rewrite Hp.
  - intros R self r Hp. unfold write_result, consume_pending.
    rewrite Z.eqb_refl. cbn.
    destruct (pending R self) as [|x q]; [contradiction|reflexivity].
  - cbn. repeat split; reflexivity.
Qed.

(** ** [run_parallel] *)

Lemma range_set_spec (lo hi b : Z) : b ∈ range_set lo hi <-> lo <= b < hi.
Proof.
  unfold range_set. rewrite elem_of_list_to_set, list_elem_of_In, in_map_iff.
  split.
  - intros (k & <- & Hk). apply in_py_range in Hk. lia.
  - intros Hb. exists (b - lo). split; [lia|]. apply in_py_range. lia.
Qed.

Lemma collect_summaries_alive {PS AS : Type}
    (batches : list (worker_summary PS AS)) :
  forall seen_summaries seen_batches,
    List.Forall alive batches ->
    exists ss sb,
      collect_summaries PS AS batches seen_summaries seen_batches = Ok (ss, sb)
      /\ forall b, b ∈ sb <-> b ∈ seen_batches \/ covered batches b.
Proof.
  induction batches as [|w more IH]; intros ss0 sb0 Hall.
  - exists ss0, sb0. split; [reflexivity|].
    intros b0. split; [now left|]. intros [Hb | (w & [] & _)]. exact Hb.
  - inversion Hall as [|? ? [[ps Hps] [ast Hast]] Hmore]; subst.
    cbn [collect_summaries]. rewrite Hps, Hast.
    destruct (IH ({[ws_index PS AS w]} ∪ ss0) (sb0 ∪ ws_batches PS AS w) Hmore)
      as (ss & sb & -> & Hsb).
    exists ss, sb. split; [reflexivity|].
    intros b0. rewrite Hsb, elem_of_union. unfold covered. split.
    + intros [[Hb | Hb] | (w' & Hin & Hb)].
      * now left.
      * right. exists w. split; [now left | exact Hb].
      * right. exists w'. split; [now right | exact Hb].
    + intros [Hb | (w' & [-> | Hin] & Hb)].
      * left. now left.
      * left. now right.
      * right. exists w'. now split.
Qed.

(** C7. When every worker has sent a complete summary and
    [num_batches > 0]: if some batch number of [1 .. num_batches] is in no
    worker's [seen_batches], the run raises the exception that names
    exactly the missing batch numbers; if every batch number is in some
    worker's set, the check raises nothing. *)
Theorem missing_batches_check {PS AS : Type} (num_batches : Z)
    (batches : list (worker_summary PS AS)) :
  List.Forall alive batches ->
  0 < num_batches ->
  ((exists b, 1 <= b <= num_batches /\ ~ covered batches b) ->
   exists missing,
     finish_run PS AS num_batches batches = Raise (MissingBatches missing)
     /\ forall b, b ∈ missing <-> 1 <= b <= num_batches /\ ~ covered batches b)
  /\ ((forall b, 1 <= b <= num_batches -> covered batches b) ->
      finish_run PS AS num_batches batches = Ok tt).
Proof.
  intros Hall Hn. unfold finish_run.
  destruct (collect_summaries_alive batches ∅ ∅ Hall) as (ss & sb & -> & Hsb).
  rsimpl. unfold check_batches. rewrite !Z.gtb_ltb.
  destruct (Z.ltb_spec 0 num_batches); [|lia].
  set (missing := range_set 1 (num_batches + 1) ∖ sb).
  assert (Hmiss : forall b, b ∈ missing
                            <-> 1 <= b <= num_batches /\ ~ covered batches b).
  { intros b0. subst missing.
    rewrite elem_of_difference, range_set_spec, Hsb. split.
    - intros [Hr Hnot]. split; [lia|]. intros Hc. apply Hnot. now right.
    - intros [Hr Hnc]. split; [lia|].
      intros [Hb | Hc]; [exact (not_elem_of_empty b0 Hb) | auto]. }
  split.
  - intros (b0 & Hb & Hnc).
    assert (Hin : b0 ∈ missing) by (apply Hmiss; now split).
    destruct (Z.ltb_spec 0 (Z.of_nat (size missing))) as [Hpos | Hzero].
    + exists missing. split; [reflexivity | exact Hmiss].
    + exfalso. assert (Hs : size missing = 0%nat) by lia.
      apply size_empty_iff in Hs. rewrite Hs in Hin.
      exact (not_elem_of_empty b0 Hin).
  - intros Hcov.
    assert (Hempty : missing = ∅).
    { apply set_eq. intros b0. rewrite Hmiss. split.
      - intros [Hr Hnc]. exfalso. apply Hnc. now apply Hcov.
      - intros Hb. exfalso. exact (not_elem_of_empty b0 Hb). }
    rewrite Hempty, size_empty. reflexivity.
Qed.

Lemma missing_batches_check_witness :
  finish_run unit unit 3 complete_summaries = Ok tt
  /\ exists missing,
      finish_run unit unit 3 incomplete_summaries = Raise (MissingBatches missing)
      /\ 2 ∈ missing /\ 1 ∉ missing.
Proof.
  assert (Hc : List.Forall alive complete_summaries).
  { repeat constructor; cbn; eauto. }
  assert (Hi : List.Forall alive incomplete_summaries).
  { repeat constructor; cbn; eauto. }
  split.
  - apply (proj2 (missing_batches_check 3 complete_summaries Hc eq_refl)).
    intros b0 Hb.
    assert (Hcases : b0 = 1 \/ b0 = 2 \/ b0 = 3) by lia.
    destruct Hcases as [-> | [-> | ->]].
    + eexists. split; [left; reflexivity|]. cbn.
      apply elem_of_union_l. now apply elem_of_singleton.
    + eexists. split; [right; left; reflexivity|]. cbn.
      now apply elem_of_singleton.
    + eexists. split; [left; reflexivity|]. cbn.
      apply elem_of_union_r. now apply elem_of_singleton.
  - assert (Hn2 : ~ covered incomplete_summaries 2).
    { intros (w & [<- | [<- | []]] & Hw); cbn in Hw;
        apply elem_of_singleton in Hw; discriminate. }
    destruct (proj1 (missing_batches_check 3 incomplete_summaries Hi eq_refl))
      as (missing & E & Hm).
    { exists 2. split; [lia | exact Hn2]. }
    exists missing. split; [exact E|]. split.
    + apply Hm. split; [lia | exact Hn2].
    + intros H1. apply Hm in H1. destruct H1 as [_ H1]. apply H1.
      eexists. split; [left; reflexivity|]. cbn. now apply elem_of_singleton.
Defined.

(** C10. For every [threads < 2], [run_parallel] raises [ValueError]
    after the debug log entry and before any queue, control or process is
    created; for [threads >= 2] the check does not fire and the set-up goes
    on to create the three queues and to launch the workers. *)
Theorem run_parallel_threads_check (RETRY_INTERVAL : Z)
    (can_use_system_compression : bool) (threads timeout : Z)
    (preserve_order : bool) (input_queue_size result_queue_size : Z)
    (use_writer_process : bool) (compression : option string) :
  let run := run_parallel_setup RETRY_INTERVAL can_use_system_compression
               threads timeout preserve_order input_queue_size
               result_queue_size use_writer_process compression in
  (threads < 2 ->
   run = (Raise (ValueError "'threads' must be >= 2"), [LogDebug threads timeout])
   /\ List.filter creates_resource (snd run) = [])
  /\ (2 <= threads ->
      exists su, fst run = Ok su
                 /\ In (NewQueue input_queue_size) (snd run)
                 /\ In (NewQueue result_queue_size) (snd run)
                 /\ In (NewQueue (su_threads su)) (snd run)
                 /\ In (LaunchWorkers (su_threads su - 1) 0) (snd run)
                 /\ threads - 1 <= su_threads su <= threads).
Proof.
  intros run. subst run. unfold run_parallel_setup. split.
  - intros Hlt. destruct (Z.ltb_spec threads 2); [|lia]. split; reflexivity.
  - intros Hge. destruct (Z.ltb_spec threads 2); [lia|].
    eexists. split; [reflexivity|]. cbn [fst snd su_threads].
    repeat split.
    + destruct use_writer_process; rewrite ?in_app_iff; cbn; tauto.
    + destruct use_writer_process; rewrite ?in_app_iff; cbn; tauto.
    + destruct use_writer_process; rewrite ?in_app_iff; cbn; tauto.
    + destruct use_writer_process; rewrite ?in_app_iff; cbn; tauto.
    + destruct (_ && _); lia.
    + destruct (_ && _); lia.
Qed.

Lemma run_parallel_threads_check_witness :
  run_parallel_setup 1 true 1 30 false 0 0 true None
  = (Raise (ValueError "'threads' must be >= 2"), [LogDebug 1 30])
  /\ exists su, fst (run_parallel_setup 1 true 4 30 false 0 0 true None) = Ok su.
Proof.
  split.
  - apply (proj1 (run_parallel_threads_check 1 true 1 30 false 0 0 true None)).
    reflexivity.
  - destruct (proj2 (run_parallel_threads_check 1 true 4 30 false 0 0 true None))
      as (su & E & _); [discriminate|].
    exists su. exact E.
Defined.

(** * Further properties of the code *)

(** ** [Match.rest], [Match.copy] and [Match.get_info_record] *)

Lemma py_slice_0 (s : pyseq) (k : Z) : py_slice s 0 k = py_slice_to s k.
Proof.
  unfold py_slice, py_slice_to.
  assert (E : py_clip (py_len s) 0 = 0).
  { unfold py_clip. cbn. pose proof (py_len_nonneg s). lia. }
  rewrite E. cbn [Z.to_nat skipn]. now rewrite Z.sub_0_r.
Qed.

Lemma py_clip_range (n i : Z) : 0 <= n -> 0 <= py_clip n i <= n.
Proof. intros Hn. unfold py_clip. destruct (Z.ltb_spec i 0); lia. Qed.

Lemma py_clip_mono (n i j : Z) : 0 <= i <= j -> py_clip n i <= py_clip n j.
Proof.
  intros Hij. unfold py_clip.
  destruct (Z.ltb_spec i 0), (Z.ltb_spec j 0); lia.
Qed.

Lemma skipn_skipn_add {A : Type} (l : list A) (x y : nat) :
  skipn x (skipn y l) = skipn (x + y) l.
Proof.
  revert l. induction y as [|y IH]; intros l.
  - now rewrite Nat.add_0_r.
  - destruct l as [|a l]; [now rewrite !skipn_nil|].
    replace (x + S y)%nat with (S (x + y)) by lia. cbn [skipn]. apply IH.
Qed.

(** Three consecutive slices give the sequence back. *)
Lemma py_slice_partition (s : pyseq) (lo hi : Z) :
  0 <= lo <= hi ->
  py_slice s 0 lo ++ py_slice s lo hi ++ py_slice_from s hi = s.
Proof.
  intros Hb. rewrite py_slice_0. unfold py_slice_to, py_slice, py_slice_from.
  pose proof (py_len_nonneg s) as Hn.
  pose proof (py_clip_range (py_len s) lo Hn).
  pose proof (py_clip_range (py_len s) hi Hn).
  pose proof (py_clip_mono (py_len s) lo hi Hb).
  set (x := py_clip (py_len s) lo) in *. set (y := py_clip (py_len s) hi) in *.
  replace (skipn (Z.to_nat y) s)
    with (skipn (Z.to_nat (y - x)) (skipn (Z.to_nat x) s)).
  - now rewrite !firstn_skipn.
  - rewrite skipn_skipn_add. f_equal. lia.
Qed.

Lemma py_len_slice (s : pyseq) (lo hi : Z) :
  0 <= lo <= hi -> hi <= py_len s -> py_len (py_slice s lo hi) = hi - lo.
Proof.
  intros Hb Hn. unfold py_slice.
  rewrite !py_clip_inside by lia.
  unfold py_len in *. rewrite length_firstn, length_skipn. lia.
Qed.

Lemma get_info_record_fields (self : Match) (rd : Read) (mi : MatchInfo) :
  read self = Some rd ->
  get_info_record self = Ok mi ->
  let seq := read_sequence rd in
  let qualities := match read_qualities rd with Some q => q | None => [] end in
  mi_seq_before mi = py_slice seq 0 (rstart self)
  /\ mi_seq_adapter mi = py_slice seq (rstart self) (rstop self)
  /\ mi_seq_after mi = py_slice_from seq (rstop self)
  /\ mi_qual_before mi = py_slice qualities 0 (rstart self)
  /\ mi_qual_adapter mi = py_slice qualities (rstart self) (rstop self)
  /\ mi_qual_after mi = py_slice_from qualities (rstop self)
  /\ mi_rsize_adapter mi = rstop self - rstart self
  /\ mi_rsize_total mi
     = (if front self && (rstart self >? 0) then rstop self
        else if negb (front self) && (rstop self <? py_len seq)
             then py_len seq - rstart self
             else rstop self - rstart self).
Proof.
  intros Hrd. unfold get_info_record. rewrite Hrd. rsimpl.
  destruct (adapter self) as [ad|]; rsimpl; [|discriminate].
  intros Hmi. inversion Hmi; subst mi; cbn.
  destruct (read_qualities rd); repeat split; reflexivity.
Qed.

(** X1. In the record of [get_info_record] for a match with
    [0 <= rstart <= rstop], the sequence before the adapter, the matched
    part and the sequence after it are consecutive pieces of the read:
    concatenated they give the read sequence, and the three quality fields
    give the quality string in the same way (the empty string when the read
    has no qualities). *)
Theorem info_record_reassembles (self : Match) (rd : Read) (mi : MatchInfo) :
  read self = Some rd ->
  0 <= rstart self <= rstop self ->
  get_info_record self = Ok mi ->
  mi_seq_before mi ++ mi_seq_adapter mi ++ mi_seq_after mi = read_sequence rd
  /\ mi_qual_before mi ++ mi_qual_adapter mi ++ mi_qual_after mi
     = match read_qualities rd with Some q => q | None => [] end.
Proof.
  intros Hrd Hb Hmi.
  destruct (get_info_record_fields self rd mi Hrd Hmi)
    as (-> & -> & -> & -> & -> & -> & _).
  split; now apply py_slice_partition.
Qed.

Lemma info_record_reassembles_witness :
  exists mi,
    get_info_record info_match = Ok mi
    /\ mi_seq_before mi ++ mi_seq_adapter mi ++ mi_seq_after mi = b "ACGTAG"
    /\ mi_qual_before mi ++ mi_qual_adapter mi ++ mi_qual_after mi = b "IIHHGG".
Proof.
  eexists. split; [reflexivity|].
  apply (info_record_reassembles info_match info_read).
  - reflexivity.
  - cbn. lia.
  - reflexivity.
Defined.

(** X2. For a match that lies inside its read,
    [0 <= rstart <= rstop <= len(sequence)], the sizes of the info record
    are the lengths of its pieces: [rsize_adapter] is the length of the
    matched part, and [rsize_total] is the length of everything that a trim
    removes, the part before the match together with the match for a front
    adapter, the match together with the part after it otherwise. *)
Theorem info_record_sizes (self : Match) (rd : Read) (mi : MatchInfo) :
  read self = Some rd ->
  0 <= rstart self <= rstop self ->
  rstop self <= py_len (read_sequence rd) ->
  get_info_record self = Ok mi ->
  mi_rsize_adapter mi = py_len (mi_seq_adapter mi)
  /\ mi_rsize_total mi
     = (if front self
        then py_len (mi_seq_before mi) + py_len (mi_seq_adapter mi)
        else py_len (mi_seq_adapter mi) + py_len (mi_seq_after mi)).
Proof.
  intros Hrd Hb Hn Hmi.
  destruct (get_info_record_fields self rd mi Hrd Hmi)
    as (-> & -> & -> & _ & _ & _ & -> & ->).
  rewrite !py_len_slice by lia. rewrite py_len_slice_from by lia.
  split; [reflexivity|].
  rewrite Z.gtb_ltb.
  destruct (front self); cbn [andb negb].
  - destruct (Z.ltb_spec 0 (rstart self)); lia.
  - destruct (Z.ltb_spec (rstop self) (py_len (read_sequence rd))); lia.
Qed.

Lemma info_record_sizes_witness :
  exists mi,
    get_info_record info_match = Ok mi
    /\ mi_rsize_adapter mi = 3 /\ mi_rsize_total mi = 3.
Proof.
  eexists. split; [reflexivity|].
  apply (info_record_sizes info_match info_read).
  - reflexivity.
  - cbn. lia.
  - vm_compute. discriminate.
  - reflexivity.
Defined.

(** [rest] and [get_info_record] agree: whenever the info record can be
    built, [rest()] returns its [seq_before] for a front adapter and its
    [seq_after] otherwise, for every value of the positions. *)
Lemma rest_agrees_with_info_record (self : Match) (mi : MatchInfo) :
  get_info_record self = Ok mi ->
  rest self = Ok (if front self then mi_seq_before mi else mi_seq_after mi).
Proof.
  intros Hmi. destruct (read self) as [rd|] eqn:Hrd.
  - destruct (get_info_record_fields self rd mi Hrd Hmi) as (-> & _ & -> & _).
    unfold rest. rewrite Hrd. rsimpl. rewrite py_slice_0.
    now destruct (front self).
  - unfold get_info_record in Hmi. rewrite Hrd in Hmi. discriminate.
Qed.

(** X4. A match constructed without the [front] argument is taken for a
    front adapter exactly when it starts at the first base of the read, so
    its [rest()] is empty when [rstart = 0], whatever follows the match in
    the read, and is the read after [rstop] in every other case. *)
Theorem rest_of_guessed_front (a0 a1 r0 r1 m e : Z) (ad : option Adapter)
    (rd : Read) (self : Match) :
  Match_init a0 a1 r0 r1 m e None ad (Some rd) = Ok self ->
  rest self
  = Ok (if r0 =? 0 then [] else py_slice_from (read_sequence rd) r1).
Proof.
  intros Hok.
  assert (Hf : front self = (r0 =? 0)).
  { unfold Match_init in Hok.
    destruct (negb _); [discriminate|].
    destruct (negb _); [discriminate|].
    destruct ad as [a|]; [destruct (Qle_bool _ _); [|discriminate]|];
      inversion Hok; reflexivity. }
  apply Match_init_ok in Hok.
  destruct Hok as (_ & _ & Hr0 & Hr1 & _ & _ & _ & Hrd & _).
  unfold rest. rewrite Hrd. rsimpl. rewrite Hf, Hr0, Hr1.
  destruct (Z.eqb_spec r0 0) as [->|]; [|reflexivity].
  unfold py_slice_to, py_clip. cbn.
  pose proof (py_len_nonneg (read_sequence rd)).
  replace (Z.min 0 (py_len (read_sequence rd))) with 0 by lia. reflexivity.
Qed.

Lemma rest_of_guessed_front_witness :
  exists self,
    Match_init 0 3 0 3 3 0 None None (Some info_read) = Ok self
    /\ rest self = Ok [].
Proof.
  eexists. split; [reflexivity|].
  apply (rest_of_guessed_front 0 3 0 3 3 0 None info_read). reflexivity.
Defined.

(** X5. [copy] of a match that the constructor returned is that match
    again: the assertions hold a second time and every field, the guessed
    [front] included, is kept. *)
Theorem copy_round_trip (a0 a1 r0 r1 m e : Z) (f : option bool)
    (ad : option Adapter) (rd : option Read) (self : Match) :
  Match_init a0 a1 r0 r1 m e f ad rd = Ok self ->
  Match_copy self = Ok self.
Proof.
  unfold Match_copy, Match_init.
  destruct (negb (a1 - a0 >? 0)) eqn:E1; [discriminate|].
  destruct (negb (a1 - a0 - e >? 0)) eqn:E2; [discriminate|].
  destruct ad as [a|].
  - destruct (Qle_bool _ _) eqn:E3; [|discriminate].
    intros Hok. inversion Hok; subst self; cbn. now rewrite E1, E2, E3.
  - intros Hok. inversion Hok; subst self; cbn. now rewrite E1, E2.
Qed.

Lemma copy_round_trip_witness :
  exists self,
    Match_init 0 3 3 6 3 0 None (Some info_adapter) (Some info_read) = Ok self
    /\ Match_copy self = Ok self.
Proof.
  eexists. split; [reflexivity|].
  apply (copy_round_trip 0 3 3 6 3 0 None (Some info_adapter) (Some info_read)).
  reflexivity.
Defined.

(** ** The results of [match_insert] *)

(** The ways in which [match_insert] returns a list. *)
Lemma match_insert_outcomes `{AlignExt} (self : InsertAligner)
    (seq1 seq2 : pyseq) (r : InsertResult) :
  let seq_len := Z.min (py_len seq1) (py_len seq2) in
  match_insert self seq1 seq2 = Ok r ->
  r = R4 None 0 None None
  \/ exists im,
       locate (insert_overlap_aligner self
                 (reverse_complement (snd (truncate_inputs seq1 seq2))))
              (fst (truncate_inputs seq1 seq2)) = Some im
       /\ let offset := Z.min (item0 im) (seq_len - item3 im) in
          let ims := seq_len - offset in
          insert_is_random_match self (item4 im) ims = false
          /\ (r = R4 (Some im) ims None None
              \/ (offset <? min_adapter_overlap self) = false
                 /\ exists bm be m1 m2,
                      Match_init 0 (Z.min (adapter1_len self) (py_len seq1 - ims))
                                 ims (py_len seq1) bm be None None None = Ok m1
                      /\ Match_init 0 (Z.min (adapter2_len self) (py_len seq2 - ims))
                                    ims (py_len seq2) bm be None None None = Ok m2
                      /\ r = R4 (Some im) ims (Some m1) (Some m2)).
Proof.
  intros seq_len. rewrite match_insert_unfold. fold seq_len.
  unfold align_truncated.
  destruct (locate _ _) as [im|] eqn:Hloc.
  2:{ intros Hr; inversion Hr. now left. }
  unfold after_insert_match.
  set (offset := Z.min (item0 im) (seq_len - item3 im)).
  set (ims := seq_len - offset).
  destruct (insert_is_random_match self (item4 im) ims) eqn:Hrand.
  { intros Hr; inversion Hr. now left. }
  intros Hr. right. exists im. split; [reflexivity|]. cbn zeta.
  fold offset ims. split; [exact Hrand|].
  destruct (offset <? min_adapter_overlap self) eqn:Hov.
  { inversion Hr. now left. }
  destruct (_ && _) in Hr.
  { inversion Hr. now left. }
  unfold adapter_match_probabilities in Hr.
  destruct (_ && _) in Hr.
  { inversion Hr. now left. }
  right. split; [reflexivity|].
  unfold emit_adapter_matches in Hr.
  match type of Hr with context [Match_init ?a ?b ?c ?d ?e ?f ?g ?h ?i ≫= _] =>
    destruct (Match_init a b c d e f g h i) as [m1|] eqn:E1 end;
    rsimpl_in Hr; [|discriminate].
  match type of Hr with context [Match_init ?a ?b ?c ?d ?e ?f ?g ?h ?i ≫= _] =>
    destruct (Match_init a b c d e f g h i) as [m2|] eqn:E2 end;
    rsimpl_in Hr; [|discriminate].
  inversion Hr. eexists _, _, m1, m2. repeat split; eassumption.
Qed.

Lemma py_range_pos (n : Z) :
  0 < n -> exists tl, py_range n = 0 :: tl.
Proof.
  intros Hn. unfold py_range.
  destruct (Z.to_nat n) as [|k] eqn:E; [lia|].
  cbn [seq map]. eauto.
Qed.

(** X6. The [Match] objects that [match_insert] returns carry neither the
    read nor the adapter: until a caller sets these two fields, [rest()],
    [get_info_record()] and [wildcards()] raise [AttributeError] on them. *)
Theorem insert_matches_are_detached `{AlignExt} (self : InsertAligner)
    (seq1 seq2 : pyseq) (r : InsertResult) (m : Match) :
  match_insert self seq1 seq2 = Ok r ->
  adapter1_match r = Some m \/ adapter2_match r = Some m ->
  read m = None /\ adapter m = None
  /\ rest m = Raise AttributeError
  /\ get_info_record m = Raise AttributeError
  /\ forall wildcard_char, wildcards m wildcard_char = Raise AttributeError.
Proof.
  intros Hr Hm.
  assert (Hdet : read m = None /\ adapter m = None /\ 0 < length m).
  { apply match_insert_outcomes in Hr.
    destruct Hr as [-> | (im & _ & _ & [-> | (_ & bm & be & m1 & m2 & E1 & E2 & ->)])];
      cbn in Hm; try (destruct Hm; discriminate).
    apply Match_init_ok in E1. apply Match_init_ok in E2.
    destruct Hm as [Hm | Hm]; inversion Hm; subst m.
    - destruct E1 as (_ & _ & _ & _ & _ & _ & -> & -> & -> & Hpos & _).
      repeat split; lia.
    - destruct E2 as (_ & _ & _ & _ & _ & _ & -> & -> & -> & Hpos & _).
      repeat split; lia. }
  destruct Hdet as (Hrd & Had & Hlen).
  repeat split; try assumption.
  - unfold rest. now rewrite Hrd.
  - unfold get_info_record. now rewrite Hrd.
  - intros c. unfold wildcards.
    destruct (py_range_pos _ Hlen) as [tl ->].
    cbn [wildcards_items]. now rewrite Had.
Qed.

Lemma insert_matches_are_detached_witness :
  exists r m,
    match_insert scenario4_aligner scenario4_seq1 scenario4_seq2 = Ok r
    /\ adapter1_match r = Some m
    /\ rest m = Raise AttributeError.
Proof.
  eexists _, _. split; [vm_compute; reflexivity|]. split; [reflexivity|].
  refine (proj1 (proj2 (proj2 (insert_matches_are_detached
            scenario4_aligner scenario4_seq1 scenario4_seq2 _ _ _ _)))).
  - vm_compute. reflexivity.
  - left. reflexivity.
Defined.

Lemma Match_init_front a0 a1 r0 r1 m e f ad rd self :
  Match_init a0 a1 r0 r1 m e f ad rd = Ok self ->
  front self = match f with None => r0 =? 0 | Some v => v end.
Proof.
  unfold Match_init.
  destruct (negb _); [discriminate|].
  destruct (negb _); [discriminate|].
  destruct ad as [a|]; [destruct (Qle_bool _ _); [|discriminate]|];
    intros Hok; inversion Hok; reflexivity.
Qed.

(** X7. The shape of every list that [match_insert] returns.  Without an
    insert match it is [[None, 0, None, None]]; the two adapter matches are
    present together or absent together; and when present both start in
    their read at the insert size and end at the end of their read, and
    both carry the same numbers of matches and of errors (those of the
    better side) and the same [front] flag. *)
Theorem match_insert_result_shape `{AlignExt} (self : InsertAligner)
    (seq1 seq2 : pyseq) (r : InsertResult) :
  match_insert self seq1 seq2 = Ok r ->
  (insert_match r = None -> r = R4 None 0 None None)
  /\ (adapter1_match r = None <-> adapter2_match r = None)
  /\ forall m1 m2,
       adapter1_match r = Some m1 -> adapter2_match r = Some m2 ->
       rstart m1 = insert_size r /\ rstart m2 = insert_size r
       /\ rstop m1 = py_len seq1 /\ rstop m2 = py_len seq2
       /\ matches m1 = matches m2 /\ errors m1 = errors m2
       /\ front m1 = front m2.
Proof.
  intros Hr. apply match_insert_outcomes in Hr.
  destruct Hr as [-> | (im & _ & _ & [-> | (_ & bm & be & n1 & n2 & E1 & E2 & ->)])];
    cbn [insert_match adapter1_match adapter2_match insert_size].
  - repeat split; try discriminate; reflexivity.
  - repeat split; try discriminate; reflexivity.
  - split; [discriminate|]. split; [split; discriminate|].
    intros m1 m2 H1 H2. inversion H1; subst n1. inversion H2; subst n2.
    pose proof (Match_init_front _ _ _ _ _ _ _ _ _ _ E1) as F1.
    pose proof (Match_init_front _ _ _ _ _ _ _ _ _ _ E2) as F2.
    apply Match_init_ok in E1. apply Match_init_ok in E2.
    destruct E1 as (_ & _ & -> & -> & -> & -> & _).
    destruct E2 as (_ & _ & -> & -> & -> & -> & _).
    rewrite F1, F2. repeat split; reflexivity.
Qed.

Lemma match_insert_result_shape_witness :
  exists r,
    match_insert scenario4_aligner scenario4_seq1 scenario4_seq2 = Ok r
    /\ (adapter1_match r = None <-> adapter2_match r = None).
Proof.
  eexists. split; [vm_compute; reflexivity|].
  refine (proj1 (proj2 (match_insert_result_shape
            scenario4_aligner scenario4_seq1 scenario4_seq2 _ _))).
  vm_compute. reflexivity.
Defined.

(** X8. With an aligner that returns positions inside its sequences, the
    insert size that [match_insert] reports lies between 0 and the length
    of the shorter read; a reported insert match is never a random one,
    [P(matches, insert_size) <= insert_max_rmp]; and adapter matches are
    only reported when at least [min_adapter_overlap] bases of the shorter
    read lie beyond the insert. *)
Theorem insert_size_bounds (ext : AlignExt) (self : InsertAligner)
    (seq1 seq2 : pyseq) (r : InsertResult) :
  locate_in_bounds ext ->
  @match_insert ext self seq1 seq2 = Ok r ->
  let seq_len := Z.min (py_len seq1) (py_len seq2) in
  0 <= insert_size r <= seq_len
  /\ (forall im, insert_match r = Some im ->
        (match_probability self (item4 im) (insert_size r)
         <= insert_max_rmp self)%Q)
  /\ (adapter1_match r <> None ->
      insert_size r + min_adapter_overlap self <= seq_len).
Proof.
  intros Hb Hr seq_len.
  pose proof (py_len_nonneg seq1). pose proof (py_len_nonneg seq2).
  apply match_insert_outcomes in Hr.
  destruct Hr as [-> | (im & Hloc & Hrand & Hcase)].
  { cbn. repeat split; try lia; [discriminate | congruence]. }
  apply Hb in Hloc. rewrite truncate_inputs_len1 in Hloc. fold seq_len in Hloc.
  fold seq_len in Hrand, Hcase.
  set (offset := Z.min (item0 im) (seq_len - item3 im)) in *.
  unfold insert_is_random_match in Hrand. apply Qgt_bool_false in Hrand.
  assert (Hoff : 0 <= offset <= seq_len) by (subst offset; lia).
  destruct Hcase as [-> | (Hov & bm & be & m1 & m2 & _ & _ & ->)];
    cbn [insert_match adapter1_match insert_size].
  - repeat split; try lia; [|congruence].
    intros im' Him. inversion Him; subst im'. exact Hrand.
  - apply Z.ltb_ge in Hov. repeat split; try lia.
    intros im' Him. inversion Him; subst im'. exact Hrand.
Qed.

Lemma insert_size_bounds_witness :
  exists r,
    match_insert scenario4_aligner scenario4_seq1 scenario4_seq2 = Ok r
    /\ 0 <= insert_size r <= 25.
Proof.
  eexists. split; [vm_compute; reflexivity|].
  refine (proj1 (insert_size_bounds spec_ext scenario4_aligner
                   scenario4_seq1 scenario4_seq2 _ spec_locate_in_bounds _)).
  vm_compute. reflexivity.
Defined.

(** X9. Reads too short for an adapter.  With an aligner that returns
    positions inside its sequences, when the shorter read has fewer than
    [min_adapter_overlap] bases (an empty read, for instance)
    [match_insert] raises nothing and reports no adapter match. *)
Theorem short_reads_have_no_adapter_match (ext : AlignExt)
    (self : InsertAligner) (seq1 seq2 : pyseq) :
  locate_in_bounds ext ->
  Z.min (py_len seq1) (py_len seq2) < min_adapter_overlap self ->
  exists r,
    @match_insert ext self seq1 seq2 = Ok r
    /\ adapter1_match r = None /\ adapter2_match r = None.
Proof.
  intros Hb Hshort. rewrite match_insert_unfold. unfold align_truncated.
  destruct (locate _ _) as [im|] eqn:Hloc; [|eexists; repeat split].
  apply Hb in Hloc. rewrite truncate_inputs_len1 in Hloc.
  unfold after_insert_match.
  destruct (insert_is_random_match _ _ _); [eexists; repeat split|].
  match goal with |- context [?o <? min_adapter_overlap self] =>
    destruct (Z.ltb_spec o (min_adapter_overlap self)) end;
    [eexists; repeat split | lia].
Qed.

Lemma short_reads_have_no_adapter_match_witness :
  exists r,
    match_insert cautious_aligner short_seq1 short_seq2 = Ok r
    /\ adapter1_match r = None /\ adapter2_match r = None.
Proof.
  apply (short_reads_have_no_adapter_match spec_ext cautious_aligner
           short_seq1 short_seq2 spec_locate_in_bounds).
  vm_compute. reflexivity.
Defined.

Lemma match_insert_default_safe_witness :
  exists r,
    match_insert (InsertAligner_default (b "AGATCGGAAGA") (b "AGATCGGAAGA")
                    RandomMatchProbability)
                 scenario4_seq1 scenario4_seq2 = Ok r.
Proof.
  apply (match_insert_default_safe (b "AGATCGGAAGA") (b "AGATCGGAAGA")
           scenario4_seq1 scenario4_seq2); reflexivity.
Defined.

(** ** Sequences of deliveries to the order-preserving writer *)

Lemma numbered_length {R : Type} (vs : list R) (c : Z) :
  List.length (numbered c vs) = List.length vs.
Proof.
  revert c. induction vs as [|v vs IH]; intros c; cbn; [reflexivity|].
  now rewrite IH.
Qed.

Lemma numbered_fst {R : Type} (vs : list R) (c n : Z) :
  In n (map fst (numbered c vs)) -> c <= n < c + Z.of_nat (List.length vs).
Proof.
  revert c. induction vs as [|v vs IH]; intros c; cbn [numbered map In List.length fst].
  - intros [].
  - intros [<- | Hin]; [lia|]. apply IH in Hin. lia.
Qed.

Lemma numbered_snd {R : Type} (vs : list R) (c : Z) :
  map snd (numbered c vs) = vs.
Proof.
  revert c. induction vs as [|v vs IH]; intros c; cbn; [reflexivity|].
  now rewrite IH.
Qed.

Lemma push_not_nil {R : Type} (q : Pending.PendingQueue R) (n : Z) (r : R) :
  Pending.push q n r <> [].
Proof.
  destruct q as [|[p v] q]; cbn; [discriminate|].
  destruct (n <? p); discriminate.
Qed.

Lemma push_length {R : Type} (q : Pending.PendingQueue R) (n : Z) (r : R) :
  List.length (Pending.push q n r) = S (List.length q).
Proof.
  induction q as [|[p v] q IH]; cbn; [reflexivity|].
  destruct (n <? p); cbn; [reflexivity | now rewrite IH].
Qed.

Lemma write_results_app {R : Type} (xs ys : list (Z * R)) :
  forall self : Handler R,
    write_results self (xs ++ ys)
    = match write_results self xs with
      | (Ok _, self') => write_results self' ys
      | (Raise e, self') => (Raise e, self')
      end.
Proof.
  induction xs as [|[n r] xs IH]; intros self; cbn [app write_results].
  - reflexivity.
  - destruct (write_result R self n r) as [[u|e] self']; [apply IH | reflexivity].
Qed.

(** The batches arrive in order on an empty queue: each is written. *)
Lemma write_results_in_order {R : Type} (vs : list R) :
  forall self : Handler R,
    pending R self = [] ->
    write_results self (numbered (cur_batch R self) vs)
    = (Ok tt, set_cur_batch R (write_all self vs)
                            (cur_batch R self + Z.of_nat (List.length vs))).
Proof.
  induction vs as [|v vs IH]; intros self Hp.
  - cbn. rewrite Z.add_0_r. now destruct self.
  - rewrite (write_all_fields (v :: vs)).
    cbn [numbered write_results]. unfold write_result, consume_pending.
    rewrite Z.eqb_refl.
    destruct self as [w c u p cb wr]. cbn in Hp. subst p. cbn.
    match goal with |- write_results ?s _ = _ =>
      pose proof (IH s eq_refl) as Hs end.
    cbn in Hs. rewrite Hs. rewrite !write_all_fields.
    unfold set_cur_batch. cbn. rewrite <- app_assoc. cbn.
    do 2 f_equal. lia.
Qed.

(** No arrival is the awaited batch: all of them are buffered. *)
Lemma write_results_buffered {R : Type} (rest : list (Z * R)) :
  forall self : Handler R,
    List.Forall (fun p => fst p <> cur_batch R self) rest ->
    exists q,
      write_results self rest = (Ok tt, set_pending R self q)
      /\ List.length q = (List.length (pending R self) + List.length rest)%nat
      /\ (rest <> [] -> q <> []).
Proof.
  induction rest as [|[n r] rest IH]; intros self Hall.
  - exists (pending R self). cbn. split; [now destruct self|].
    split; [lia | congruence].
  - inversion Hall as [|? ? Hn Hrest]; subst. cbn [fst] in Hn.
    cbn [write_results]. unfold write_result.
    destruct (Z.eqb_spec n (cur_batch R self)); [contradiction|].
    destruct (IH (set_pending R self (Pending.push (pending R self) n r)))
      as (q & Hq & Hlen & Hne); [exact Hrest|].
    exists q. rewrite Hq. cbn in Hlen |- *. split; [reflexivity|].
    rewrite push_length in Hlen. split; [lia|].
    intros _. destruct q; [cbn in Hlen; lia | discriminate].
Qed.

(** With something buffered, the awaited batch makes the run raise. *)
Lemma write_results_raise {R : Type} (mid : list (Z * R)) :
  forall (self : Handler R) (r : R) (rest : list (Z * R)),
    pending R self <> [] ->
    List.Forall (fun p => fst p <> cur_batch R self) mid ->
    fst (write_results self (mid ++ (cur_batch R self, r) :: rest))
    = Raise (NameError "pending").
Proof.
  induction mid as [|[n v] mid IH]; intros self r rest Hp Hall.
  - cbn [app write_results]. unfold write_result, consume_pending.
    rewrite Z.eqb_refl. cbn.
    destruct (pending R self); [contradiction | reflexivity].
  - inversion Hall as [|? ? Hn Hmid]; subst. cbn [fst] in Hn.
    cbn [app write_results]. unfold write_result.
    destruct (Z.eqb_spec n (cur_batch R self)); [contradiction|].
    apply (IH (set_pending R self (Pending.push (pending R self) n v))).
    + cbn. apply push_not_nil.
    + exact Hmid.
Qed.

(** Every sequence of arrivals is a run of in-order batches followed by
    arrivals that are all buffered, or has the awaited batch arrive after
    something was buffered. *)
Lemma arrivals_split {R : Type} (arrivals : list (Z * R)) (c : Z) :
  (exists vs rest,
      arrivals = numbered c vs ++ rest
      /\ List.Forall (fun p => fst p <> c + Z.of_nat (List.length vs)) rest)
  \/ (exists vs mid r rest,
         arrivals = numbered c vs ++ mid
                    ++ (c + Z.of_nat (List.length vs), r) :: rest
         /\ mid <> []
         /\ List.Forall (fun p => fst p <> c + Z.of_nat (List.length vs)) mid).
Proof.
  revert c. induction arrivals as [|[n v] more IH]; intros c.
  - left. exists [], []. split; [reflexivity | constructor].
  - destruct (Z.eq_dec n c) as [-> | Hn].
    + destruct (IH (c + 1)) as [(vs & rest & -> & Hall)
                               | (vs & mid & r & rest & -> & Hmid & Hall)].
      * left. exists (v :: vs), rest. cbn [numbered app List.length].
        split; [reflexivity|].
        replace (c + Z.of_nat (S (List.length vs)))
          with (c + 1 + Z.of_nat (List.length vs)) by lia. exact Hall.
      * right. exists (v :: vs), mid, r, rest. cbn [numbered app List.length].
        replace (c + Z.of_nat (S (List.length vs)))
          with (c + 1 + Z.of_nat (List.length vs)) by lia.
        repeat split; assumption.
    + assert (Hdec : forall l : list (Z * R),
                 List.Forall (fun p => fst p <> c) l
                 \/ exists mid r rest,
                      l = mid ++ (c, r) :: rest
                      /\ List.Forall (fun p => fst p <> c) mid).
      { induction l as [|[k x] l IHl].
        - left. constructor.
        - destruct (Z.eq_dec k c) as [-> | Hk].
          + right. exists [], x, l. split; [reflexivity | constructor].
          + destruct IHl as [Hall | (mid & r & rest & -> & Hall)].
            * left. constructor; [exact Hk | exact Hall].
            * right. exists ((k, x) :: mid), r, rest.
              split; [reflexivity|]. constructor; [exact Hk | exact Hall]. }
      destruct (Hdec more) as [Hall | (mid & r & rest & -> & Hall)].
      * left. exists [], ((n, v) :: more). cbn [numbered app List.length].
        rewrite Z.add_0_r. split; [reflexivity|].
        constructor; [exact Hn | exact Hall].
      * right. exists [], ((n, v) :: mid), r, rest.
        cbn [numbered app List.length]. rewrite Z.add_0_r.
        repeat split; [discriminate|].
        constructor; [exact Hn | exact Hall].
Qed.

Lemma start_fields {R : Type} (h : Handler R) (worker_index : Z) :
  start R h worker_index
  = {| writers := WorkerObject worker_index; compressed := false;
       use_suffix := false; pending := []; cur_batch := 1;
       written := written R h |}.
Proof. reflexivity. Qed.

(** The state after a run of in-order batches followed by arrivals that
    are all buffered. *)
Lemma write_results_prefix {R : Type} (h : Handler R) (worker_index : Z)
    (vs : list R) (rest : list (Z * R)) :
  List.Forall (fun p => fst p <> 1 + Z.of_nat (List.length vs)) rest ->
  exists h',
    write_results (start R h worker_index) (numbered 1 vs ++ rest) = (Ok tt, h')
    /\ written R h' = written R h ++ map (worker_write worker_index) vs
    /\ cur_batch R h' = 1 + Z.of_nat (List.length vs)
    /\ List.length (pending R h') = List.length rest
    /\ writers R h' = WorkerObject worker_index.
Proof.
  intros Hall. rewrite write_results_app.
  pose proof (write_results_in_order vs (start R h worker_index) eq_refl) as Hin.
  cbn [cur_batch start set_cur_batch] in Hin. rewrite Hin.
  match goal with |- context [write_results ?s rest] =>
    destruct (write_results_buffered rest s) as (q & Hq & Hlen & _) end.
  { exact Hall. }
  rewrite Hq. eexists. split; [reflexivity|].
  rewrite write_all_fields in Hlen |- *. cbn in Hlen |- *.
  repeat split; try reflexivity. lia.
Qed.

(** X10. After [start], when the batches 1, 2, ..., k arrive in this order
    and every later arrival has a number other than [k + 1], no call
    raises; the results of these k batches are written in order, all to
    the worker object that [start] put in place of the writers; and every
    later arrival stays in the queue: a result that was buffered is never
    written. *)
Theorem in_order_batches_are_written {R : Type} (h : Handler R)
    (worker_index : Z) (vs : list R) (rest : list (Z * R)) :
  List.Forall (fun p => fst p <> 1 + Z.of_nat (List.length vs)) rest ->
  exists h',
    write_results (start R h worker_index) (numbered 1 vs ++ rest) = (Ok tt, h')
    /\ written R h' = written R h ++ map (worker_write worker_index) vs
    /\ cur_batch R h' = 1 + Z.of_nat (List.length vs)
    /\ List.length (pending R h') = List.length rest.
Proof.
  intros Hall.
  destruct (write_results_prefix h worker_index vs rest Hall)
    as (h' & E & Hw & Hc & Hp & _).
  exists h'. repeat split; assumption.
Qed.

Lemma in_order_batches_are_written_witness :
  exists h',
    write_results (start string new_handler 0)
                  [(1, "a"%string); (2, "b"%string); (4, "d"%string)]
    = (Ok tt, h')
    /\ written string h' = [worker_write 0 "a"%string; worker_write 0 "b"%string]
    /\ cur_batch string h' = 3
    /\ List.length (pending string h') = 1%nat.
Proof.
  apply (in_order_batches_are_written new_handler 0
           ["a"%string; "b"%string] [(4, "d"%string)]).
  repeat constructor. cbn. lia.
Defined.

Lemma write_results_raises {R : Type} (h : Handler R) (worker_index : Z)
    (vs : list R) (mid : list (Z * R)) (r : R) (rest : list (Z * R)) :
  mid <> [] ->
  List.Forall (fun p => fst p <> 1 + Z.of_nat (List.length vs)) mid ->
  fst (write_results (start R h worker_index)
         (numbered 1 vs ++ mid ++ (1 + Z.of_nat (List.length vs), r) :: rest))
  = Raise (NameError "pending").
Proof.
  intros Hmid Hall. rewrite write_results_app.
  pose proof (write_results_in_order vs (start R h worker_index) eq_refl) as Hin.
  cbn [cur_batch start set_cur_batch] in Hin. rewrite Hin.
  destruct mid as [|[n v] mid]; [contradiction|].
  inversion Hall as [|? ? Hn Hrest]; subst. cbn [fst] in Hn.
  cbn [app write_results]. unfold write_result. cbn [cur_batch set_cur_batch].
  destruct (Z.eqb_spec n (1 + Z.of_nat (List.length vs))); [contradiction|].
  match goal with |- fst (write_results ?s _) = _ =>
    apply (write_results_raise mid s r rest) end.
  - cbn. apply push_not_nil.
  - exact Hrest.
Qed.

(** X11. After [start], a sequence of deliveries raises, and then it is
    the [NameError] of [consume_pending], exactly when some result arrives
    ahead of its turn and the awaited batch arrives after it: the arrivals
    are the batches 1 to k in order, then at least one arrival with another
    number than [k + 1], then batch [k + 1]. *)
Theorem deliveries_raise_iff {R : Type} (h : Handler R) (worker_index : Z)
    (arrivals : list (Z * R)) :
  (fst (write_results (start R h worker_index) arrivals) <> Ok tt
   <-> exists vs mid r rest,
         arrivals = numbered 1 vs ++ mid
                    ++ (1 + Z.of_nat (List.length vs), r) :: rest
         /\ mid <> []
         /\ List.Forall (fun p => fst p <> 1 + Z.of_nat (List.length vs)) mid)
  /\ (fst (write_results (start R h worker_index) arrivals) = Ok tt
      \/ fst (write_results (start R h worker_index) arrivals)
         = Raise (NameError "pending")).
Proof.
  destruct (arrivals_split arrivals 1)
    as [(vs & rest & -> & Hall) | (vs & mid & r & rest & -> & Hmid & Hall)].
  - destruct (write_results_prefix h worker_index vs rest Hall) as (h' & E & _).
    rewrite E. cbn [fst]. split; [|now left]. split; [congruence|].
    intros (vs' & mid' & r' & rest' & Heq & Hmid' & Hall'). exfalso.
    pose proof (write_results_raises h worker_index vs' mid' r' rest' Hmid' Hall')
      as Hr.
    rewrite <- Heq, E in Hr. discriminate.
  - rewrite (write_results_raises h worker_index vs mid r rest Hmid Hall).
    split; [|now right]. split; [|discriminate].
    intros _. exists vs, mid, r, rest. repeat split; assumption.
Qed.

(** X12. When each of the batches 1 to N is delivered once, the
    order-preserving handler gets through the deliveries without an
    exception exactly when they arrive already in the order 1, 2, ..., N. *)
Theorem complete_delivery_needs_order {R : Type} (h : Handler R)
    (worker_index : Z) (arrivals : list (Z * R)) :
  (forall n, 1 <= n <= Z.of_nat (List.length arrivals) ->
             In n (map fst arrivals)) ->
  (fst (write_results (start R h worker_index) arrivals) = Ok tt
   <-> arrivals = numbered 1 (map snd arrivals)).
Proof.
  intros Hcomplete. split.
  - intros Hok.
    destruct (arrivals_split arrivals 1)
      as [(vs & rest & E & Hall) | (vs & mid & r & rest & E & Hmid & Hall)].
    + destruct rest as [|p rest].
      * rewrite app_nil_r in E. rewrite E at 2. rewrite numbered_snd. exact E.
      * exfalso.
        assert (Hin : In (1 + Z.of_nat (List.length vs)) (map fst arrivals)).
        { apply Hcomplete. rewrite E, length_app, numbered_length.
          cbn [List.length]. lia. }
        rewrite E, map_app, in_app_iff in Hin. destruct Hin as [Hin | Hin].
        -- apply numbered_fst in Hin. lia.
        -- apply in_map_iff in Hin. destruct Hin as (q & Hq & Hin).
           rewrite List.Forall_forall in Hall. exact (Hall q Hin Hq).
    + exfalso. subst arrivals.
      rewrite (write_results_raises h worker_index vs mid r rest Hmid Hall) in Hok.
      discriminate.
  - intros E. rewrite E.
    destruct (write_results_prefix h worker_index (map snd arrivals) []
                (List.Forall_nil _)) as (h' & Hw & _).
    rewrite app_nil_r in Hw. now rewrite Hw.
Qed.

Lemma complete_delivery_needs_order_witness :
  fst (write_results (start string new_handler 0)
         [(1, "a"%string); (2, "b"%string); (3, "c"%string)]) = Ok tt
  /\ fst (write_results (start string new_handler 0)
            [(1, "a"%string); (3, "c"%string); (2, "b"%string)]) <> Ok tt.
Proof.
  split.
  - apply (complete_delivery_needs_order new_handler 0
             [(1, "a"%string); (2, "b"%string); (3, "c"%string)]).
    + cbn. intros n Hn.
      assert (Hc : n = 1 \/ n = 2 \/ n = 3) by lia.
      destruct Hc as [-> | [-> | ->]]; tauto.
    + reflexivity.
  - intros Hok.
    apply (complete_delivery_needs_order new_handler 0
             [(1, "a"%string); (3, "c"%string); (2, "b"%string)]) in Hok.
    + discriminate.
    + cbn. intros n Hn.
      assert (Hc : n = 1 \/ n = 3 \/ n = 2) by lia.
      destruct Hc as [-> | [-> | ->]]; tauto.
Defined.

(** X13. [finish] after the batches 1 to N were delivered in order: the
    handler then expects batch [N + 1], so [finish(total_batches)] reaches
    the call [self.writers.close()] exactly for [total_batches = N + 1];
    called with N, the number of batches written, it raises the exception
    about batches not seen before that call; and [finish(None)] reaches
    the call. *)
Theorem finish_counts_one_more {R : Type} (h : Handler R) (worker_index : Z)
    (vs : list R) (t : Z) :
  let h' := snd (write_results (start R h worker_index) (numbered 1 vs)) in
  let N := Z.of_nat (List.length vs) in
  (fst (finish h' (Some t)) = WritersClosed <-> t = N + 1)
  /\ fst (finish h' (Some N)) = NotSeenAll N
  /\ fst (finish h' None) = WritersClosed.
Proof.
  intros h' N. subst h'.
  pose proof (write_results_in_order vs (start R h worker_index) eq_refl) as Hin.
  cbn [cur_batch start set_cur_batch] in Hin. rewrite Hin. cbn [snd].
  rewrite write_all_fields. unfold finish, consume_pending. cbn.
  fold N. repeat split.
  - destruct (Z.eqb_spec (1 + N) t); cbn; [lia | discriminate].
  - intros ->. destruct (Z.eqb_spec (1 + N) (N + 1)); [reflexivity | lia].
  - destruct (Z.eqb_spec (1 + N) N); [lia | reflexivity].
Qed.

(** X14. [finish] with results still buffered.  After the batches 1 to k
    in order and at least one arrival, none of them batch [k + 1]:
    [finish(total_batches)] with a number raises the [NameError] of
    [consume_pending] for every value of the number, before the call
    [self.writers.close()]; [finish(None)] goes to that call with every
    buffered result unwritten. *)
Theorem finish_with_buffered_results {R : Type} (h : Handler R)
    (worker_index : Z) (vs : list R) (rest : list (Z * R)) (t : Z) :
  rest <> [] ->
  List.Forall (fun p => fst p <> 1 + Z.of_nat (List.length vs)) rest ->
  let h' := snd (write_results (start R h worker_index)
                   (numbered 1 vs ++ rest)) in
  finish h' (Some t) = (FinishRaised (NameError "pending"), h')
  /\ finish h' None = (WritersClosed, h')
  /\ List.length (pending R h') = List.length rest
  /\ written R h' = written R h ++ map (worker_write worker_index) vs.
Proof.
  intros Hne Hall h'. subst h'.
  destruct (write_results_prefix h worker_index vs rest Hall)
    as (h' & E & Hw & Hc & Hp & _).
  rewrite E. cbn [snd]. repeat split; try assumption.
  unfold finish, consume_pending.
  destruct (pending R h') as [|p q] eqn:Hq; [|reflexivity].
  destruct rest; [contradiction | discriminate].
Qed.

Lemma finish_with_buffered_results_witness :
  fst (finish (snd (write_results (start string new_handler 0)
                      [(1, "a"%string); (3, "c"%string)])) (Some 3))
  = FinishRaised (NameError "pending").
Proof.
  pose proof (proj1 (finish_with_buffered_results new_handler 0
                       ["a"%string] [(3, "c"%string)] 3
                       ltac:(discriminate)
                       ltac:(repeat constructor; cbn; lia))) as Hf.
  cbn zeta in Hf. cbn [numbered app] in Hf. rewrite Hf. reflexivity.
Defined.

(** ** The end of a parallel run *)

Lemma alive_dec {PS AS : Type} (w : worker_summary PS AS) :
  alive w \/ ~ alive w.
Proof.
  unfold alive.
  destruct (ws_process_stats PS AS w), (ws_adapter_stats PS AS w).
  - left. split; eauto.
  - right. intros [_ [x Hx]]. discriminate.
  - right. intros [[x Hx] _]. discriminate.
  - right. intros [[x Hx] _]. discriminate.
Qed.

Lemma alive_split {PS AS : Type} (batches : list (worker_summary PS AS)) :
  List.Forall alive batches
  \/ exists pre w post,
       batches = pre ++ w :: post /\ List.Forall alive pre /\ ~ alive w.
Proof.
  induction batches as [|w more IH].
  - left. constructor.
  - destruct (alive_dec w) as [Hw | Hw].
    + destruct IH as [Hall | (pre & w' & post & -> & Hpre & Hw')].
      * left. now constructor.
      * right. exists (w :: pre), w', post.
        split; [reflexivity|]. split; [now constructor | exact Hw'].
    + right. exists [], w, more. split; [reflexivity|]. split; [constructor | exact Hw].
Qed.

Lemma collect_summaries_dead {PS AS : Type}
    (pre : list (worker_summary PS AS)) (w : worker_summary PS AS)
    (post : list (worker_summary PS AS)) :
  forall seen_summaries seen_batches,
    List.Forall alive pre -> ~ alive w ->
    collect_summaries PS AS (pre ++ w :: post) seen_summaries seen_batches
    = Raise (WorkerDied (ws_index PS AS w)).
Proof.
  induction pre as [|v pre IH]; intros ss sb Hpre Hw.
  - cbn [app collect_summaries]. unfold alive in Hw.
    destruct (ws_process_stats PS AS w), (ws_adapter_stats PS AS w);
      try reflexivity.
    exfalso. apply Hw. split; eauto.
  - inversion Hpre as [|? ? [[ps Hps] [ast Hast]] Hmore]; subst.
    cbn [app collect_summaries]. rewrite Hps, Hast. now apply IH.
Qed.

Lemma check_batches_ok_iff (num_batches : Z) (seen_batches : gset Z) :
  check_batches num_batches seen_batches = Ok tt
  <-> forall b, 1 <= b <= num_batches -> b ∈ seen_batches.
Proof.
  unfold check_batches. rewrite !Z.gtb_ltb.
  destruct (Z.ltb_spec 0 num_batches) as [Hn | Hn].
  2:{ split; [intros _ b0 Hb; lia | reflexivity]. }
  set (missing := range_set 1 (num_batches + 1) ∖ seen_batches).
  destruct (Z.ltb_spec 0 (Z.of_nat (size missing))) as [Hpos | Hzero].
  - split; [discriminate|]. intros Hcov. exfalso.
    assert (Hempty : missing = ∅).
    { apply set_eq. intros b0. subst missing.
      rewrite elem_of_difference, range_set_spec. split.
      - intros [Hr Hnot]. exfalso. apply Hnot. apply Hcov. lia.
      - intros Hb. exfalso. exact (not_elem_of_empty b0 Hb). }
    rewrite Hempty, size_empty in Hpos. lia.
  - split; [|reflexivity]. intros _ b0 Hb.
    assert (Hs : size missing = 0%nat) by lia.
    apply size_empty_iff in Hs.
    destruct (decide (b0 ∈ seen_batches)) as [Hin | Hnot]; [exact Hin|].
    exfalso. apply (not_elem_of_empty (C := gset Z) b0). rewrite <- Hs.
    subst missing. apply elem_of_difference. split; [|exact Hnot].
    apply range_set_spec. lia.
Qed.

(** X15. The end of [_run] raises nothing exactly when every worker sent a
    complete summary and every batch number from 1 to [num_batches] is in
    the [seen_batches] of some worker.  With [num_batches <= 0] (no input)
    there is no batch to miss and only the summaries count. *)
Theorem finish_run_ok_iff {PS AS : Type} (num_batches : Z)
    (batches : list (worker_summary PS AS)) :
  finish_run PS AS num_batches batches = Ok tt
  <-> List.Forall alive batches
      /\ forall b, 1 <= b <= num_batches -> covered batches b.
Proof.
  unfold finish_run.
  destruct (alive_split batches) as [Hall | (pre & w & post & -> & Hpre & Hw)].
  - destruct (collect_summaries_alive batches ∅ ∅ Hall) as (ss & sb & -> & Hsb).
    rsimpl. rewrite check_batches_ok_iff. split.
    + intros Hcov. split; [exact Hall|]. intros b0 Hb.
      destruct (proj1 (Hsb b0) (Hcov b0 Hb)) as [He | Hc]; [|exact Hc].
      exfalso. exact (not_elem_of_empty b0 He).
    + intros [_ Hcov] b0 Hb. apply Hsb. right. now apply Hcov.
  - rewrite (collect_summaries_dead pre w post ∅ ∅ Hpre Hw). rsimpl.
    split; [discriminate|]. intros [Hall _]. exfalso.
    apply Forall_app in Hall. destruct Hall as [_ Hall].
    inversion Hall; subst. contradiction.
Qed.

(** X16. A worker that ended in an error sends a summary without statistics
    ([_get_summary(error=True)]); the first such summary that the main
    process dequeues ends the run with the exception that names this
    worker's index, whatever [num_batches] is and whatever the summaries
    after it hold.  A summary sent without error never does. *)
Theorem failed_worker_is_named {PS AS : Type} (num_batches : Z)
    (pre post : list (worker_summary PS AS)) (index : Z) (seen_batches : gset Z)
    (process_stats : PS) (adapter_stats : AS) :
  List.Forall alive pre ->
  finish_run PS AS num_batches
    (pre ++ get_summary index seen_batches process_stats adapter_stats true
         :: post)
  = Raise (WorkerDied index)
  /\ alive (get_summary index seen_batches process_stats adapter_stats false).
Proof.
  intros Hpre. split.
  - unfold finish_run. rewrite collect_summaries_dead.
    + reflexivity.
    + exact Hpre.
    + intros [[x Hx] _]. discriminate.
  - split; cbn; eauto.
Qed.

Lemma failed_worker_is_named_witness :
  finish_run unit unit 3 failed_summaries = Raise (WorkerDied 1).
Proof.
  refine (proj1 (failed_worker_is_named 3
                   [get_summary 0 {[1]} tt tt false]
                   [get_summary 2 {[3]} tt tt false] 1 {[2]} tt tt _)).
  repeat constructor; cbn; eauto.
Defined.

(** X17. Whenever the set-up of [run_parallel] gets past the check of
    [threads], the thread count it goes on with is at least 2 and at most
    the one requested, one less than requested only when the writer does
    the compression and more than 2 threads were requested; at least one
    worker is launched; the timeout is at least [RETRY_INTERVAL] and at
    least the one requested; a writer process is started exactly when
    [use_writer_process] is set, and it is told that the results arrive
    compressed exactly when the compression is the string "worker"; and a
    compression left at [None] becomes "writer" when a writer process is
    used and system compression is available, "worker" otherwise. *)
Theorem run_parallel_setup_accounting (RETRY_INTERVAL : Z)
    (can_use_system_compression : bool) (threads timeout : Z)
    (preserve_order : bool) (input_queue_size result_queue_size : Z)
    (use_writer_process : bool) (compression : option string) (su : Setup) :
  let run := run_parallel_setup RETRY_INTERVAL can_use_system_compression
               threads timeout preserve_order input_queue_size
               result_queue_size use_writer_process compression in
  fst run = Ok su ->
  2 <= su_threads su <= threads
  /\ (su_threads su < threads ->
      su_compression su = "writer"%string /\ 2 < threads)
  /\ (exists workers, 1 <= workers /\ workers = su_threads su - 1
                      /\ In (LaunchWorkers workers 0) (snd run))
  /\ RETRY_INTERVAL <= su_timeout su /\ timeout <= su_timeout su
  /\ (forall po c, In (StartWriterProcess po c) (snd run)
                   <-> use_writer_process = true /\ po = preserve_order
                       /\ c = String.eqb (su_compression su) "worker")
  /\ (compression = None ->
      su_compression su
      = if use_writer_process && can_use_system_compression
        then "writer"%string else "worker"%string).
Proof.
  intros run. subst run. unfold run_parallel_setup.
  destruct (Z.ltb_spec threads 2) as [Hlt | Hge]; [discriminate|].
  cbn [fst snd]. intros Hsu. inversion Hsu; subst su; clear Hsu.
  cbn [su_threads su_timeout su_compression].
  set (comp := match compression with
               | Some c => c
               | None => if use_writer_process && can_use_system_compression
                         then "writer"%string else "worker"%string
               end).
  rewrite Z.gtb_ltb.
  split; [|split; [|split; [|split; [|split; [|split]]]]].
  - destruct (String.eqb comp "writer"), (Z.ltb_spec 2 threads); cbn; lia.
  - destruct (String.eqb_spec comp "writer") as [E | E],
             (Z.ltb_spec 2 threads); cbn; try lia.
    intros _. split; [exact E | assumption].
  - eexists. split; [|split; [reflexivity|]].
    + destruct (String.eqb comp "writer"), (Z.ltb_spec 2 threads); cbn; lia.
    + destruct use_writer_process; rewrite ?in_app_iff; cbn; tauto.
  - lia.
  - lia.
  - intros po c. destruct use_writer_process; rewrite !in_app_iff; cbn [In].
    + split.
      * intros Hin.
        repeat (destruct Hin as [Hin | Hin]);
          try discriminate Hin; try contradiction.
        inversion Hin; subst. repeat split.
      * intros (_ & -> & ->). left. right. right. left. reflexivity.
    + split.
      * intros Hin.
        repeat (destruct Hin as [Hin | Hin]);
          try discriminate Hin; contradiction.
      * intros (Hf & _). discriminate.
  - intros ->. reflexivity.
Qed.

Lemma run_parallel_setup_accounting_witness :
  exists su,
    fst (run_parallel_setup 1 true 4 30 true 0 0 true None) = Ok su
    /\ 2 <= su_threads su <= 4.
Proof.
  eexists. split; [reflexivity|].
  refine (proj1 (run_parallel_setup_accounting 1 true 4 30 true 0 0 true None
                   _ _)).
  reflexivity.
Defined.

(** * The accuracy summary of the paper scripts *)

Section AccuracyFacts.
Import Accuracy.

Lemma pyseq_eqb_eq (x y : pyseq) : pyseq_eqb x y = true <-> x = y.
Proof.
  revert y. induction x as [|c x IH]; intros [|d y]; cbn; try easy.
  rewrite andb_true_iff, Ascii.eqb_eq, IH. split.
  - intros [-> ->]. reflexivity.
  - intros E. inversion E. auto.
Qed.

Lemma pyseq_eqb_refl (x : pyseq) : pyseq_eqb x x = true.
Proof. now apply pyseq_eqb_eq. Qed.

Lemma pyseq_eqb_neq (x y : pyseq) : pyseq_eqb x y = false <-> x <> y.
Proof.
  rewrite <- pyseq_eqb_eq. destruct (pyseq_eqb x y); split; congruence.
Qed.

(** ** [summarize_alignment] *)

(** What the loop over the bases after the reference keeps true. *)
Lemma adapter_scan_inv (A : Z) (tail : pyseq) :
  forall s l d p s' l' d' p',
    fold_left (adapter_step A) tail (s, l, d, p) = (s', l', d', p') ->
    l' + d' + p' = l + d + p + py_len tail
    /\ l <= l' /\ d <= d' /\ p <= p'
    /\ (p < p' -> A <= l')
    /\ py_len s' = py_len s + (l' - l)
    /\ (l' - l) + (p' - p) = py_len (List.filter not_gap tail)
    /\ (List.Forall (fun c => not_gap c = true) s ->
        List.Forall (fun c => not_gap c = true) s').
Proof.
  induction tail as [|c tail IH]; intros s l d p s' l' d' p' E.
  - cbn in E. inversion E; subst. unfold py_len. cbn.
    repeat split; try lia. auto.
  - cbn [fold_left] in E. unfold adapter_step at 2 in E.
    assert (Hlen : py_len (c :: tail) = py_len tail + 1)
      by (unfold py_len; cbn [List.length]; lia).
    rewrite Hlen. cbn [List.filter]. unfold not_gap at 1.
    destruct ((l >=? A) && Ascii.eqb c "A") eqn:EA.
    + apply andb_true_iff in EA. destruct EA as [HlA HcA].
      apply Ascii.eqb_eq in HcA. subst c. cbn [Ascii.eqb Bool.eqb negb andb].
      apply IH in E. destruct E as (H1 & H2 & H3 & H4 & H5 & H6 & H7 & H8).
      assert (Hp : py_len ("A"%char :: List.filter not_gap tail)
                   = py_len (List.filter not_gap tail) + 1)
        by (unfold py_len; cbn [List.length]; lia).
      rewrite Hp. apply Z.geb_le in HlA.
      repeat split; try lia. exact H8.
    + destruct (Ascii.eqb c "-") eqn:Eg.
      * cbn [negb]. apply IH in E.
        destruct E as (H1 & H2 & H3 & H4 & H5 & H6 & H7 & H8).
        repeat split; try lia. exact H8.
      * cbn [negb]. apply IH in E.
        destruct E as (H1 & H2 & H3 & H4 & H5 & H6 & H7 & H8).
        assert (Hp : py_len (c :: List.filter not_gap tail)
                     = py_len (List.filter not_gap tail) + 1)
          by (unfold py_len; cbn [List.length]; lia).
        rewrite Hp. rewrite py_len_app in H6.
        change (py_len [c]) with 1 in H6.
        repeat split; try lia.
        intros Hs. apply H8. apply Forall_app. split; [exact Hs|].
        constructor; [|constructor]. unfold not_gap. now rewrite Eg.
Qed.

Lemma py_slice_from_app (s : pyseq) (k : Z) :
  py_slice_to s k ++ py_slice_from s k = s.
Proof. unfold py_slice_to, py_slice_from. apply firstn_skipn. Qed.

Lemma py_slice_to_all (s : pyseq) (k : Z) :
  py_len s <= k -> py_slice_to s k = s.
Proof.
  intros Hk. unfold py_slice_to, py_clip.
  pose proof (py_len_nonneg s).
  destruct (Z.ltb_spec k 0); [lia|].
  replace (Z.min k (py_len s)) with (py_len s) by lia.
  unfold py_len. rewrite Nat2Z.id. apply firstn_all.
Qed.

Lemma py_slice_from_all (s : pyseq) (k : Z) :
  py_len s <= k -> py_slice_from s k = [].
Proof.
  intros Hk. unfold py_slice_from, py_clip.
  pose proof (py_len_nonneg s).
  destruct (Z.ltb_spec k 0); [lia|].
  replace (Z.min k (py_len s)) with (py_len s) by lia.
  unfold py_len. rewrite Nat2Z.id. apply skipn_all.
Qed.

Section SummaryFacts.
Variable levenshtein : pyseq -> pyseq -> Z.
Variable adapters : pyseq * pyseq.

(** The loop of [summarize_alignment] and its results, named. *)
Lemma summarize_alignment_unfold (i : index01) (a : Aln) :
  let ref_len := py_len (aln_ref a) in
  let read_seq := aln_actual a in
  let A := py_len (pair_at adapters i) in
  exists s l d p,
    (if ref_len <? py_len read_seq
     then fold_left (adapter_step A) (py_slice_from read_seq ref_len)
                    ([], 0, 0, 0)
     else ([], 0, 0, 0)) = (s, l, d, p)
    /\ summarize_alignment levenshtein adapters i a
       = (List.filter not_gap (py_slice read_seq 0 ref_len),
          {| has_adapter := if ref_len <? py_len read_seq then 1 else 0;
             adapter_len := l;
             edit_dist := levenshtein (py_slice_to (pair_at adapters i) l) s;
             adapter_ins := if ref_len <? py_len read_seq
                            then if l + d >? A then l + d - A else 0
                            else 0;
             adapter_del := d; polyA := p |}).
Proof.
  intros ref_len read_seq A. unfold summarize_alignment.
  fold ref_len read_seq A.
  destruct (if ref_len <? py_len read_seq
            then fold_left (adapter_step A) (py_slice_from read_seq ref_len)
                           ([], 0, 0, 0)
            else ([], 0, 0, 0)) as [[[s l] d] p] eqn:E.
  exists s, l, d, p. split; reflexivity.
Qed.

(** X18. The adapter part of an alignment summary.  When the read is
    longer than the reference, every position of the read after the
    reference is counted once, as an adapter base, as a deleted adapter
    base or as a base of the poly-A tail; when it is not longer, all the
    adapter numbers are 0.  [adapter_ins] is the excess of adapter bases
    and deletions over the adapter length, never negative; bases go to the
    poly-A tail only once the adapter bases have reached the adapter
    length; and the edit distance compares a sequence of [adapter_len]
    bases without gap characters. *)
Theorem adapter_accounting (i : index01) (a : Aln) :
  let info := snd (summarize_alignment levenshtein adapters i a) in
  let ref_len := py_len (aln_ref a) in
  let read_len := py_len (aln_actual a) in
  let A := py_len (pair_at adapters i) in
  (ref_len < read_len ->
   has_adapter info = 1
   /\ adapter_len info + adapter_del info + polyA info = read_len - ref_len)
  /\ (read_len <= ref_len ->
      has_adapter info = 0 /\ adapter_len info = 0 /\ adapter_del info = 0
      /\ polyA info = 0 /\ adapter_ins info = 0)
  /\ adapter_ins info = Z.max 0 (adapter_len info + adapter_del info - A)
  /\ (0 < polyA info -> A <= adapter_len info)
  /\ 0 <= adapter_len info /\ 0 <= adapter_del info /\ 0 <= polyA info
  /\ exists adapter_seq,
       edit_dist info
       = levenshtein (py_slice_to (pair_at adapters i) (adapter_len info))
                     adapter_seq
       /\ py_len adapter_seq = adapter_len info
       /\ List.Forall (fun c => c <> "-"%char) adapter_seq.
Proof.
  intros info ref_len read_len A. subst info.
  destruct (summarize_alignment_unfold i a) as (s & l & d & p & E & ->).
  fold ref_len read_len A in E |- *. cbn [snd has_adapter adapter_len
    adapter_del polyA adapter_ins edit_dist].
  pose proof (py_len_nonneg (aln_ref a)) as Hr. fold ref_len in Hr.
  pose proof (py_len_nonneg (pair_at adapters i)) as HA. fold A in HA.
  assert (Hgap : forall t : pyseq,
             List.Forall (fun c => not_gap c = true) t ->
             List.Forall (fun c => c <> "-"%char) t).
  { intros t Ht. eapply List.Forall_impl; [|exact Ht]. cbn. intros c Hc ->.
    discriminate. }
  destruct (Z.ltb_spec ref_len read_len) as [Hlt | Hge].
  - apply adapter_scan_inv in E.
    destruct E as (H1 & H2 & H3 & H4 & H5 & H6 & _ & H8).
    rewrite py_len_slice_from in H1 by (fold read_len; lia).
    fold read_len in H1. change (py_len []) with 0 in H6.
    rewrite Z.gtb_ltb.
    split; [intros _; split; [reflexivity | lia]|].
    split; [intros Hle; lia|].
    split; [destruct (Z.ltb_spec A (l + d)); lia|].
    split; [exact H5|].
    split; [lia|]. split; [lia|]. split; [lia|].
    exists s. split; [reflexivity|]. split; [lia|].
    apply Hgap. apply H8. constructor.
  - inversion E; subst s l d p.
    split; [intros Hlt; lia|].
    split; [intros _; repeat split|].
    split; [lia|].
    split; [lia|].
    split; [lia|]. split; [lia|]. split; [lia|].
    exists []. split; [reflexivity|]. split; [reflexivity | constructor].
Qed.

(** X19. Every base of the read is accounted for once: the length of the
    expected read, the adapter bases and the poly-A bases add up to the
    number of characters of the read that are not the gap character, and
    the expected read holds no gap character and is no longer than the
    reference or the read. *)
Theorem read_bases_accounting (i : index01) (a : Aln) :
  let expected_read := fst (summarize_alignment levenshtein adapters i a) in
  let info := snd (summarize_alignment levenshtein adapters i a) in
  py_len expected_read + adapter_len info + polyA info
  = py_len (List.filter not_gap (aln_actual a))
  /\ List.Forall (fun c => c <> "-"%char) expected_read
  /\ py_len expected_read <= py_len (aln_ref a)
  /\ py_len expected_read <= py_len (aln_actual a).
Proof.
  intros expected_read info. subst expected_read info.
  destruct (summarize_alignment_unfold i a) as (s & l & d & p & E & ->).
  cbn [fst snd adapter_len polyA].
  set (ref_len := py_len (aln_ref a)) in *.
  set (read_seq := aln_actual a) in *.
  pose proof (py_len_nonneg (aln_ref a)) as Hr. fold ref_len in Hr.
  pose proof (py_len_nonneg read_seq) as Hq.
  rewrite py_slice_0.
  assert (Hfl : forall t : pyseq, py_len (List.filter not_gap t) <= py_len t).
  { intros t. unfold py_len. pose proof (filter_length_le not_gap t). lia. }
  assert (Hpre : py_len (py_slice_to read_seq ref_len)
                 = Z.min ref_len (py_len read_seq)).
  { destruct (Z.le_gt_cases ref_len (py_len read_seq)).
    - rewrite py_len_slice_to by lia. lia.
    - rewrite py_slice_to_all by lia. lia. }
  split; [|split; [|split]].
  - assert (Hsplit : py_len (List.filter not_gap read_seq)
                     = py_len (List.filter not_gap (py_slice_to read_seq ref_len))
                       + py_len (List.filter not_gap
                                   (py_slice_from read_seq ref_len))).
    { rewrite <- py_len_app, <- List.filter_app, py_slice_from_app.
      reflexivity. }
    rewrite Hsplit.
    destruct (Z.ltb_spec ref_len (py_len read_seq)) as [Hlt | Hge].
    + apply adapter_scan_inv in E. destruct E as (_ & _ & _ & _ & _ & _ & H7 & _).
      lia.
    + inversion E; subst s l d p.
      rewrite (py_slice_from_all read_seq ref_len) by lia.
      cbn [List.filter]. change (py_len []) with 0. lia.
  - apply List.Forall_forall. intros c Hc. apply filter_In in Hc.
    destruct Hc as [_ Hc]. intros ->. discriminate.
  - pose proof (Hfl (py_slice_to read_seq ref_len)). lia.
  - pose proof (Hfl (py_slice_to read_seq ref_len)). lia.
Qed.

End SummaryFacts.

(** ** The status of a retained read *)

Lemma py_len_0_nil (x : pyseq) : py_len x = 0 -> x = [].
Proof. destruct x; [reflexivity|]. unfold py_len. cbn. lia. Qed.

Lemma py_slice_to_app (t x : pyseq) : py_slice_to (t ++ x) (py_len t) = t.
Proof.
  unfold py_len. rewrite py_slice_to_firstn by (rewrite length_app; lia).
  rewrite firstn_app, Nat.sub_diag, firstn_all. cbn. apply app_nil_r.
Qed.

(** The comparison of line 124 holds exactly when one of the two
    sequences starts with the other. *)
Lemma common_prefix_iff (t e : pyseq) :
  py_slice_to t (Z.min (py_len t) (py_len e))
  = py_slice_to e (Z.min (py_len t) (py_len e))
  <-> (exists x, e = t ++ x) \/ (exists x, t = e ++ x).
Proof.
  pose proof (py_len_nonneg t). pose proof (py_len_nonneg e).
  destruct (Z.le_gt_cases (py_len t) (py_len e)) as [Hle | Hgt].
  - replace (Z.min (py_len t) (py_len e)) with (py_len t) by lia.
    rewrite py_slice_to_len. split.
    + intros E. left. exists (py_slice_from e (py_len t)).
      rewrite E at 1. symmetry. apply py_slice_from_app.
    + intros [[x ->] | [x ->]].
      * now rewrite py_slice_to_app.
      * rewrite py_len_app in Hle.
        assert (Hx : x = []) by (apply py_len_0_nil; pose proof (py_len_nonneg x); lia).
        subst x. rewrite app_nil_r. now rewrite py_slice_to_len.
  - replace (Z.min (py_len t) (py_len e)) with (py_len e) by lia.
    rewrite py_slice_to_len. split.
    + intros E. right. exists (py_slice_from t (py_len e)).
      rewrite <- E at 1. symmetry. apply py_slice_from_app.
    + intros [[x ->] | [x ->]].
      * rewrite py_len_app in Hgt. pose proof (py_len_nonneg x). lia.
      * now rewrite py_slice_to_app.
Qed.

(** X20. The status of a retained read compares the trimmed sequence with
    the expected one: [OK] exactly when they are equal, [OVERTRIMMED]
    exactly when the trimmed sequence is a proper beginning of the expected
    one, [UNDERTRIMMED] exactly when the expected sequence is a proper
    beginning of the trimmed one, and [MISMATCH] exactly when neither
    starts with the other.  The counters of overtrimmed and undertrimmed
    bases grow by the difference of the lengths also for a [MISMATCH], and
    the counter of mismatches by one exactly for a [MISMATCH]. *)
Theorem status_classifies (cnt : Counters) (trimmed expected_read : pyseq) :
  let st := fst (classify cnt trimmed expected_read) in
  let cnt' := snd (classify cnt trimmed expected_read) in
  (st = OK <-> trimmed = expected_read)
  /\ (st = OVERTRIMMED
      <-> exists x, x <> [] /\ expected_read = trimmed ++ x)
  /\ (st = UNDERTRIMMED
      <-> exists x, x <> [] /\ trimmed = expected_read ++ x)
  /\ (st = MISMATCH
      <-> ~ (exists x, expected_read = trimmed ++ x)
          /\ ~ (exists x, trimmed = expected_read ++ x))
  /\ st <> DISCARDED
  /\ overtrimmed cnt'
     = overtrimmed cnt + Z.max 0 (py_len expected_read - py_len trimmed)
  /\ undertrimmed cnt'
     = undertrimmed cnt + Z.max 0 (py_len trimmed - py_len expected_read)
  /\ raw_trimmed_mismatch cnt'
     = raw_trimmed_mismatch cnt
       + match st with MISMATCH => 1 | _ => 0 end.
Proof.
  intros st cnt'. subst st cnt'. unfold classify.
  pose proof (common_prefix_iff trimmed expected_read) as HP.
  set (n := Z.min (py_len trimmed) (py_len expected_read)) in *.
  set (lt := py_len trimmed) in *. set (le := py_len expected_read) in *.
  assert (Hlen : forall u v x : pyseq, u = v ++ x ->
                   py_len u = py_len v + py_len x /\ 0 <= py_len x
                   /\ (x <> [] -> 0 < py_len x)).
  { intros u v x ->. rewrite py_len_app. pose proof (py_len_nonneg x).
    repeat split; try lia. intros Hx.
    destruct (Z.eq_dec (py_len x) 0) as [E0 | E0]; [|lia].
    apply py_len_0_nil in E0. contradiction. }
  assert (Hnil : forall x : pyseq, 0 < py_len x -> x <> [])
    by (intros x Hx ->; unfold py_len in Hx; cbn in Hx; lia).
  rewrite Z.gtb_ltb.
  destruct (pyseq_eqb (py_slice_to trimmed n) (py_slice_to expected_read n))
    eqn:Eq; cbn [negb].
  - apply pyseq_eqb_eq in Eq. apply HP in Eq.
    destruct (Z.ltb_spec lt le) as [Hlt | Hge];
      [|destruct (Z.ltb_spec le lt) as [Hlt' | Hge']]; cbn [fst snd
        overtrimmed undertrimmed raw_trimmed_mismatch].
    + split; [split; [discriminate | intros ->; subst lt le; lia]|].
      split.
      { split; [intros _|reflexivity].
        destruct Eq as [[x Ex] | [x Ex]].
        - exists x. split; [|exact Ex]. apply Hnil.
          apply Hlen in Ex. subst lt le. lia.
        - apply Hlen in Ex. subst lt le. lia. }
      split.
      { split; [discriminate|]. intros (x & _ & Ex).
        apply Hlen in Ex. subst lt le. lia. }
      split.
      { split; [discriminate|]. intros [H1 H2]. exfalso.
        destruct Eq as [Ex | Ex]; [now apply H1 | now apply H2]. }
      split; [discriminate|]. repeat split; lia.
    + split; [split; [discriminate | intros ->; subst lt le; lia]|].
      split.
      { split; [discriminate|]. intros (x & _ & Ex).
        apply Hlen in Ex. subst lt le. lia. }
      split.
      { split; [intros _|reflexivity].
        destruct Eq as [[x Ex] | [x Ex]].
        - apply Hlen in Ex. subst lt le. lia.
        - exists x. split; [|exact Ex]. apply Hnil.
          apply Hlen in Ex. subst lt le. lia. }
      split.
      { split; [discriminate|]. intros [H1 H2]. exfalso.
        destruct Eq as [Ex | Ex]; [now apply H1 | now apply H2]. }
      split; [discriminate|]. repeat split; lia.
    + split.
      { split; [intros _|reflexivity].
        destruct Eq as [[x Ex] | [x Ex]].
        - pose proof (Hlen _ _ _ Ex) as (Hl & Hx & _).
          assert (x = []) by (apply py_len_0_nil; subst lt le; lia).
          subst x. now rewrite app_nil_r in Ex.
        - pose proof (Hlen _ _ _ Ex) as (Hl & Hx & _).
          assert (x = []) by (apply py_len_0_nil; subst lt le; lia).
          subst x. now rewrite app_nil_r in Ex. }
      split.
      { split; [discriminate|]. intros (x & Hx & Ex).
        apply Hlen in Ex. destruct Ex as (Hl & _ & Hpos).
        specialize (Hpos Hx). subst lt le. lia. }
      split.
      { split; [discriminate|]. intros (x & Hx & Ex).
        apply Hlen in Ex. destruct Ex as (Hl & _ & Hpos).
        specialize (Hpos Hx). subst lt le. lia. }
      split.
      { split; [discriminate|]. intros [H1 H2]. exfalso.
        destruct Eq as [Ex | Ex]; [now apply H1 | now apply H2]. }
      split; [discriminate|]. repeat split; lia.
  - apply pyseq_eqb_neq in Eq.
    assert (Hno : ~ ((exists x, expected_read = trimmed ++ x)
                     \/ (exists x, trimmed = expected_read ++ x)))
      by (intros Hc; apply Eq; now apply HP).
    destruct (Z.ltb_spec lt le) as [Hlt | Hge];
      [|destruct (Z.ltb_spec le lt) as [Hlt' | Hge']]; cbn [fst snd
        overtrimmed undertrimmed raw_trimmed_mismatch].
    all: (split; [split; [discriminate
                         | intros ->; exfalso; apply Hno; left; exists [];
                           now rewrite app_nil_r]|]).
    all: (split; [split; [discriminate
                         | intros (x & _ & Ex); exfalso; apply Hno; left;
                           now exists x]|]).
    all: (split; [split; [discriminate
                         | intros (x & _ & Ex); exfalso; apply Hno; right;
                           now exists x]|]).
    all: (split; [split; [intros _; split; intros Hc; apply Hno;
                           [now left | now right]
                         | reflexivity]|]).
    all: (split; [discriminate|]).
    all: repeat split; lia.
Qed.

(** ** The search for the alignment of a read pair *)

Lemma cache_pop_mem (key : pyseq) (cache : Cache) :
  cache_mem key cache = true ->
  exists v cache', cache_pop key cache = Some (v, cache').
Proof.
  induction cache as [|[k v] more IH]; cbn; [discriminate|].
  destruct (pyseq_eqb key k); cbn; [eauto|].
  intros Hm. destruct (IH Hm) as (x & c' & ->). eauto.
Qed.

Lemma cache_mem_set (key k : pyseq) (v : Aln * Aln) (cache : Cache) :
  cache_mem key (cache_set k v cache)
  = pyseq_eqb key k || cache_mem key cache.
Proof.
  induction cache as [|[k0 v0] more IH]; cbn.
  - reflexivity.
  - destruct (pyseq_eqb k k0) eqn:E; cbn.
    + apply pyseq_eqb_eq in E. subst k0.
      now destruct (pyseq_eqb key k).
    + rewrite IH. now destruct (pyseq_eqb key k), (pyseq_eqb key k0).
Qed.

Lemma cache_mem_all (key : pyseq) (alns : list (Aln * Aln)) :
  forall cache,
    cache_mem key (cache_all cache alns) = true
    <-> cache_mem key cache = true
        \/ exists a, In a alns /\ aln_name (fst a) = key.
Proof.
  induction alns as [|a alns IH]; intros cache; cbn [cache_all fold_left].
  - split; [now left|]. intros [Hc | (a & [] & _)]. exact Hc.
  - fold (cache_all (cache_set (aln_name (fst a)) a cache) alns).
    rewrite IH, cache_mem_set, orb_true_iff, pyseq_eqb_eq. split.
    + intros [[Hk | Hc] | (a' & Hin & Ha')].
      * right. exists a. split; [now left | now symmetry].
      * now left.
      * right. exists a'. split; [now right | exact Ha'].
    + intros [Hc | (a' & [-> | Hin] & Ha')].
      * left. now right.
      * left. left. now symmetry.
      * right. now exists a'.
Qed.

(** The scan over alignments none of which has the name of the read. *)
Lemma scan_no_match (read_id : pyseq) (alns : list (Aln * Aln)) :
  forall aln cache,
    List.Forall (names_differ read_id) alns ->
    scan_alignments read_id alns aln cache
    = (match rev alns with [] => aln | a :: _ => Some a end, [],
       cache_all cache alns).
Proof.
  induction alns as [|a alns IH]; intros aln cache Hall.
  - reflexivity.
  - inversion Hall as [|? ? Ha Hrest]; subst.
    cbn [scan_alignments].
    destruct (pyseq_eqb read_id (aln_name (fst a))) eqn:E.
    { apply pyseq_eqb_eq in E. unfold names_differ in Ha. congruence. }
    rewrite IH by assumption. cbn [rev cache_all fold_left].
    destruct (rev alns) as [|x xs] eqn:Er; [reflexivity|]. reflexivity.
Qed.

(** The scan up to the first alignment that has the name of the read. *)
Lemma scan_match (read_id : pyseq) (pre : list (Aln * Aln)) (a : Aln * Aln)
    (post : list (Aln * Aln)) :
  forall aln cache,
    List.Forall (names_differ read_id) pre ->
    aln_name (fst a) = read_id ->
    scan_alignments read_id (pre ++ a :: post) aln cache
    = (Some a, post, cache_all cache pre).
Proof.
  induction pre as [|x pre IH]; intros aln cache Hall Ha.
  - cbn. rewrite Ha, pyseq_eqb_refl. reflexivity.
  - inversion Hall as [|? ? Hx Hrest]; subst.
    cbn [app scan_alignments].
    destruct (pyseq_eqb (aln_name (fst a)) (aln_name (fst x))) eqn:E.
    { apply pyseq_eqb_eq in E. unfold names_differ in Hx. congruence. }
    now rewrite IH.
Qed.

(** X21. The exception "No alignment for read" is raised exactly when
    the name of the read is not in the cache and the iterator of
    alignments is already exhausted; the iterator and the cache are then
    as before. *)
Theorem no_alignment_iff (read_id : pyseq) (aln_iter : list (Aln * Aln))
    (cache : Cache) (e : failure) :
  fst (fst (find_alignment read_id aln_iter cache)) = inl e
  <-> e = NoAlignment read_id
      /\ cache_mem read_id cache = false /\ aln_iter = []
      /\ find_alignment read_id aln_iter cache
         = (inl (NoAlignment read_id), [], cache).
Proof.
  unfold find_alignment.
  destruct (cache_mem read_id cache) eqn:Hm; cbn [negb].
  - destruct (cache_pop_mem _ _ Hm) as (v & c' & ->). cbn.
    split; [discriminate|]. intros (_ & Hf & _). discriminate.
  - destruct aln_iter as [|a more].
    + cbn. split.
      * intros E. inversion E. repeat split.
      * intros (-> & _). reflexivity.
    + cbn [scan_alignments].
      assert (Hsome : forall alns aln c,
                 exists x r c',
                   scan_alignments read_id alns (Some aln) c = (Some x, r, c')).
      { induction alns as [|y alns IH]; intros aln c; cbn; [eauto|].
        destruct (pyseq_eqb read_id (aln_name (fst y))); [eauto|].
        apply IH. }
      destruct (pyseq_eqb read_id (aln_name (fst a))).
      * cbn. split; [discriminate|]. intros (_ & _ & Hnil & _). discriminate.
      * destruct (Hsome more a (cache_set (aln_name (fst a)) a cache))
          as (x & r & c' & ->).
        cbn. split; [discriminate|]. intros (_ & _ & Hnil & _). discriminate.
Qed.

(** X22. A read pair whose name is neither in the cache nor among the
    alignments still to come raises nothing as long as an alignment is
    left: the search runs to the end of the iterator and goes on with the
    last alignment it read, which has another name, and every alignment it
    read, this one included, is in the cache afterwards. *)
Theorem missing_alignment_takes_last (read_id : pyseq)
    (aln_iter : list (Aln * Aln)) (last : Aln * Aln) (cache : Cache) :
  cache_mem read_id cache = false ->
  List.Forall (names_differ read_id) (aln_iter ++ [last]) ->
  exists cache',
    find_alignment read_id (aln_iter ++ [last]) cache
    = (inr last, [], cache')
    /\ aln_name (fst last) <> read_id
    /\ forall a, In a (aln_iter ++ [last]) ->
                 cache_mem (aln_name (fst a)) cache' = true.
Proof.
  intros Hm Hall. unfold find_alignment. rewrite Hm. cbn [negb].
  rewrite scan_no_match by assumption.
  rewrite rev_app_distr. cbn [rev app].
  eexists. split; [reflexivity|]. split.
  - rewrite List.Forall_forall in Hall. apply Hall.
    apply in_or_app. right. now left.
  - intros a Ha. apply cache_mem_all. right. now exists a.
Qed.

Lemma missing_alignment_takes_last_witness :
  fst (fst (find_alignment (b "r9") example_alns []))
  = inr (example_aln "r2" "GGCA" "GGCA", example_aln "r2" "CCAT" "CCAT").
Proof.
  destruct (missing_alignment_takes_last (b "r9")
              [(example_aln "r1" "ACGT" "ACGTAGAT",
                example_aln "r1" "TTGA" "TTGAAGAT")]
              (example_aln "r2" "GGCA" "GGCA", example_aln "r2" "CCAT" "CCAT")
              [] eq_refl) as (cache' & E & _).
  - repeat constructor; unfold names_differ; cbn; discriminate.
  - cbn [app] in E. unfold example_alns. rewrite E. reflexivity.
Defined.

Lemma cache_set_fresh (key : pyseq) (v : Aln * Aln) (cache : Cache) :
  cache_mem key cache = false -> cache_set key v cache = cache ++ [(key, v)].
Proof.
  induction cache as [|[k0 v0] more IH]; cbn; [reflexivity|].
  destruct (pyseq_eqb key k0); cbn; [discriminate|].
  intros Hm. now rewrite IH.
Qed.

Lemma cache_mem_app (key : pyseq) (c1 c2 : Cache) :
  cache_mem key (c1 ++ c2) = cache_mem key c1 || cache_mem key c2.
Proof.
  induction c1 as [|[k v] c1 IH]; cbn; [reflexivity|].
  rewrite IH. now rewrite orb_assoc.
Qed.

Lemma cache_mem_entries (key : pyseq) (alns : list (Aln * Aln)) :
  cache_mem key (map cache_entry alns) = true
  <-> In key (map pair_name alns).
Proof.
  induction alns as [|a alns IH]; cbn; [easy|].
  rewrite orb_true_iff, pyseq_eqb_eq, IH. split; intros [H | H]; auto.
Qed.

(** With alignments of different names nothing in the cache is replaced. *)
Lemma cache_all_entries (alns : list (Aln * Aln)) :
  forall cache,
    List.NoDup (map pair_name alns) ->
    (forall a, In a alns -> cache_mem (pair_name a) cache = false) ->
    cache_all cache alns = cache ++ map cache_entry alns.
Proof.
  induction alns as [|a alns IH]; intros cache Hnd Hfresh.
  - cbn. now rewrite app_nil_r.
  - cbn [cache_all fold_left map]. inversion Hnd as [|? ? Hnot Hnd']; subst.
    fold (cache_all (cache_set (aln_name (fst a)) a cache) alns).
    rewrite cache_set_fresh by (apply (Hfresh a); now left).
    rewrite IH.
    + rewrite <- app_assoc. reflexivity.
    + exact Hnd'.
    + intros x Hx. rewrite cache_mem_app, (Hfresh x) by now right.
      cbn. rewrite orb_false_r. apply pyseq_eqb_neq. intros E.
      apply Hnot. fold (pair_name a) in E. rewrite <- E.
      now apply in_map.
Qed.

Lemma cache_pop_entries (alns : list (Aln * Aln)) (x : Aln * Aln) :
  List.NoDup (map pair_name alns) -> In x alns ->
  exists cache',
    cache_pop (pair_name x) (map cache_entry alns) = Some (x, cache')
    /\ cache_mem (pair_name x) cache' = false
    /\ S (List.length cache') = List.length alns.
Proof.
  induction alns as [|a alns IH]; intros Hnd Hin; [destruct Hin|].
  inversion Hnd as [|? ? Hnot Hnd']; subst. cbn [map cache_pop cache_entry].
  destruct (pyseq_eqb (pair_name x) (pair_name a)) eqn:E.
  - apply pyseq_eqb_eq in E.
    assert (x = a).
    { destruct Hin as [-> | Hin]; [reflexivity|]. exfalso. apply Hnot.
      rewrite <- E. now apply in_map. }
    subst x. exists (map cache_entry alns). split; [reflexivity|]. split.
    + destruct (cache_mem (pair_name a) (map cache_entry alns)) eqn:Hm;
        [|reflexivity].
      apply cache_mem_entries in Hm. contradiction.
    + now rewrite length_map.
  - destruct Hin as [-> | Hin].
    { rewrite pyseq_eqb_refl in E. discriminate. }
    destruct (IH Hnd' Hin) as (c' & -> & Hm & Hlen).
    exists (cache_entry a :: c'). split; [reflexivity|]. split.
    + cbn. rewrite E, Hm. reflexivity.
    + cbn. now rewrite Hlen.
Qed.

(** X23. Alignments that the search reads past are served from the cache.
    When the alignments before the one of the read have names that differ
    from one another and from the name of the read, the search returns the
    alignment of the read and leaves the later ones in the iterator; a later
    search for any alignment [x] that was passed returns [x] itself, leaves
    the iterator alone and removes [x] from the cache. *)
Theorem skipped_alignments_are_cached (read_id : pyseq)
    (pre : list (Aln * Aln)) (a : Aln * Aln) (post post' : list (Aln * Aln))
    (x : Aln * Aln) :
  List.NoDup (map pair_name pre) ->
  List.Forall (names_differ read_id) pre ->
  pair_name a = read_id ->
  In x pre ->
  exists cache1 cache2,
    find_alignment read_id (pre ++ a :: post) [] = (inr a, post, cache1)
    /\ find_alignment (pair_name x) post' cache1 = (inr x, post', cache2)
    /\ cache_mem (pair_name x) cache2 = false
    /\ S (List.length cache2) = List.length pre.
Proof.
  intros Hnd Hall Ha Hx.
  exists (map cache_entry pre).
  destruct (cache_pop_entries pre x Hnd Hx) as (cache2 & Hpop & Hm & Hlen).
  exists cache2. split; [|split; [|split; assumption]].
  - unfold find_alignment. cbn [cache_mem negb].
    rewrite scan_match by assumption.
    rewrite cache_all_entries; [reflexivity | exact Hnd | reflexivity].
  - unfold find_alignment.
    assert (Hmem : cache_mem (pair_name x) (map cache_entry pre) = true).
    { apply cache_mem_entries. now apply in_map. }
    rewrite Hmem. cbn [negb]. rewrite Hpop. reflexivity.
Qed.

Lemma skipped_alignments_are_cached_witness :
  exists cache1,
    find_alignment (b "r2") example_alns []
    = (inr (example_aln "r2" "GGCA" "GGCA", example_aln "r2" "CCAT" "CCAT"),
       [], cache1)
    /\ fst (fst (find_alignment (b "r1") [] cache1))
       = inr (example_aln "r1" "ACGT" "ACGTAGAT",
              example_aln "r1" "TTGA" "TTGAAGAT").
Proof.
  destruct (skipped_alignments_are_cached (b "r2")
              [(example_aln "r1" "ACGT" "ACGTAGAT",
                example_aln "r1" "TTGA" "TTGAAGAT")]
              (example_aln "r2" "GGCA" "GGCA", example_aln "r2" "CCAT" "CCAT")
              [] []
              (example_aln "r1" "ACGT" "ACGTAGAT",
               example_aln "r1" "TTGA" "TTGAAGAT"))
    as (cache1 & cache2 & E1 & E2 & _).
  - repeat constructor. intros [].
  - repeat constructor. unfold names_differ. cbn. discriminate.
  - reflexivity.
  - now left.
  - exists cache1. split; [exact E1|].
    change (pair_name (example_aln "r1" "ACGT" "ACGTAGAT",
                       example_aln "r1" "TTGA" "TTGAAGAT")) with (b "r1") in E2.
    rewrite E2. reflexivity.
Defined.

(** ** [summarize_accuracy] as a whole *)

Section ReportFacts.
Variable levenshtein : pyseq -> pyseq -> Z.
Variable adapters : pyseq * pyseq.

(** X24. Without retained reads [summarize_accuracy] always ends in a
    [NameError] and writes no row: with an alignment left, the first call
    of [summarize_alignment] for a discarded read finds [i] unbound in the
    enclosing scope; with none, the first [print] finds [num_reads]
    unbound. *)
Theorem no_reads_name_error (aln_iter : list (Aln * Aln)) :
  summarize_accuracy levenshtein adapters aln_iter []
  = (inl (Builtin (NameError (match aln_iter with
                              | [] => "num_reads"
                              | _ => "i"
                              end))), []).
Proof. destruct aln_iter; reflexivity. Qed.

Lemma retained_row_fields (st : State) (read_id : pyseq) (aln : Aln * Aln)
    (reads : Fq * Fq) (i : index01) :
  exists r cnt,
    retained_row levenshtein adapters st read_id aln reads i
    = {| st_aln_iter := st_aln_iter st; st_cache := st_cache st;
         st_counters := cnt; st_rows := st_rows st ++ [r];
         st_num_reads := st_num_reads st; st_i := Some i |}.
Proof.
  unfold retained_row.
  destruct (summarize_alignment _ _ _ _) as [e info].
  destruct (classify _ _ _) as [s cnt]. eauto.
Qed.

(** One round of the loop over the reads: two rows or none. *)
Lemma handle_reads_cases (st : State) (n : Z) (reads : Fq * Fq) :
  (exists e st', handle_reads levenshtein adapters st n reads = (Some e, st')
                 /\ st_rows st' = st_rows st)
  \/ (exists st' r0 r1,
        handle_reads levenshtein adapters st n reads = (None, st')
        /\ st_rows st' = st_rows st ++ [r0; r1]
        /\ st_num_reads st' = Some n /\ st_i st' = Some I1
        /\ (List.length (st_cache st') + List.length (st_aln_iter st')
            <= List.length (st_cache st) + List.length (st_aln_iter st))%nat).
Proof.
  unfold handle_reads.
  destruct (check_reads reads) as [e|]; [left; eauto|].
  cbn [st_aln_iter st_cache st_counters st_rows st_num_reads st_i].
  destruct (find_alignment (fq_name (fst reads)) (st_aln_iter st) (st_cache st))
    as [[found it] c] eqn:Ef.
  destruct found as [e | aln]; [left; eauto|].
  right.
  match goal with |- context [retained_row _ _ ?s ?id ?a ?r I0] =>
    destruct (retained_row_fields s id a r I0) as (r0 & cnt0 & E0) end.
  rewrite E0.
  match goal with |- context [retained_row _ _ ?s ?id ?a ?r I1] =>
    destruct (retained_row_fields s id a r I1) as (r1 & cnt1 & E1) end.
  rewrite E1. cbn [st_aln_iter st_cache st_counters st_rows st_num_reads st_i].
  eexists _, r0, r1. split; [reflexivity|]. cbn.
  rewrite <- app_assoc. repeat split.
  unfold find_alignment in Ef.
  destruct (cache_mem (fq_name (fst reads)) (st_cache st)) eqn:Hm;
    cbn [negb] in Ef.
  - destruct (cache_pop_mem _ _ Hm) as (v & c' & Hpop).
    rewrite Hpop in Ef. inversion Ef; subst.
    assert (Hl : forall k (cc : Cache) v' c'',
               cache_pop k cc = Some (v', c'') ->
               S (List.length c'') = List.length cc).
    { intros k cc. induction cc as [|[k0 v0] cc IH]; cbn; [discriminate|].
      intros v' c''. destruct (pyseq_eqb k k0).
      - intros E. now inversion E.
      - destruct (cache_pop k cc) as [[x m]|]; [|discriminate].
        intros E. inversion E; subst. cbn. now rewrite (IH _ _ eq_refl). }
    apply Hl in Hpop. lia.
  - assert (Hs : forall alns al cc al' it' cc',
               scan_alignments (fq_name (fst reads)) alns al cc = (al', it', cc') ->
               (List.length cc' + List.length it'
                <= List.length cc + List.length alns)%nat).
    { induction alns as [|y alns IH]; intros al cc al' it' cc' E; cbn in E.
      - inversion E; subst. cbn. lia.
      - destruct (pyseq_eqb (fq_name (fst reads)) (aln_name (fst y))).
        + inversion E; subst. cbn. lia.
        + apply IH in E.
          assert (Hset : forall k v (c0 : Cache),
                     (List.length (cache_set k v c0) <= S (List.length c0))%nat).
          { intros k v c0. induction c0 as [|[k1 v1] c0 IHc]; cbn; [lia|].
            destruct (pyseq_eqb k k1); cbn; lia. }
          pose proof (Hset (aln_name (fst y)) y cc). cbn [List.length]. lia. }
    destruct (scan_alignments _ _ _ _) as [[al' it'] cc'] eqn:Es.
    apply Hs in Es. destruct al'; inversion Ef; subst. exact Es.
Qed.

Lemma read_loop_ok (read_iter : list (Fq * Fq)) :
  forall st n st',
    read_loop levenshtein adapters st n read_iter = (None, st') ->
    (read_iter = [] /\ st' = st)
    \/ (read_iter <> []
        /\ st_num_reads st' = Some (n + Z.of_nat (List.length read_iter) - 1)
        /\ st_i st' = Some I1
        /\ exists kept,
             st_rows st' = st_rows st ++ kept
             /\ List.length kept = (2 * List.length read_iter)%nat).
Proof.
  induction read_iter as [|reads more IH]; intros st n st' E.
  - left. cbn in E. inversion E. now split.
  - right. split; [discriminate|]. cbn [read_loop] in E.
    destruct (handle_reads_cases st n reads)
      as [(e & st1 & E1 & _) | (st1 & r0 & r1 & E1 & Hrows & Hnum & Hi & _)];
      rewrite E1 in E; [discriminate|].
    destruct (IH _ _ _ E) as [[-> ->] | (Hne & Hnum' & Hi' & kept & Hk & Hlen)].
    + rewrite Hnum, Hi, Hrows. cbn [List.length].
      split; [f_equal; lia|]. split; [reflexivity|].
      exists [r0; r1]. split; reflexivity.
    + rewrite Hnum', Hi', Hk, Hrows. cbn [List.length].
      split; [f_equal; lia|]. split; [reflexivity|].
      exists (r0 :: r1 :: kept). split.
      * rewrite <- app_assoc. reflexivity.
      * cbn [List.length]. lia.
Qed.

Lemma discard_all_bound (alns : list (Aln * Aln)) :
  forall rows,
    discard_all levenshtein adapters (Some I1) rows alns
    = (None,
       rows ++ flat_map (fun aln =>
                           [discarded_row_written levenshtein adapters aln I0;
                            discarded_row_written levenshtein adapters aln I1])
                        alns).
Proof.
  induction alns as [|aln alns IH]; intros rows.
  - cbn. now rewrite app_nil_r.
  - cbn [discard_all flat_map]. unfold handle_discarded, discarded_row.
    cbn [call_summarize_alignment].
    destruct (summarize_alignment levenshtein adapters I1 (pair_at aln I0))
      as [e0 i0] eqn:E0.
    destruct (summarize_alignment levenshtein adapters I1 (pair_at aln I1))
      as [e1 i1] eqn:E1.
    rewrite IH. unfold discarded_row_written. rewrite E0, E1. cbn [fst snd].
    rewrite <- app_assoc. reflexivity.
Qed.

(** X25. Whenever [summarize_accuracy] returns, there was at least one
    pair of retained reads; the report counts them all as retained and
    gives their sum with the discarded pairs as the total; two rows were
    written for each pair, first those of the retained pairs, then those
    of the discarded ones; and both rows of a discarded pair, the one of
    mate 1 included, hold the adapter numbers computed against the second
    adapter. *)
Theorem report_counts_rows (aln_iter : list (Aln * Aln))
    (read_iter : list (Fq * Fq)) (report : Report) (rows : list Row) :
  summarize_accuracy levenshtein adapters aln_iter read_iter
  = (inr report, rows) ->
  read_iter <> []
  /\ retained_reads report = Z.of_nat (List.length read_iter)
  /\ total_reads report = retained_reads report + discarded_reads report
  /\ exists kept discarded_alns,
       rows = kept
              ++ flat_map
                   (fun aln =>
                      [discarded_row_written levenshtein adapters aln I0;
                       discarded_row_written levenshtein adapters aln I1])
                   discarded_alns
       /\ List.length kept = (2 * List.length read_iter)%nat
       /\ Z.of_nat (List.length discarded_alns) = discarded_reads report
       /\ (List.length discarded_alns <= List.length aln_iter)%nat.
Proof.
  unfold summarize_accuracy.
  set (st0 := {| st_aln_iter := aln_iter; st_cache := []; st_counters := _;
                 st_rows := []; st_num_reads := None; st_i := None |}).
  destruct (read_loop levenshtein adapters st0 1 read_iter) as [[e|] st] eqn:El;
    [discriminate|].
  assert (Hbound : forall reads s n s',
             read_loop levenshtein adapters s n reads = (None, s') ->
             (List.length (st_cache s') + List.length (st_aln_iter s')
              <= List.length (st_cache s) + List.length (st_aln_iter s))%nat).
  { induction reads as [|r reads IH]; intros s n s' E; cbn in E.
    - inversion E. lia.
    - destruct (handle_reads_cases s n r)
        as [(e & s1 & E1 & _) | (s1 & r0 & r1 & E1 & _ & _ & _ & Hb)];
        rewrite E1 in E; [discriminate|].
      apply IH in E. lia. }
  pose proof (Hbound _ _ _ _ El) as Hb. cbn in Hb.
  destruct (read_loop_ok _ _ _ _ El)
    as [[-> ->] | (Hne & Hnum & Hi & kept & Hk & Hlen)].
  - cbn. destruct aln_iter; cbn; discriminate.
  - rewrite Hi, Hnum, !discard_all_bound. intros E. inversion E; subst.
    cbn [retained_reads total_reads discarded_reads].
    split; [exact Hne|]. split; [lia|]. split; [reflexivity|].
    exists kept, (map snd (st_cache st) ++ st_aln_iter st).
    rewrite Hk. cbn [app]. rewrite flat_map_app, <- app_assoc.
    split; [reflexivity|]. split; [exact Hlen|].
    rewrite length_app, length_map. split; lia.
Qed.

Lemma names_without (L1 L2 : list (Aln * Aln)) (a : Aln * Aln) :
  List.NoDup (map pair_name (L1 ++ a :: L2)) ->
  List.NoDup (map pair_name (L1 ++ L2))
  /\ forall k, In k (map pair_name (L1 ++ L2))
               <-> In k (map pair_name (L1 ++ a :: L2)) /\ k <> pair_name a.
Proof.
  rewrite !map_app. cbn [map]. intros Hnd.
  apply NoDup_remove in Hnd. destruct Hnd as [Hnd Hnot].
  split; [exact Hnd|]. intros k. rewrite !in_app_iff. cbn [In]. split.
  - intros Hk. split; [tauto|]. intros ->. apply Hnot.
    apply in_or_app. exact Hk.
  - intros [[Hk | [Hk | Hk]] Hne]; [now left | congruence | now right].
Qed.

Lemma cache_pop_split (C : list (Aln * Aln)) (key : pyseq) :
  List.NoDup (map pair_name C) -> In key (map pair_name C) ->
  exists C1 x C2,
    C = C1 ++ x :: C2 /\ pair_name x = key
    /\ cache_pop key (map cache_entry C) = Some (x, map cache_entry (C1 ++ C2)).
Proof.
  induction C as [|a C IH]; intros Hnd Hin; [destruct Hin|].
  inversion Hnd as [|? ? Hnot Hnd']; subst. cbn [map cache_pop cache_entry].
  destruct (pyseq_eqb key (pair_name a)) eqn:E.
  - apply pyseq_eqb_eq in E. exists [], a, C. split; [reflexivity|].
    split; [now symmetry | reflexivity].
  - apply pyseq_eqb_neq in E. destruct Hin as [Hin | Hin]; [congruence|].
    destruct (IH Hnd' Hin) as (C1 & x & C2 & -> & Hx & ->).
    exists (a :: C1), x, C2. split; [reflexivity|]. split; [exact Hx | reflexivity].
Qed.

(** The search when the alignments left, cached or still to come, have
    different names and one of them has the name of the read. *)
Lemma find_alignment_conserves (key : pyseq) (C rest : list (Aln * Aln)) :
  List.NoDup (map pair_name (C ++ rest)) ->
  In key (map pair_name (C ++ rest)) ->
  exists a C' rest',
    find_alignment key rest (map cache_entry C)
    = (inr a, rest', map cache_entry C')
    /\ List.NoDup (map pair_name (C' ++ rest'))
    /\ (forall k, In k (map pair_name (C' ++ rest'))
                  <-> In k (map pair_name (C ++ rest)) /\ k <> key)
    /\ S (List.length C' + List.length rest')
       = (List.length C + List.length rest)%nat.
Proof.
  intros Hnd Hin. unfold find_alignment.
  destruct (cache_mem key (map cache_entry C)) eqn:Hm; cbn [negb].
  - apply cache_mem_entries in Hm.
    assert (HndC : List.NoDup (map pair_name C)).
    { rewrite map_app in Hnd. now apply NoDup_app_remove_r in Hnd. }
    destruct (cache_pop_split C key HndC Hm) as (C1 & x & C2 & -> & Hx & ->).
    exists x, (C1 ++ C2), rest. split; [reflexivity|].
    rewrite <- !app_assoc in Hnd |- *. cbn [app] in Hnd.
    destruct (names_without C1 (C2 ++ rest) x Hnd) as [Hnd' Hk].
    split; [exact Hnd'|]. split.
    + intros k. rewrite Hk, Hx, <- app_assoc. cbn [app]. reflexivity.
    + rewrite !length_app. cbn [List.length]. lia.
  - assert (HnotC : ~ In key (map pair_name C)).
    { intros Hc. apply cache_mem_entries in Hc. congruence. }
    rewrite map_app, in_app_iff in Hin.
    destruct Hin as [Hin | Hin]; [contradiction|].
    apply in_map_iff in Hin. destruct Hin as (a & Ha & Hin).
    apply in_split in Hin. destruct Hin as (pre & post & ->).
    assert (Hnd2 : List.NoDup (map pair_name ((C ++ pre) ++ a :: post)))
      by now rewrite <- app_assoc.
    destruct (names_without (C ++ pre) post a Hnd2) as [Hnd' Hk].
    assert (Hpre : List.Forall (names_differ key) pre).
    { apply List.Forall_forall. intros y Hy Hyk.
      rewrite !map_app in Hnd2. cbn [map] in Hnd2.
      apply NoDup_remove_2 in Hnd2. apply Hnd2.
      apply in_or_app. left. apply in_or_app. right.
      fold (pair_name y) in Hyk. rewrite Ha, <- Hyk. now apply in_map. }
    rewrite scan_match by assumption.
    rewrite cache_all_entries.
    + rewrite <- map_app. exists a, (C ++ pre), post.
      split; [reflexivity|]. split; [exact Hnd'|]. split.
      * intros k. rewrite Hk, Ha, <- app_assoc. reflexivity.
      * rewrite !length_app. cbn [List.length]. lia.
    + rewrite !map_app in Hnd'. apply NoDup_app_remove_r in Hnd'.
      now apply NoDup_app_remove_l in Hnd'.
    + intros y Hy.
      destruct (cache_mem (pair_name y) (map cache_entry C)) eqn:Hmy;
        [|reflexivity].
      apply cache_mem_entries in Hmy. exfalso.
      rewrite !map_app in Hnd'. apply NoDup_app_remove_r in Hnd'.
      revert Hnd' Hmy. generalize (in_map pair_name _ _ Hy).
      generalize (pair_name y) (map pair_name C) (map pair_name pre).
      intros k l1 l2 H2 Hnd' H1.
      induction l1 as [|z l1 IHl]; [destruct H1|].
      cbn [app] in Hnd'. inversion Hnd' as [|? ? Hz Hnd'']; subst.
      destruct H1 as [-> | H1].
      * apply Hz. apply in_or_app. now right.
      * now apply IHl.
Qed.

Lemma read_loop_conserves (read_iter : list (Fq * Fq)) :
  forall (st : State) (n : Z) (C : list (Aln * Aln)),
    st_cache st = map cache_entry C ->
    List.NoDup (map pair_name (C ++ st_aln_iter st)) ->
    List.NoDup (map (fun r => fq_name (fst r)) read_iter) ->
    (forall r, In r read_iter ->
               check_reads r = None
               /\ In (fq_name (fst r)) (map pair_name (C ++ st_aln_iter st))) ->
    exists st',
      read_loop levenshtein adapters st n read_iter = (None, st')
      /\ (List.length (st_cache st') + List.length (st_aln_iter st')
          + List.length read_iter
          = List.length C + List.length (st_aln_iter st))%nat.
Proof.
  induction read_iter as [|r more IH]; intros st n C Hc Hnd Hids Hall.
  - exists st. split; [reflexivity|]. rewrite Hc, length_map. cbn. lia.
  - destruct (Hall r (or_introl eq_refl)) as [Hcheck Hin].
    destruct (find_alignment_conserves _ C (st_aln_iter st) Hnd Hin)
      as (a & C' & rest' & Ef & Hnd' & Hk & Hlen).
    cbn [read_loop]. unfold handle_reads. rewrite Hcheck.
    cbn [st_aln_iter st_cache st_counters st_rows st_num_reads st_i].
    rewrite Hc, Ef.
    match goal with |- context [retained_row _ _ ?s ?id ?x ?rd I0] =>
      destruct (retained_row_fields s id x rd I0) as (r0 & cnt0 & E0) end.
    rewrite E0.
    match goal with |- context [retained_row _ _ ?s ?id ?x ?rd I1] =>
      destruct (retained_row_fields s id x rd I1) as (r1 & cnt1 & E1) end.
    rewrite E1.
    cbn [st_aln_iter st_cache st_counters st_rows st_num_reads st_i].
    cbn [map] in Hids. inversion Hids as [|? ? Hnot Hids']; subst.
    match goal with |- context [read_loop _ _ ?s ?k more] =>
      destruct (IH s k C') as (st' & El & Hl) end.
    + reflexivity.
    + exact Hnd'.
    + exact Hids'.
    + intros r' Hr'. destruct (Hall r' (or_intror Hr')) as [Hc' Hin'].
      split; [exact Hc'|]. cbn [st_aln_iter]. apply Hk. split; [exact Hin'|].
      intros E. apply Hnot. rewrite <- E.
      apply (in_map (fun r => fq_name (fst r))). exact Hr'.
    + exists st'. split; [exact El|]. cbn [st_aln_iter List.length] in Hl |- *.
      lia.
Qed.

Lemma flat_map_pairs_length {A B : Type} (f g : A -> B) (l : list A) :
  List.length (flat_map (fun a => [f a; g a]) l) = (2 * List.length l)%nat.
Proof. induction l as [|a l IH]; cbn [flat_map app List.length]; lia. Qed.

(** X26. Every simulated pair is reported once.  When the alignment pairs
    have different names, the retained read pairs have different names,
    each of them passes the two assertions and has the name of an
    alignment, and there is at least one read pair, [summarize_accuracy]
    returns; the reads it reports as retained and as discarded add up to
    the number of alignment pairs, and it has written two rows for each
    of them. *)
Theorem every_pair_is_reported_once (aln_iter : list (Aln * Aln))
    (read_iter : list (Fq * Fq)) :
  read_iter <> [] ->
  List.NoDup (map pair_name aln_iter) ->
  List.NoDup (map (fun r => fq_name (fst r)) read_iter) ->
  (forall r, In r read_iter ->
             check_reads r = None
             /\ In (fq_name (fst r)) (map pair_name aln_iter)) ->
  exists report rows,
    summarize_accuracy levenshtein adapters aln_iter read_iter
    = (inr report, rows)
    /\ retained_reads report = Z.of_nat (List.length read_iter)
    /\ total_reads report = Z.of_nat (List.length aln_iter)
    /\ List.length rows = (2 * List.length aln_iter)%nat.
Proof.
  intros Hne Hnd Hids Hall. unfold summarize_accuracy.
  set (st0 := {| st_aln_iter := aln_iter; st_cache := []; st_counters := _;
                 st_rows := []; st_num_reads := None; st_i := None |}).
  destruct (read_loop_conserves read_iter st0 1 [] eq_refl Hnd Hids Hall)
    as (st & El & Hlen).
  rewrite El. cbn [st0 st_aln_iter app List.length] in Hlen.
  destruct (read_loop_ok _ _ _ _ El)
    as [[-> _] | (_ & Hnum & Hi & kept & Hk & Hkl)]; [contradiction|].
  rewrite Hi, Hnum, !discard_all_bound. eexists _, _. split; [reflexivity|].
  cbn [retained_reads total_reads]. split; [lia|]. split; [lia|].
  rewrite Hk. cbn [st0 st_rows app].
  rewrite !length_app, !flat_map_pairs_length, length_map. lia.
Qed.

End ReportFacts.

Lemma report_counts_rows_witness :
  exists report rows,
    summarize_accuracy length_difference example_adapters
                       example_alns example_reads = (inr report, rows)
    /\ retained_reads report = 1 /\ total_reads report = 2.
Proof.
  eexists _, _. split; [vm_compute; reflexivity|].
  pose proof (report_counts_rows length_difference example_adapters
                example_alns example_reads _ _
                ltac:(vm_compute; reflexivity)) as (_ & H1 & H2 & _).
  split; [exact H1|]. rewrite H2, H1. reflexivity.
Defined.

Lemma every_pair_is_reported_once_witness :
  exists report rows,
    summarize_accuracy length_difference example_adapters
                       example_alns example_reads = (inr report, rows)
    /\ total_reads report = 2 /\ List.length rows = 4%nat.
Proof.
  destruct (every_pair_is_reported_once length_difference example_adapters
              example_alns example_reads)
    as (report & rows & E & _ & Ht & Hr).
  - discriminate.
  - repeat constructor; cbn; intuition discriminate.
  - repeat constructor; cbn; intuition discriminate.
  - intros r [<- | []]. split; [reflexivity|]. left. reflexivity.
  - exists report, rows. split; [exact E|]. split; [exact Ht | exact Hr].
Defined.

(** ** The two iterators over the input files *)

Lemma rstrip_spaces (ws : pyseq) : all_space ws -> rstrip ws = [].
Proof.
  induction ws as [|c ws IH]; intros Hws; [reflexivity|].
  inversion Hws as [|? ? Hc Hrest]; subst. cbn [rstrip].
  now rewrite IH, Hc.
Qed.

Lemma rstrip_last (y : pyseq) (m : ascii) :
  is_space m = false -> rstrip (y ++ [m]) = y ++ [m].
Proof.
  intros Hm. induction y as [|c y IH].
  - cbn. now rewrite Hm.
  - cbn [app rstrip]. rewrite IH. now destruct y.
Qed.

Lemma rstrip_app_spaces (x ws : pyseq) :
  all_space ws -> rstrip (x ++ ws) = rstrip x.
Proof.
  intros Hws. induction x as [|c x IH].
  - cbn [app]. now rewrite rstrip_spaces.
  - cbn [app rstrip]. now rewrite IH.
Qed.

Lemma py_slice_from_1 (c : ascii) (x : pyseq) : py_slice_from (c :: x) 1 = x.
Proof.
  unfold py_slice_from, py_clip, py_len. cbn [List.length Z.ltb Z.compare].
  replace (Z.min 1 (Z.of_nat (S (List.length x)))) with 1 by lia.
  reflexivity.
Qed.

Lemma py_getitem_last (y : pyseq) (m : ascii) :
  py_getitem (y ++ [m]) (-1) = Ok m.
Proof.
  unfold py_getitem, py_len. rewrite length_app. cbn [List.length Z.ltb Z.compare].
  set (j := -1 + Z.of_nat (List.length y + 1)).
  assert (Hj : j = Z.of_nat (List.length y)) by (subst j; lia).
  rewrite Hj.
  destruct (Z.ltb_spec (Z.of_nat (List.length y)) 0); [lia|].
  destruct (Z.leb_spec (Z.of_nat (List.length y + 1)) (Z.of_nat (List.length y)));
    [lia|].
  cbn [orb]. rewrite Nat2Z.id, nth_error_app2 by lia.
  now rewrite Nat.sub_diag.
Qed.

Lemma py_slice_to_drop2 (y : pyseq) (c d : ascii) :
  py_slice_to (y ++ [c; d]) (-2) = y.
Proof.
  unfold py_slice_to, py_clip, py_len. rewrite length_app.
  cbn [List.length Z.ltb Z.compare].
  replace (Z.max 0 (-2 + Z.of_nat (List.length y + 2)))
    with (Z.of_nat (List.length y)) by lia.
  rewrite Nat2Z.id, firstn_app, Nat.sub_diag, firstn_all. cbn.
  apply app_nil_r.
Qed.

(** X27. [fq_iterator] reads back a FASTQ record.  For a header line made
    of one character (the [@]), a name, a separator character, a mate
    character that is not white space, and trailing white space, followed
    by a sequence line and two more lines, the record yielded has this
    name, this mate and the sequence without its trailing white space; the
    value passed for the parameter [mate] has no effect. *)
Theorem fq_record_round_trip (c0 : ascii) (id : pyseq) (sep m : ascii)
    (ws s ws' l2 l3 : pyseq) (more : list pyseq) (mate : Z) :
  is_space m = false -> all_space ws -> rstrip s = s -> all_space ws' ->
  fq_iterator ((c0 :: id ++ [sep; m] ++ ws) :: (s ++ ws') :: l2 :: l3 :: more)
              mate
  = yield {| fq_name := id; fq_mate := m; fq_seq := s |}
          (fq_iterator more mate).
Proof.
  intros Hm Hws Hs Hws'. cbn [fq_iterator].
  replace (c0 :: id ++ [sep; m] ++ ws)
    with ((c0 :: id ++ [sep]) ++ [m] ++ ws)
    by (cbn [app]; rewrite <- !app_assoc; reflexivity).
  rewrite app_assoc, rstrip_app_spaces, rstrip_last by assumption.
  cbn [app]. rewrite py_slice_from_1.
  rewrite <- app_assoc. cbn [app].
  replace (id ++ [sep; m]) with ((id ++ [sep]) ++ [m])
    by (rewrite <- app_assoc; reflexivity).
  rewrite py_getitem_last.
  replace ((id ++ [sep]) ++ [m]) with (id ++ [sep; m])
    by (rewrite <- app_assoc; reflexivity).
  rewrite py_slice_to_drop2, rstrip_app_spaces, Hs by assumption.
  reflexivity.
Qed.

Lemma fq_record_round_trip_witness :
  fq_iterator example_fastq 2
  = ([{| fq_name := b "read7"; fq_mate := "1"%char; fq_seq := b "ACGT" |}],
     None).
Proof.
  apply (fq_record_round_trip "@"%char (b "read7") "/"%char "1"%char
           ["010"%char] (b "ACGT") ["010"%char] _ _ [] 2).
  - reflexivity.
  - repeat constructor.
  - reflexivity.
  - repeat constructor.
Defined.

(** X28. [fq_iterator] yields at most one record for every four lines; it
    ends without an exception exactly with one record for each complete
    group of four lines, the one to three lines after the last complete
    group being dropped; the only exception it raises is the [IndexError]
    of a header with nothing after its first character; and its result
    does not depend on the parameter [mate]. *)
Theorem fq_iterator_groups (i : list pyseq) (mate mate' : Z) :
  let g := fq_iterator i mate in
  (List.length (fst g) <= List.length i / 4)%nat
  /\ (snd g = None -> List.length (fst g) = (List.length i / 4)%nat)
  /\ (snd g = None \/ snd g = Some (Builtin IndexError))
  /\ fq_iterator i mate' = g.
Proof.
  cbn zeta.
  assert (H : forall n (l : list pyseq), (List.length l <= n)%nat ->
    (List.length (fst (fq_iterator l mate)) <= List.length l / 4)%nat
    /\ (snd (fq_iterator l mate) = None ->
        List.length (fst (fq_iterator l mate)) = (List.length l / 4)%nat)
    /\ (snd (fq_iterator l mate) = None
        \/ snd (fq_iterator l mate) = Some (Builtin IndexError))
    /\ fq_iterator l mate' = fq_iterator l mate).
  { induction n as [|n IH]; intros l Hl.
    - destruct l; [|cbn in Hl; lia]. cbn. repeat split; auto.
    - destruct l as [|l0 [|l1 [|l2 [|l3 more]]]];
        try (cbn; repeat split; auto; fail).
      assert (Hdiv : (List.length (l0 :: l1 :: l2 :: l3 :: more) / 4
                      = S (List.length more / 4))%nat).
      { cbn [List.length].
        replace (S (S (S (S (List.length more)))))
          with (1 * 4 + List.length more)%nat by lia.
        rewrite Nat.div_add_l by lia. lia. }
      rewrite Hdiv. cbn [fq_iterator].
      destruct (py_getitem (py_slice_from (rstrip l0) 1) (-1)) as [c|e] eqn:Eg.
      + destruct (IH more) as (H1 & H2 & H3 & H4).
        { cbn in Hl. lia. }
        unfold yield. cbn [fst snd List.length]. rewrite H4.
        repeat split; auto; lia.
      + cbn [fst snd List.length]. split; [lia|]. split; [discriminate|].
        split; [|reflexivity]. right.
        unfold py_getitem in Eg.
        destruct (_ || _); [now inversion Eg|].
        destruct (nth_error _ _); [discriminate | now inversion Eg]. }
  apply (H (List.length i)). lia.
Qed.

Ltac norm_app :=
  repeat (first [rewrite <- app_assoc | progress cbn [app]]).

Lemma split_field (sep : ascii) (f : pyseq) :
  List.Forall (fun c => c <> sep) f -> split sep f = [f].
Proof.
  induction f as [|c f IH]; intros Hf; [reflexivity|].
  inversion Hf as [|? ? Hc Hrest]; subst. cbn [split].
  destruct (Ascii.eqb_spec c sep); [contradiction|]. now rewrite IH.
Qed.

Lemma split_app_sep (sep : ascii) (f rest : pyseq) :
  List.Forall (fun c => c <> sep) f ->
  split sep (f ++ sep :: rest) = f :: split sep rest.
Proof.
  induction f as [|c f IH]; intros Hf.
  - cbn [app split]. now rewrite Ascii.eqb_refl.
  - inversion Hf as [|? ? Hc Hrest]; subst. cbn [app split].
    destruct (Ascii.eqb_spec c sep); [contradiction|]. now rewrite IH.
Qed.

Lemma py_getitem_head (c : ascii) (x : pyseq) : py_getitem (c :: x) 0 = Ok c.
Proof.
  unfold py_getitem, py_len. cbn [List.length Z.ltb Z.compare].
  destruct (Z.leb_spec (Z.of_nat (S (List.length x))) 0); [lia|].
  reflexivity.
Qed.

Lemma endswith_app (x sfx : pyseq) : endswith (x ++ sfx) sfx = true.
Proof.
  unfold endswith. rewrite py_len_app.
  pose proof (py_len_nonneg x). pose proof (py_len_nonneg sfx).
  destruct (Z.leb_spec (py_len sfx) (py_len x + py_len sfx)); [|lia].
  cbn [andb]. apply pyseq_eqb_eq.
  unfold py_slice_from. rewrite py_clip_inside by (rewrite py_len_app; lia).
  replace (py_len x + py_len sfx - py_len sfx) with (py_len x) by lia.
  unfold py_len. rewrite Nat2Z.id, skipn_app, Nat.sub_diag, skipn_all.
  reflexivity.
Qed.

(** X29. [aln_iterator] reads back an alignment record.  For a header
    line [>chrm TAB name TAB pos TAB strand] whose fields hold no tab,
    whose name field is a name, a separator character and a mate character,
    with or without the suffix [-1], and whose strand ends in a character
    that is not white space, followed by the reference line and the read
    line, the record yielded has this name, mate, chromosome, position and
    strand and the two sequences without their trailing white space, and
    the iterator goes on with the lines after them. *)
Theorem aln_record_round_trip (fuel : nat) (chrm id : pyseq) (sep m : ascii)
    (suffix pos st : pyseq) (z : ascii) (ws ref ws1 act ws2 : pyseq)
    (more : list pyseq) :
  tab_free chrm -> tab_free (id ++ [sep; m] ++ suffix) -> tab_free pos ->
  tab_free (st ++ [z]) ->
  is_space z = false -> all_space ws ->
  suffix = [] \/ suffix = b "-1" ->
  endswith (id ++ [sep; m]) (b "-1") = false ->
  rstrip ref = ref -> all_space ws1 -> rstrip act = act -> all_space ws2 ->
  aln_iterator (S fuel)
    ((">"%char :: chrm ++ "009"%char :: (id ++ [sep; m] ++ suffix)
        ++ "009"%char :: pos ++ "009"%char :: (st ++ [z]) ++ ws)
     :: (ref ++ ws1) :: (act ++ ws2) :: more)
  = yield {| aln_name := id; aln_mate := m; aln_chrm := chrm; aln_pos := pos;
             aln_strand := st ++ [z]; aln_ref := ref; aln_actual := act |}
          (aln_iterator fuel more).
Proof.
  intros Hchrm Hname Hpos Hst Hz Hws Hsfx Hends Href Hws1 Hact Hws2.
  cbn [aln_iterator]. rewrite py_getitem_head.
  change (Ascii.eqb ">" "@" || Ascii.eqb ">" "#") with false. cbv iota.
  unfold aln_record. rewrite py_getitem_head.
  change (negb (Ascii.eqb ">" ">")) with false. cbv iota.
  rewrite py_slice_from_1.
  replace (chrm ++ "009"%char :: (id ++ [sep; m] ++ suffix)
             ++ "009"%char :: pos ++ "009"%char :: (st ++ [z]) ++ ws)
    with ((chrm ++ "009"%char :: (id ++ [sep; m] ++ suffix)
             ++ "009"%char :: pos ++ "009"%char :: st) ++ [z] ++ ws).
  2:{ norm_app. reflexivity. }
  rewrite app_assoc, rstrip_app_spaces, rstrip_last by assumption.
  replace ((chrm ++ "009"%char :: (id ++ [sep; m] ++ suffix)
              ++ "009"%char :: pos ++ "009"%char :: st) ++ [z])
    with (chrm ++ "009"%char :: (id ++ [sep; m] ++ suffix)
              ++ "009"%char :: pos ++ "009"%char :: (st ++ [z])).
  2:{ norm_app. reflexivity. }
  rewrite !split_app_sep, split_field by assumption.
  assert (Hn : (if endswith (id ++ [sep; m] ++ suffix) (b "-1")
                then py_slice_to (id ++ [sep; m] ++ suffix) (-2)
                else id ++ [sep; m] ++ suffix) = id ++ [sep; m]).
  { destruct Hsfx as [-> | ->].
    - rewrite app_nil_r, Hends. reflexivity.
    - rewrite app_assoc, endswith_app.
      change (b "-1") with ["-"%char; "1"%char].
      apply py_slice_to_drop2. }
  rewrite Hn.
  replace (id ++ [sep; m]) with ((id ++ [sep]) ++ [m])
    by (rewrite <- app_assoc; reflexivity).
  rewrite py_getitem_last.
  replace ((id ++ [sep]) ++ [m]) with (id ++ [sep; m])
    by (rewrite <- app_assoc; reflexivity).
  rewrite py_slice_to_drop2, !rstrip_app_spaces, Href, Hact by assumption.
  reflexivity.
Qed.

Lemma aln_record_round_trip_witness :
  aln_iterator 3 example_aln_lines
  = ([{| aln_name := b "read7"; aln_mate := "1"%char; aln_chrm := b "chr1";
         aln_pos := b "100"; aln_strand := b "+"; aln_ref := b "ACGT";
         aln_actual := b "ACGTAG" |}], None).
Proof.
  apply (aln_record_round_trip 2 (b "chr1") (b "read7") "/"%char "1"%char
           (b "-1") (b "100") [] "+"%char ["010"%char]
           (b "ACGT") ["010"%char] (b "ACGTAG") ["010"%char] []).
  all: try reflexivity.
  all: try (repeat constructor; discriminate).
Defined.

Lemma py_getitem_error (s : pyseq) (k : Z) (e : exn) :
  py_getitem s k = Raise e -> e = IndexError.
Proof.
  unfold py_getitem. destruct (_ || _); [now inversion 1|].
  destruct (nth_error _ _); [discriminate | now inversion 1].
Qed.

Lemma aln_record_cases (line : pyseq) (rest : list pyseq) :
  (exists e, aln_record line rest = inl e /\ aln_failure e)
  \/ (exists a r1 r2 rest',
        aln_record line rest = inr (a, rest') /\ rest = r1 :: r2 :: rest').
Proof.
  unfold aln_record, aln_failure.
  destruct (py_getitem line 0) as [c0|e] eqn:E0.
  2:{ apply py_getitem_error in E0. subst. left. eauto. }
  destruct (negb (Ascii.eqb c0 ">")); [left; eauto 6|].
  destruct (split _ _) as [|chrm [|name [|pos [|strand [|x xs]]]]];
    try (left; eauto 6; fail).
  destruct (py_getitem _ (-1)) as [mate|e] eqn:E1.
  2:{ apply py_getitem_error in E1. subst. left. eauto. }
  destruct rest as [|r1 [|r2 rest']]; try (left; eauto 6; fail).
  right. eauto 8.
Qed.

(** X30. [aln_iterator] on a whole file.  A fuel of at least the number
    of lines gives the result of the fuel equal to that number; every
    record yielded has used three lines; and the iterator ends normally or
    with one of four exceptions: [IndexError] (an empty line or a name
    field without characters), [AssertionError] (a line that is neither a
    comment nor a header), [ValueError] (a header without exactly four
    fields) or [RuntimeError] (the file ends inside a record: [next(i)]
    raises [StopIteration] in the body of the generator). *)
Theorem aln_iterator_outcomes (fuel : nat) (i : list pyseq) :
  (List.length i <= fuel)%nat ->
  let g := aln_iterator fuel i in
  aln_iterator (List.length i) i = g
  /\ (3 * List.length (fst g) <= List.length i)%nat
  /\ (forall e, snd g = Some e -> aln_failure e).
Proof.
  cbn zeta. revert i.
  induction fuel as [fuel IH] using (well_founded_induction lt_wf).
  intros i Hlen. destruct i as [|line rest].
  - destruct fuel; cbn; repeat split; try lia; discriminate.
  - destruct fuel as [|fuel]; [cbn in Hlen; lia|].
    cbn [List.length aln_iterator]. cbn [List.length] in Hlen.
    destruct (py_getitem line 0) as [c0|e] eqn:E0.
    2:{ apply py_getitem_error in E0. subst. cbn. repeat split; try lia.
        intros e He. inversion He. left. reflexivity. }
    destruct (Ascii.eqb c0 "@" || Ascii.eqb c0 "#").
    + destruct (IH fuel ltac:(lia) rest ltac:(lia)) as (H1 & H2 & H3).
      rewrite H1. repeat split; [lia | exact H3].
    + destruct (aln_record_cases line rest)
        as [(e & -> & He) | (a & r1 & r2 & rest' & -> & ->)].
      * cbn. repeat split; try lia. intros e' He'. now inversion He'; subst.
      * cbn [List.length] in Hlen |- *.
        destruct (IH fuel ltac:(lia) rest' ltac:(lia)) as (H1 & H2 & H3).
        destruct (IH (S (S (List.length rest'))) ltac:(lia) rest' ltac:(lia))
          as (H1' & _ & _).
        rewrite <- H1', H1. unfold yield. cbn [fst snd List.length].
        repeat split; [lia | exact H3].
Qed.

Lemma aln_iterator_outcomes_witness :
  aln_iterator 3 example_aln_lines = aln_iterator 10 example_aln_lines.
Proof.
  apply (proj1 (aln_iterator_outcomes 10 example_aln_lines
                  ltac:(cbn; lia))).
Defined.

(** A file that ends inside a record: the header of the example alone, or
    with the reference line only. *)
Example truncated_record_runtime_error :
  aln_iterator 3 (firstn 1 example_aln_lines) = ([], Some RuntimeError)
  /\ aln_iterator 3 (firstn 2 example_aln_lines) = ([], Some RuntimeError).
Proof. split; vm_compute; reflexivity. Qed.

End AccuracyFacts.
